(** * URL reconciliation: a shallow embedding of [tools/google-sheets/main.py]

    The development follows the Python source function by function.  The
    functions of [urllib.parse] that the source calls ([urlparse],
    [parse_qs], [urlencode], [urlunparse]) are embedded from CPython 3.11's
    [Lib/urllib/parse.py], since the behaviour of the canonicalizer and of
    the comparator is decided there. *)

From Stdlib Require Import ZArith List Bool String Ascii Lia Sorted Permutation.
Import ListNotations.
Open Scope Z_scope.

(** ** Python strings

    A Python [str] is a sequence of Unicode code points; a [bytes] object is
    a sequence of integers below 256.  Both are lists of [Z]. *)

Definition str := list Z.
Definition bytes := list Z.

(** ASCII literals of the source are written [py "..."]. *)
Definition py (s : string) : str :=
  map (fun a => Z.of_N (N_of_ascii a)) (list_ascii_of_string s).

Definition chr (s : string) : Z :=
  match py s with c :: _ => c | [] => 0 end.

Fixpoint eqb_str (a b : str) : bool :=
  match a, b with
  | [], [] => true
  | x :: a', y :: b' => (x =? y) && eqb_str a' b'
  | _, _ => false
  end.

Definition truthy (s : str) : bool :=
  match s with [] => false | _ => true end.

(** [c in s] for a one-character [c]. *)
Definition has (c : Z) (s : str) : bool := existsb (Z.eqb c) s.

(** [s.lstrip(chars)] and [s.rstrip(chars)], the set [chars] given by its
    characteristic function. *)
Fixpoint lstrip (p : Z -> bool) (s : str) : str :=
  match s with
  | c :: r => if p c then lstrip p r else s
  | [] => []
  end.

Fixpoint rstrip (p : Z -> bool) (s : str) : str :=
  match s with
  | [] => []
  | c :: r =>
      match rstrip p r with
      | [] => if p c then [] else [c]
      | r' => c :: r'
      end
  end.

(** [s.replace(c, "")] and [s.replace(c, d)] for one-character [c], [d]. *)
Definition delete (c : Z) (s : str) : str :=
  filter (fun x => negb (x =? c)) s.

Definition replace (c d : Z) (s : str) : str :=
  map (fun x => if x =? c then d else x) s.

(** [s.find(c)] and [s.find(c, start)]: the least index at or after [start]
    that holds [c], or [-1]. *)
Fixpoint find_from (c : Z) (s : str) (i : Z) : Z :=
  match s with
  | [] => -1
  | x :: r => if x =? c then i else find_from c r (i + 1)
  end.

Definition find (c : Z) (s : str) : Z := find_from c s 0.

Definition slice_to (s : str) (i : Z) : str := firstn (Z.to_nat i) s.
Definition slice_from (s : str) (i : Z) : str := skipn (Z.to_nat i) s.

Definition find_at (c : Z) (s : str) (start : Z) : Z :=
  find_from c (slice_from s start) start.

(** [s.rfind(c)]: the greatest index that holds [c], or [-1]. *)
Fixpoint rfind_from (c : Z) (s : str) (i : Z) (last : Z) : Z :=
  match s with
  | [] => last
  | x :: r => rfind_from c r (i + 1) (if x =? c then i else last)
  end.

Definition rfind (c : Z) (s : str) : Z := rfind_from c s 0 (-1).

Definition len (s : str) : Z := Z.of_nat (List.length s).

(** [s.partition(c)]: the text before the first [c], whether [c] was found,
    and the text after it. *)
Fixpoint partition (c : Z) (s : str) : str * bool * str :=
  match s with
  | [] => ([], false, [])
  | x :: r =>
      if x =? c then ([], true, r)
      else let '(a, f, b) := partition c r in (x :: a, f, b)
  end.

(** [s.rpartition(c)]: the same around the last [c]; when [c] is absent the
    whole text is the third component. *)
Fixpoint rpartition (c : Z) (s : str) : str * bool * str :=
  match s with
  | [] => ([], false, [])
  | x :: r =>
      let '(a, f, b) := rpartition c r in
      if f then (x :: a, true, b)
      else if x =? c then ([], true, r)
      else ([], false, x :: b)
  end.

(** [s.split(c)]: always at least one piece. *)
Fixpoint split (c : Z) (s : str) : list str :=
  match s with
  | [] => [[]]
  | x :: r =>
      if x =? c then [] :: split c r
      else match split c r with
           | p :: ps => (x :: p) :: ps
           | [] => [[x]]
           end
  end.

Fixpoint startswith (pre s : str) : bool :=
  match pre, s with
  | [], _ => true
  | x :: pre', y :: s' => (x =? y) && startswith pre' s'
  | _ :: _, [] => false
  end.

Definition endswith (suf s : str) : bool := startswith (rev suf) (rev s).

(** [needle in s] for strings. *)
Fixpoint contains (needle s : str) : bool :=
  startswith needle s ||
  match s with
  | [] => false
  | _ :: r => contains needle r
  end.

Definition isascii (s : str) : bool := forallb (fun c => c <? 128) s.

Definition is_upper (c : Z) : bool := (65 <=? c) && (c <=? 90).
Definition is_lower (c : Z) : bool := (97 <=? c) && (c <=? 122).
Definition is_digit (c : Z) : bool := (48 <=? c) && (c <=? 57).
Definition is_alpha (c : Z) : bool := is_upper c || is_lower c.

(** ** What the interpreter supplies

    Three library routines rest on tables that are not part of the program:
    the Unicode lower-casing of text that is not ASCII, the NFKC
    normalisation of [unicodedata], and the address parser of [ipaddress].
    They are taken as they are; every theorem below holds whatever they
    compute. *)

Class Runtime := {
  (** [s.lower()] for an [s] that is not pure ASCII *)
  unicode_lower : str -> str;
  (** [unicodedata.normalize('NFKC', s)] *)
  nfkc : str -> str;
  (** whether [ipaddress.ip_address(s)] returns an [IPv6Address]
      (it raises [ValueError] on text that is no address) *)
  ip_address_is_v6 : str -> bool
}.

(** Exceptions, all of them subclasses of Python's [Exception]. *)
Inductive exn := ValueError | UnicodeEncodeError | IndexError.

Inductive result (A : Type) :=
| Ok (a : A)
| Raise (e : exn).
Arguments Ok {A} a.
Arguments Raise {A} e.

Definition bind {A B} (m : result A) (k : A -> result B) : result B :=
  match m with
  | Ok a => k a
  | Raise e => Raise e
  end.

Notation "x <- m ;; k" := (bind m (fun x => k))
  (at level 61, m at next level, right associativity).
Notation "m ;;; k" := (bind m (fun _ => k))
  (at level 61, right associativity).

(** [raise e] when [b] holds. *)
Definition raise_if (b : bool) (e : exn) : result unit :=
  if b then Raise e else Ok tt.

Section WithRuntime.
Context {rt : Runtime}.

(** [s.lower()] *)
Definition lower (s : str) : str :=
  if isascii s then map (fun c => if is_upper c then c + 32 else c) s
  else unicode_lower s.

(** ** [urllib.parse]: splitting *)

Definition uses_netloc : list str :=
  map py ["" ; "ftp" ; "http" ; "gopher" ; "nntp" ; "telnet" ;
          "imap" ; "wais" ; "file" ; "mms" ; "https" ; "shttp" ;
          "snews" ; "prospero" ; "rtsp" ; "rtspu" ; "rsync" ;
          "svn" ; "svn+ssh" ; "sftp" ; "nfs" ; "git" ; "git+ssh" ;
          "ws" ; "wss"]%string.

Definition uses_params : list str :=
  map py ["" ; "ftp" ; "hdl" ; "prospero" ; "http" ; "imap" ;
          "https" ; "shttp" ; "rtsp" ; "rtspu" ; "sip" ; "sips" ;
          "mms" ; "sftp" ; "tel"]%string.

Definition mem (s : str) (l : list str) : bool := existsb (eqb_str s) l.

(** [c in scheme_chars] *)
Definition scheme_char (c : Z) : bool :=
  is_lower c || is_upper c || is_digit c ||
  (c =? chr "+") || (c =? chr "-") || (c =? chr ".").

(** [c in _WHATWG_C0_CONTROL_OR_SPACE] *)
Definition c0_control_or_space (c : Z) : bool := (0 <=? c) && (c <=? 32).

Definition _UNSAFE_URL_BYTES_TO_REMOVE : list Z := [9; 13; 10].

Definition _splitnetloc (url : str) (start : Z) : str * str :=
  let delim :=
    fold_left
      (fun delim c =>
         let wdelim := find_at c url start in
         if wdelim >=? 0 then Z.min delim wdelim else delim)
      (py "/?#") (len url) in
  (slice_to (slice_from url start) (delim - start), slice_from url delim).

Definition _checknetloc (netloc : str) : result unit :=
  if negb (truthy netloc) || isascii netloc then Ok tt
  else
    let n := delete (chr "@") netloc in
    let n := delete (chr ":") n in
    let n := delete (chr "#") n in
    let n := delete (chr "?") n in
    let netloc2 := nfkc n in
    if eqb_str n netloc2 then Ok tt
    else raise_if (existsb (fun c => has c netloc2) (py "/?#@:")) ValueError.

Definition is_hexdig (c : Z) : bool :=
  is_digit c || ((65 <=? c) && (c <=? 70)) || ((97 <=? c) && (c <=? 102)).

(** [re.match(r"\Av[a-fA-F0-9]+\..+\Z", hostname)] *)
Definition ipvfuture_match (hostname : str) : bool :=
  match hostname with
  | c :: r =>
      (c =? chr "v") &&
      let digits := lstrip is_hexdig r in
      negb (len digits =? len r) &&
      match digits with
      | d :: rest =>
          (d =? chr ".") && truthy rest &&
          forallb (fun x => negb (x =? 10)) rest
      | [] => false
      end
  | [] => false
  end.

Definition _check_bracketed_host (hostname : str) : result unit :=
  if startswith (py "v") hostname then
    raise_if (negb (ipvfuture_match hostname)) ValueError
  else
    raise_if (negb (ip_address_is_v6 hostname)) ValueError.

Definition _check_bracketed_netloc (netloc : str) : result unit :=
  let '(_, _, hostname_and_port) := rpartition (chr "@") netloc in
  let '(before_bracket, have_open_br, bracketed) :=
    partition (chr "[") hostname_and_port in
  if have_open_br then
    raise_if (truthy before_bracket) ValueError ;;;
    let '(hostname, _, port) := partition (chr "]") bracketed in
    raise_if (truthy port && negb (startswith (py ":") port)) ValueError ;;;
    _check_bracketed_host hostname
  else
    let '(hostname, _, port) := partition (chr ":") hostname_and_port in
    _check_bracketed_host hostname.

Record SplitResult := mkSplit {
  s_scheme : str; s_netloc : str; s_path : str;
  s_query : str; s_fragment : str
}.

(** [url.split(c, 1)] when [c in url]. *)
Definition split1 (c : Z) (url : str) : str * str :=
  let '(a, _, b) := partition c url in (a, b).

Definition urlsplit (url : str) : result SplitResult :=
  let url := lstrip c0_control_or_space url in
  let url := fold_left (fun u b => delete b u) _UNSAFE_URL_BYTES_TO_REMOVE url in
  let i := find (chr ":") url in
  let '(scheme, url) :=
    if (i >? 0) &&
       match url with c :: _ => (c <? 128) && is_alpha c | [] => false end &&
       forallb scheme_char (slice_to url i)
    then (lower (slice_to url i), slice_from url (i + 1))
    else ([], url) in
  r <- (if eqb_str (slice_to url 2) (py "//") then
          let '(netloc, url) := _splitnetloc url 2 in
          raise_if ((has (chr "[") netloc && negb (has (chr "]") netloc)) ||
                    (has (chr "]") netloc && negb (has (chr "[") netloc)))
                   ValueError ;;;
          (if has (chr "[") netloc && has (chr "]") netloc
           then _check_bracketed_netloc netloc else Ok tt) ;;;
          Ok (netloc, url)
        else Ok ([], url)) ;;
  let '(netloc, url) := r in
  let '(url, fragment) :=
    if has (chr "#") url then split1 (chr "#") url else (url, []) in
  let '(url, query) :=
    if has (chr "?") url then split1 (chr "?") url else (url, []) in
  _checknetloc netloc ;;;
  Ok (mkSplit scheme netloc url query fragment).

Record ParseResult := mkParse {
  scheme : str; netloc : str; path : str;
  params : str; query : str; fragment : str
}.

Definition _splitparams (url : str) : str * str :=
  if has (chr "/") url then
    let i := find_at (chr ";") url (rfind (chr "/") url) in
    if i <? 0 then (url, [])
    else (slice_to url i, slice_from url (i + 1))
  else
    let i := find (chr ";") url in
    (slice_to url i, slice_from url (i + 1)).

Definition urlparse (url : str) : result ParseResult :=
  sr <- urlsplit url ;;
  let '(url, params) :=
    if mem (s_scheme sr) uses_params && has (chr ";") (s_path sr)
    then _splitparams (s_path sr) else (s_path sr, []) in
  Ok (mkParse (s_scheme sr) (s_netloc sr) url params (s_query sr) (s_fragment sr)).

(** ** [urllib.parse]: joining *)

Definition urlunsplit (scheme netloc url query fragment : str) : str :=
  let url :=
    if truthy netloc ||
       (truthy scheme && mem scheme uses_netloc &&
        negb (eqb_str (slice_to url 2) (py "//")))
    then
      let url :=
        if truthy url && negb (eqb_str (slice_to url 1) (py "/"))
        then py "/" ++ url else url in
      py "//" ++ netloc ++ url
    else url in
  let url := if truthy scheme then scheme ++ py ":" ++ url else url in
  let url := if truthy query then url ++ py "?" ++ query else url in
  let url := if truthy fragment then url ++ py "#" ++ fragment else url in
  url.

Definition urlunparse (scheme netloc url params query fragment : str) : str :=
  let url := if truthy params then url ++ py ";" ++ params else url in
  urlunsplit scheme netloc url query fragment.

(** ** [urllib.parse]: percent-encoding *)

(** [s.encode('utf-8', 'strict')], one code point: surrogates cannot be
    encoded, and numbers that are no code point do not occur in a [str]. *)
Definition utf8_encode_char (c : Z) : result bytes :=
  if c <? 0 then Raise UnicodeEncodeError
  else if c <? 128 then Ok [c]
  else if c <? 2048 then Ok [192 + c / 64; 128 + c mod 64]
  else if c <? 65536 then
    if (55296 <=? c) && (c <=? 57343) then Raise UnicodeEncodeError
    else Ok [224 + c / 4096; 128 + (c / 64) mod 64; 128 + c mod 64]
  else if c <? 1114112 then
    Ok [240 + c / 262144; 128 + (c / 4096) mod 64;
        128 + (c / 64) mod 64; 128 + c mod 64]
  else Raise UnicodeEncodeError.

Fixpoint utf8_encode (s : str) : result bytes :=
  match s with
  | [] => Ok []
  | c :: r =>
      b <- utf8_encode_char c ;;
      bs <- utf8_encode r ;;
      Ok (b ++ bs)
  end.

Definition is_cont (b : Z) : bool := (128 <=? b) && (b <? 192).

Definition REPLACEMENT : Z := 65533.

(** [bs.decode('utf-8', 'replace')], after CPython's [utf8_decode]: an
    invalid start byte, or the valid bytes read before an invalid
    continuation, or a sequence cut short by the end of the data, each
    become one U+FFFD. *)
Fixpoint utf8_decode (bs : bytes) : str :=
  match bs with
  | [] => []
  | b :: r1 =>
      if b <? 128 then b :: utf8_decode r1
      else if b <? 194 then REPLACEMENT :: utf8_decode r1
      else if b <? 224 then
        match r1 with
        | [] => [REPLACEMENT]
        | b2 :: r2 =>
            if is_cont b2
            then ((b - 192) * 64 + (b2 - 128)) :: utf8_decode r2
            else REPLACEMENT :: utf8_decode r1
        end
      else if b <? 240 then
        match r1 with
        | [] => [REPLACEMENT]
        | b2 :: r2 =>
            if negb (is_cont b2) ||
               (if b2 <? 160 then b =? 224 else b =? 237)
            then REPLACEMENT :: utf8_decode r1
            else
              match r2 with
              | [] => [REPLACEMENT]
              | b3 :: r3 =>
                  if is_cont b3
                  then ((b - 224) * 4096 + (b2 - 128) * 64 + (b3 - 128))
                         :: utf8_decode r3
                  else REPLACEMENT :: utf8_decode r2
              end
        end
      else if b <? 245 then
        match r1 with
        | [] => [REPLACEMENT]
        | b2 :: r2 =>
            if negb (is_cont b2) ||
               (if b2 <? 144 then b =? 240 else b =? 244)
            then REPLACEMENT :: utf8_decode r1
            else
              match r2 with
              | [] => [REPLACEMENT]
              | b3 :: r3 =>
                  if negb (is_cont b3) then REPLACEMENT :: utf8_decode r2
                  else
                    match r3 with
                    | [] => [REPLACEMENT]
                    | b4 :: r4 =>
                        if is_cont b4
                        then ((b - 240) * 262144 + (b2 - 128) * 4096 +
                              (b3 - 128) * 64 + (b4 - 128))
                               :: utf8_decode r4
                        else REPLACEMENT :: utf8_decode r3
                    end
              end
        end
      else REPLACEMENT :: utf8_decode r1
  end.

(** The value of a character of [_hexdig]. *)
Definition hexval (c : Z) : Z :=
  if is_digit c then c - 48
  else if c <? 97 then c - 55 else c - 87.

(** [unquote_to_bytes(string)] for ASCII text: split at ['%'], and turn the
    two hexadecimal digits that open a piece into one byte. *)
Definition unquote_to_bytes (string : str) : bytes :=
  match split (chr "%") string with
  | [] => []
  | first :: items =>
      first ++
      flat_map
        (fun item =>
           match item with
           | h1 :: h2 :: rest =>
               if is_hexdig h1 && is_hexdig h2
               then (16 * hexval h1 + hexval h2) :: rest
               else chr "%" :: item
           | _ => chr "%" :: item
           end)
        items
  end.

(** The loop of [unquote] over [_asciire.split(string)]: every maximal run
    of ASCII characters ([run], most recent first) is unquoted and decoded,
    the text between the runs is kept. *)
Definition unquote_run (run : str) : str :=
  match run with
  | [] => []
  | _ => utf8_decode (unquote_to_bytes (rev run))
  end.

Fixpoint unquote_runs (s run : str) : str :=
  match s with
  | [] => unquote_run run
  | c :: r =>
      if c <? 128 then unquote_runs r (c :: run)
      else unquote_run run ++ c :: unquote_runs r []
  end.

Definition unquote (string : str) : str :=
  if negb (has (chr "%") string) then string
  else unquote_runs string [].

Definition always_safe (b : Z) : bool :=
  is_upper b || is_lower b || is_digit b ||
  (b =? chr "_") || (b =? chr ".") || (b =? chr "-") || (b =? chr "~").

Definition hexdigit (n : Z) : Z := if n <? 10 then 48 + n else 55 + n.

(** [_Quoter(safe).__missing__]: ['%{:02X}'.format(b)] unless [b] is safe. *)
Definition quoter (safe : list Z) (b : Z) : str :=
  if always_safe b || has b safe then [b]
  else [chr "%"; hexdigit (b / 16); hexdigit (b mod 16)].

Definition quote_from_bytes (bs : bytes) (safe : list Z) : str :=
  if negb (truthy bs) then []
  else
    let safe := filter (fun c => c <? 128) safe in
    if negb (truthy (rstrip (fun b => always_safe b || has b safe) bs))
    then bs
    else flat_map (quoter safe) bs.

Definition quote (string : str) (safe : list Z) : result str :=
  if negb (truthy string) then Ok string
  else
    bs <- utf8_encode string ;;
    Ok (quote_from_bytes bs safe).

Definition quote_plus (string : str) : result str :=
  if negb (has (chr " ") string) then quote string []
  else
    q <- quote string ([] ++ py " ") ;;
    Ok (replace (chr " ") (chr "+") q).

(** ** [urllib.parse]: query strings *)

(** [parse_qsl(qs, keep_blank_values=True)] *)
Definition parse_qsl (qs : str) : list (str * str) :=
  let query_args := if truthy qs then split (chr "&") qs else [] in
  flat_map
    (fun name_value =>
       if negb (truthy name_value) then []
       else
         let '(n, _, v) := partition (chr "=") name_value in
         let name := unquote (replace (chr "+") (chr " ") n) in
         let value := unquote (replace (chr "+") (chr " ") v) in
         [(name, value)])
    query_args.

(** A [dict] from strings to lists of strings, in insertion order. *)
Definition dict := list (str * list str).

Fixpoint dict_append (d : dict) (name value : str) : dict :=
  match d with
  | [] => [(name, [value])]
  | (k, vs) :: d' =>
      if eqb_str k name then (k, vs ++ [value]) :: d'
      else (k, vs) :: dict_append d' name value
  end.

(** [parse_qs(qs, keep_blank_values=True)] *)
Definition parse_qs (qs : str) : dict :=
  fold_left (fun d '(name, value) => dict_append d name value)
            (parse_qsl qs) [].

Fixpoint join (sep : str) (l : list str) : str :=
  match l with
  | [] => []
  | [x] => x
  | x :: r => x ++ sep ++ join sep r
  end.

Fixpoint mapM {A B} (f : A -> result B) (l : list A) : result (list B) :=
  match l with
  | [] => Ok []
  | a :: r =>
      b <- f a ;;
      bs <- mapM f r ;;
      Ok (b :: bs)
  end.

(** [urlencode(query, doseq=True)] on such a [dict] *)
Definition urlencode (query : dict) : result str :=
  l <- mapM (fun '(k, v) =>
               k <- quote_plus k ;;
               mapM (fun elt =>
                       elt <- quote_plus elt ;;
                       Ok (k ++ py "=" ++ elt)) v)
            query ;;
  Ok (join (py "&") (List.concat l)).

(** ** The canonicalizer *)

Definition tracking_params : list str :=
  map py [
    "utm_source"; "utm_medium"; "utm_campaign"; "utm_term"; "utm_content";
    "fbclid"; "gclid"; "_ga"; "ref"; "source"; "campaign"; "medium";
    "ref_src"; "ref_url"; "ref_map"; "ref_type"; "ref_id"; "ref_content";
    "_hsenc"; "_hsmi"; "mc_cid"; "mc_eid"; "ml_subscriber";
    "ml_subscriber_hash";
    "s"; "t"; "twclid";
    "share"; "action"; "feature"; "tracking"; "tracked"; "debug";
    "dm_i"; "eh"; "sa"; "ved"; "ei"; "url"; "src"; "source_id"; "sourceid";
    "_ke"; "hsCtaTracking"; "hash"; "_branch_match_id"]%string.

Definition is_slash (c : Z) : bool := c =? chr "/".

(** The dictionary comprehension of [strip_tracking_params]. *)
Definition filter_query (query_dict : dict) : dict :=
  filter (fun '(k, v) => negb (mem (lower k) tracking_params)) query_dict.

(** The body of the [try] block of [strip_tracking_params]. *)
Definition strip_tracking_params_try (url : str) : result str :=
  parsed <- urlparse url ;;
  let query_dict := parse_qs (query parsed) in
  let filtered_query := filter_query query_dict in
  new_query <- urlencode filtered_query ;;
  let clean_url :=
    urlunparse (scheme parsed) (netloc parsed) (path parsed)
               (params parsed) new_query (fragment parsed) in
  Ok (rstrip is_slash clean_url).

(** Python values that can reach the guards [not url or not
    isinstance(url, str)]. *)
Inductive value :=
| PyNone
| PyBool (b : bool)
| PyInt (n : Z)
| PyStr (s : str).

(** Truth value testing. *)
Definition is_true (v : value) : bool :=
  match v with
  | PyNone => false
  | PyBool b => b
  | PyInt n => negb (n =? 0)
  | PyStr s => truthy s
  end.

Definition isinstance_str (v : value) : bool :=
  match v with PyStr _ => true | _ => false end.

Definition try_except {A} (body : result A) (handler : exn -> result A)
  : result A :=
  match body with
  | Ok a => Ok a
  | Raise e => handler e
  end.

Definition strip_tracking_params (url : value) : result value :=
  if negb (is_true url) || negb (isinstance_str url) then Ok url
  else
    match url with
    | PyStr s =>
        try_except
          (c <- strip_tracking_params_try s ;; Ok (PyStr c))
          (fun _ => Ok url)
    | _ => Ok url
    end.

(** What [strip_tracking_params] returns on a [str]. *)
Definition canonicalize (url : str) : str :=
  if negb (truthy url) then url
  else
    match strip_tracking_params_try url with
    | Ok c => c
    | Raise _ => url
    end.

(** ** The resolver

    The network is what [session.get] answers for a URL: a response with a
    status and a final URL after redirects, a timeout, or another
    exception.  A computation that talks to the network returns its value
    together with the requests it issued. *)

Inductive response :=
| Response (status : Z) (final_url : str)
| TimeoutError
| ClientError.

Definition Session := str -> response.

Definition IO (A : Type) : Type := list str * A.

Definition io_ret {A} (a : A) : IO A := ([], a).

Definition io_bind {A B} (m : IO A) (k : A -> IO B) : IO B :=
  let '(t1, a) := m in
  let '(t2, b) := k a in
  (t1 ++ t2, b).

Notation "x <~ m ;; k" := (io_bind m (fun x => k))
  (at level 61, m at next level, right associativity).

Definition requests {A} (m : IO A) : list str := fst m.
Definition returned {A} (m : IO A) : A := snd m.

Definition session_get (session : Session) (url : str) : IO response :=
  ([url], session url).

(** The [try] statement of [fetch_url]. *)
Definition fetch_url_try (session : Session) (url : str) : IO str :=
  r <~ session_get session url ;;
  match r with
  | Response status final_url => io_ret final_url
  | TimeoutError => io_ret url
  | ClientError => io_ret url
  end.

Definition fetch_url (session : Session) (url : value) : IO value :=
  if negb (is_true url) || negb (isinstance_str url) then io_ret url
  else
    match url with
    | PyStr s => r <~ fetch_url_try session s ;; io_ret (PyStr r)
    | _ => io_ret url
    end.

(** What [fetch_url] does on a [str]. *)
Definition resolve (session : Session) (url : str) : IO str :=
  if negb (truthy url) then io_ret url else fetch_url_try session url.

(** [c.isspace()] *)
Definition isspace (c : Z) : bool :=
  ((9 <=? c) && (c <=? 13)) || ((28 <=? c) && (c <=? 32)) ||
  (c =? 133) || (c =? 160) || (c =? 5760) ||
  ((8192 <=? c) && (c <=? 8202)) || (c =? 8232) || (c =? 8233) ||
  (c =? 8239) || (c =? 8287) || (c =? 12288).

(** [s.strip()] *)
Definition strip (s : str) : str := rstrip isspace (lstrip isspace s).

(** [await asyncio.gather( *tasks)]: the results in the order of the tasks. *)
Fixpoint gather {A} (tasks : list (IO A)) : IO (list A) :=
  match tasks with
  | [] => io_ret []
  | t :: ts =>
      a <~ t ;;
      r <~ gather ts ;;
      io_ret (a :: r)
  end.

Definition batch_size : nat := 50.

(** [range(0, stop, step)] *)
Definition range_step (stop step : nat) : list nat :=
  map (fun k => (k * step)%nat) (seq 0 ((stop + step - 1) / step)).

(** [l[i:i + n]] *)
Definition slice {A} (l : list A) (i n : nat) : list A := firstn n (skipn i l).

(** One turn of the loop of [verify_urls]. *)
Definition verify_batch (session : Session) (short_urls long_urls : list str)
    (results : list (str * str)) (i : nat) : IO (list (str * str)) :=
  let batch_short := slice short_urls i batch_size in
  let batch_long := slice long_urls i batch_size in
  let short_tasks :=
    map (resolve session) (filter (fun url => truthy (strip url)) batch_short) in
  let long_tasks :=
    map (resolve session) (filter (fun url => truthy (strip url)) batch_long) in
  short_results <~ gather short_tasks ;;
  long_results <~ gather long_tasks ;;
  io_ret (results ++ combine (map canonicalize short_results) long_results).

Fixpoint io_fold {A B} (f : A -> B -> IO A) (l : list B) (a : A) : IO A :=
  match l with
  | [] => io_ret a
  | b :: r => a' <~ f a b ;; io_fold f r a'
  end.

Definition verify_urls (session : Session) (short_urls long_urls : list str)
  : IO (list (str * str)) :=
  io_fold (verify_batch session short_urls long_urls)
          (range_step (List.length short_urls) batch_size) [].

(** ** The comparator *)

Definition normalize_url_path (path : str) : str :=
  let path := rstrip is_slash path in
  if endswith (py "/cl/s") path
  then firstn (List.length path - 5) path
  else path.

Definition compare_urls (url1 url2 : str) : result (bool * str) :=
  parsed1 <- urlparse url1 ;;
  parsed2 <- urlparse url2 ;;
  if negb (eqb_str (netloc parsed1) (netloc parsed2))
  then Ok (false, py "Different domains")
  else
    let path1 := normalize_url_path (path parsed1) in
    let path2 := normalize_url_path (path parsed2) in
    if negb (eqb_str (lower path1) (lower path2))
    then Ok (false, py "Different paths")
    else Ok (true, py "URLs match").

(** ** The orchestrator

    [main] after the two sheets are loaded: a data frame is its rows, each
    an identifier and a URL. *)

Record Row := mkRow { id : Z; url : str }.

Definition DataFrame := list Row.

Record Mismatch := mkMismatch {
  m_id : Z; m_url1 : str; m_url2 : str; m_details : str
}.

(** What a run leaves behind: it returned at the [No common IDs] check, or
    it went through the loop and built [mismatches]. *)
Inductive outcome :=
| NoCommonIds
| Verified (mismatches : list Mismatch).

Definition isin (ids : list Z) (df : DataFrame) : DataFrame :=
  filter (fun r => existsb (Z.eqb (id r)) ids) df.

(** A row goes before the first row whose identifier is not smaller than
    its own. *)
Fixpoint insert_row (r : Row) (df : DataFrame) : DataFrame :=
  match df with
  | [] => [r]
  | x :: df' => if id r <=? id x then r :: x :: df' else x :: insert_row r df'
  end.

(** [df.sort_values('id')]: ascending identifiers, rows of equal identifier
    kept in the order they had.  The rows are inserted from the last to the
    first, each before the rows of the same identifier that came after it. *)
Definition sort_values (df : DataFrame) : DataFrame :=
  fold_right insert_row [] df.

(** [set(df1['id']).intersection(set(df2['id']))] *)
Definition intersection (df1 df2 : DataFrame) : list Z :=
  filter (fun i => existsb (Z.eqb i) (map id df2)) (nodup Z.eq_dec (map id df1)).

Definition iloc_id (df : DataFrame) (i : nat) : result Z :=
  match nth_error df i with
  | Some r => Ok (id r)
  | None => Raise IndexError
  end.

(** The loop of [main] over [enumerate(results)], from index [i]. *)
Fixpoint process_results (df1_filtered : DataFrame)
    (results : list (str * str)) (i : nat) (mismatches : list Mismatch)
  : result (list Mismatch) :=
  match results with
  | [] => Ok mismatches
  | (verified_url1, verified_url2) :: rest =>
      if contains (py "web.archive.org") verified_url2
      then
        iloc_id df1_filtered i ;;;
        process_results df1_filtered rest (S i) mismatches
      else
        c <- compare_urls verified_url1 verified_url2 ;;
        let '(matches, details) := c in
        if negb matches then
          the_id <- iloc_id df1_filtered i ;;
          process_results df1_filtered rest (S i)
            (mismatches ++ [mkMismatch the_id verified_url1 verified_url2 details])
        else process_results df1_filtered rest (S i) mismatches
  end.

Definition main (session : Session) (df1 df2 : DataFrame)
  : IO (result outcome) :=
  let common_ids := intersection df1 df2 in
  match common_ids with
  | [] => io_ret (Ok NoCommonIds)
  | _ =>
      let df1_filtered := sort_values (isin common_ids df1) in
      let df2_filtered := sort_values (isin common_ids df2) in
      let urls1 := map url df1_filtered in
      let urls2 := map url df2_filtered in
      results <~ verify_urls session urls1 urls2 ;;
      io_ret (mismatches <- process_results df1_filtered results 0 [] ;;
              Ok (Verified mismatches))
  end.

End WithRuntime.

(** ** Reading a column of a sheet

    [get_column_data] asks the worksheet for a whole column and cuts the
    rows before [start_row] off.  The worksheet is what [col_values]
    answers for a column: its values, or an exception of the client
    library. *)

(** [s.upper()] of text that is not pure ASCII rests on the Unicode tables,
    as [s.lower()] does. *)
Class Uppercase := {
  unicode_upper : str -> str
}.

(** [s.upper()] *)
Definition upper {up : Uppercase} (s : str) : str :=
  if isascii s then map (fun c => if is_lower c then c - 32 else c) s
  else unicode_upper s.

(** What a call that can fail with an exception of type [E] gives. *)
Inductive answer (E A : Type) :=
| Returns (a : A)
| Raises (e : E).
Arguments Returns {E A} a.
Arguments Raises {E A} e.

(** The exceptions of [get_column_data]: the [TypeError] of [ord], or what
    the worksheet raised. *)
Inductive column_exn (E : Type) :=
| TypeError
| WorksheetError (e : E).
Arguments TypeError {E}.
Arguments WorksheetError {E} e.

(** [worksheet.col_values] *)
Definition Worksheet (E A : Type) : Type := value -> answer E (list A).

(** [ord(s)]: the code point of a string of length one. *)
Definition ord {E} (s : str) : answer (column_exn E) Z :=
  match s with
  | [c] => Returns c
  | _ => Raises TypeError
  end.

(** [l[k:]], for any integer [k]: a negative [k] counts from the end. *)
Definition slice_from_index {A} (l : list A) (k : Z) : list A :=
  let n := Z.of_nat (List.length l) in
  let start := if k <? 0 then Z.max (k + n) 0 else Z.min k n in
  skipn (Z.to_nat start) l.

Definition get_column_data {up : Uppercase} {E A}
    (worksheet : Worksheet E A) (column : value) (start_row : Z)
  : answer (column_exn E) (list A) :=
  let converted :=
    match column with
    | PyStr s =>
        match ord (upper s) with
        | Returns c => Returns (PyInt (c - chr "A" + 1))
        | Raises e => Raises e
        end
    | _ => Returns column
    end in
  match converted with
  | Raises e => Raises e
  | Returns column =>
      match worksheet column with
      | Raises e => Raises (WorksheetError e)
      | Returns all_values =>
          Returns (slice_from_index all_values (start_row - 1))
      end
  end.

(** * Definitions used by the proofs *)

Section ProofDefinitions.
Context {rt : Runtime}.

(** ** The steps of [urlsplit]

    [urlsplit] is one function in the source; its steps are named here so
    that lemmas can speak about them one at a time.  [urlsplit_steps] below
    shows that they compose to [urlsplit]. *)

Definition preprocess (url : str) : str :=
  fold_left (fun u b => delete b u) _UNSAFE_URL_BYTES_TO_REMOVE
            (lstrip c0_control_or_space url).

Definition split_scheme (url : str) : str * str :=
  let i := find (chr ":") url in
  if (i >? 0) &&
     match url with c :: _ => (c <? 128) && is_alpha c | [] => false end &&
     forallb scheme_char (slice_to url i)
  then (lower (slice_to url i), slice_from url (i + 1))
  else ([], url).

Definition bracket_checks (netloc : str) : result unit :=
  raise_if ((has (chr "[") netloc && negb (has (chr "]") netloc)) ||
            (has (chr "]") netloc && negb (has (chr "[") netloc)))
           ValueError ;;;
  (if has (chr "[") netloc && has (chr "]") netloc
   then _check_bracketed_netloc netloc else Ok tt).

Definition split_netloc (url : str) : result (str * str) :=
  if eqb_str (slice_to url 2) (py "//") then
    let '(netloc, url) := _splitnetloc url 2 in
    bracket_checks netloc ;;; Ok (netloc, url)
  else Ok ([], url).

Definition split_fragment (url : str) : str * str :=
  if has (chr "#") url then split1 (chr "#") url else (url, []).

Definition split_query (url : str) : str * str :=
  if has (chr "?") url then split1 (chr "?") url else (url, []).

(** ** Schemes, hosts and clean text *)

Definition ascii_lower (c : Z) : Z := if is_upper c then c + 32 else c.

Definition not_upper (c : Z) : bool := negb (is_upper c).

(** A scheme as [urlsplit] returns it: empty, or lower-case scheme
    characters, the first one a letter. *)
Definition scheme_wf (s : str) : Prop :=
  s = [] \/
  (forallb scheme_char s = true /\ forallb not_upper s = true /\
   exists c r, s = c :: r /\ is_alpha c = true).

Definition is_delim (c : Z) : bool :=
  (c =? chr "/") || (c =? chr "?") || (c =? chr "#").

(** No character of [s] satisfies [p]. *)
Definition free_of (p : Z -> bool) (s : str) : bool :=
  forallb (fun c => negb (p c)) s.

(** The text after a host: nothing, or text that opens with a delimiter. *)
Definition after_netloc (rest : str) : Prop :=
  rest = [] \/ exists d r, rest = d :: r /\ is_delim d = true.

Definition unsafe (c : Z) : bool := (c =? 9) || (c =? 13) || (c =? 10).

Record split_wf (sr : SplitResult) : Prop := {
  wf_scheme : scheme_wf (s_scheme sr);
  wf_netloc : free_of is_delim (s_netloc sr) = true;
  wf_brackets : s_netloc sr <> [] -> bracket_checks (s_netloc sr) = Ok tt;
  wf_checknetloc : _checknetloc (s_netloc sr) = Ok tt;
  wf_path_query : has (chr "?") (s_path sr) = false;
  wf_path_fragment : has (chr "#") (s_path sr) = false;
  wf_path_abs :
    s_netloc sr <> [] ->
    s_path sr = [] \/ exists r, s_path sr = chr "/" :: r;
  wf_query : has (chr "#") (s_query sr) = false;
  wf_clean :
    free_of unsafe (s_netloc sr ++ s_path sr ++ s_query sr ++ s_fragment sr)
    = true
}.

(** ** URLs as [urlunsplit] writes them *)

Definition scheme_part (scheme : str) : str :=
  if truthy scheme then scheme ++ py ":" else [].

Definition query_part (query : str) : str :=
  if truthy query then py "?" ++ query else [].

Definition fragment_part (fragment : str) : str :=
  if truthy fragment then py "#" ++ fragment else [].

(** [url[:2] == '//'] *)
Definition dslash (url : str) : bool := eqb_str (slice_to url 2) (py "//").

(** Whether [urlunsplit] writes the two slashes of an authority. *)
Definition authority (scheme netloc url : str) : bool :=
  truthy netloc || (truthy scheme && mem scheme uses_netloc && negb (dslash url)).

(** [if url and url[:1] != '/': url = '/' + url] *)
Definition lead_slash (url : str) : str :=
  if truthy url && negb (eqb_str (slice_to url 1) (py "/"))
  then py "/" ++ url else url.

Definition written (scheme : str) (auth : bool) (netloc path query fragment : str)
  : str :=
  scheme_part scheme ++ (if auth then py "//" ++ netloc else []) ++
  path ++ query_part query ++ fragment_part fragment.

(** A path opens with a slash, or is empty. *)
Definition rooted (p : str) : Prop := p = [] \/ exists r, p = chr "/" :: r.

(** A text opens with no scheme: no prefix of it is scheme characters, the
    first a letter, followed by a colon. *)
Definition no_scheme_prefix (b : str) : Prop :=
  forall pre rest, b = pre ++ chr ":" :: rest ->
    forallb scheme_char pre = true ->
    (exists c r, pre = c :: r /\ is_alpha c = true) -> False.

(** A text that [urlsplit] reads as it is, and without a scheme. *)
Definition plain (b : str) : Prop :=
  match b with c :: _ => c0_control_or_space c = false | [] => True end /\
  no_scheme_prefix b.

(** What follows the path in a written URL. *)
Definition opens_tail (x : str) : Prop :=
  x = [] \/ exists d r, x = d :: r /\ (d = chr "?" \/ d = chr "#").

(** The path [x] can be written after the scheme [s] and the host [n], with
    the slashes of an authority or without, and read back. *)
Definition path_ok (s : str) (auth : bool) (n x : str) : Prop :=
  has (chr "?") x = false /\ has (chr "#") x = false /\
  free_of unsafe x = true /\
  (if auth then rooted x
   else n = [] /\ dslash x = false /\ (s = [] -> plain x)) /\
  (n = [] -> dslash x = false).

(** ** Path parameters *)

Definition semicolon : Z := chr ";".
Definition slash : Z := chr "/".

(** The part of a path after its last slash holds no semicolon. *)
Definition tail_free (a : str) : Prop :=
  (has semicolon a = false /\ has slash a = false) \/
  exists u t, a = u ++ slash :: t /\ has semicolon t = false /\ has slash t = false.

(** The parameter step of [urlparse], and of [urlunparse]. *)
Definition split_params (scheme path0 : str) : str * str :=
  if mem scheme uses_params && has semicolon path0
  then _splitparams path0 else (path0, []).

Definition join_params (path params : str) : str :=
  if truthy params then path ++ py ";" ++ params else path.

(** A path as [urlunparse] writes it back after [urlparse]. *)
Definition rejoin (scheme path0 : str) : str :=
  let '(path, params) := split_params scheme path0 in join_params path params.

(** ** Percent-encoding and query strings *)

Definition is_byte (b : Z) : Prop := 0 <= b < 256.

Definition percent : Z := chr "%".

(** What [unquote_to_bytes] does with one piece that followed a ['%']. *)
Definition unquote_item (item : str) : bytes :=
  match item with
  | h1 :: h2 :: rest =>
      if is_hexdig h1 && is_hexdig h2
      then (16 * hexval h1 + hexval h2) :: rest
      else percent :: item
  | _ => percent :: item
  end.

(** The characters [quote_plus] writes. *)
Definition qchar (c : Z) : bool :=
  always_safe c || (c =? percent) || (c =? chr "+").

(** The two sets [quote_plus] passes for [safe]. *)
Definition plus_safe (safe : list Z) : Prop := safe = [] \/ safe = py " ".

Definition amp : Z := chr "&".
Definition equals : Z := chr "=".

(** The parameters of a [dict], one pair for every value. *)
Definition pairs_of (d : dict) : list (str * str) :=
  flat_map (fun '(k, vs) => map (pair k) vs) d.

(** [piece] is what [urlencode] writes for the parameter [kv]. *)
Definition encoded (kv : str * str) (piece : str) : Prop :=
  exists qk qv, quote_plus (fst kv) = Ok qk /\ quote_plus (snd kv) = Ok qv /\
                piece = qk ++ equals :: qv.

(** The characters of a query string that [urlencode] wrote. *)
Definition query_char (c : Z) : bool :=
  qchar c || (c =? equals) || (c =? amp).

(** A [dict] as [parse_qs] builds it: no key twice, no empty list. *)
Definition dict_wf (d : dict) : Prop :=
  NoDup (map fst d) /\ Forall (fun kv => snd kv <> []) d.

Definition add_pair (d : dict) (nv : str * str) : dict :=
  let '(name, value) := nv in dict_append d name value.

(** ** The resolver, batch by batch *)

(** What one batch of [verify_urls] adds to [results]: the results of the
    entries that are not blank, the two sides zipped. *)
Definition batch_pairs (session : Session) (short_urls long_urls : list str)
    (i : nat) : list (str * str) :=
  let nonblank := filter (fun url => truthy (strip url)) in
  combine
    (map canonicalize
       (map (fun u => returned (resolve session u))
            (nonblank (slice short_urls i batch_size))))
    (map (fun u => returned (resolve session u))
         (nonblank (slice long_urls i batch_size))).

(** ** Blank entries, and text that can be encoded *)

(** The entries of a batch that the comprehension keeps. *)
Definition nonblank (l : list str) : list str :=
  filter (fun url => truthy (strip url)) l.

(** A Unicode scalar value: a code point that is no surrogate.  These are
    the characters that UTF-8 encodes. *)
Definition scalar (c : Z) : bool :=
  (0 <=? c) && (c <? 1114112) && negb ((55296 <=? c) && (c <=? 57343)).

Definition scalars (s : str) : bool := forallb scalar s.

(** A dictionary whose names and values are such text. *)
Definition dict_scalars (d : dict) : Prop :=
  Forall (fun kv => scalars (fst kv) = true /\
                    Forall (fun v => scalars v = true) (snd kv)) d.

(** A character of the ASCII range. *)
Definition ascii_char (c : Z) : bool := (0 <=? c) && (c <? 128).

Definition ascii_code (c : Z) : Prop := 0 <= c < 128.

(** ** Archival mirrors *)

(** The literal that [main] looks for in the second URL of a pair. *)
Definition archive : str := py "web.archive.org".

End ProofDefinitions.

(** ** Closed examples *)

(** A runtime for closed examples.  They are ASCII text with no bracketed
    host, on which none of the three routines is consulted. *)
Definition ascii_runtime : Runtime :=
  {| unicode_lower := fun s => s;
     nfkc := fun s => s;
     ip_address_is_v6 := fun _ => false |}.

(** A reference URL on the archive, and one whose host is broken by a line
    feed that [urlsplit] deletes. *)
Definition archived_url : str :=
  py "https://web.archive.org/web/2020/https://example.com/old".

Definition broken_archive_url : str :=
  py "https://web.archive" ++ [10] ++ py ".org/web/2020/https://example.com/old".

(** Upper-casing for closed examples, which are ASCII text. *)
Definition ascii_uppercase : Uppercase :=
  {| unicode_upper := fun s => s |}.

(** A column of four cells, and a worksheet all of whose columns hold it. *)
Definition example_column : list str :=
  [py "id"; py "1"; py "2"; py "3"].

Definition example_worksheet : Worksheet unit str :=
  fun _ => Returns example_column.

(** Two sheets that share the identifiers 1 and 2, in different orders. *)
Definition example_sheet1 : DataFrame :=
  [mkRow 2 (py "http://short.example/b"); mkRow 1 (py "http://short.example/a");
   mkRow 5 (py "http://short.example/e")].

Definition example_sheet2 : DataFrame :=
  [mkRow 1 (py "http://long.example/a"); mkRow 3 (py "http://long.example/c");
   mkRow 2 (py "http://short.example/b/")].

(** A network on which every request fails. *)
Definition offline : Session := fun _ => ClientError.

(** What the run on the two example sheets reports when every request
    fails: identifier 1 has two hosts, identifier 2 matches. *)
Definition example_mismatch : Mismatch :=
  mkMismatch 1 (py "http://short.example/a") (py "http://long.example/a")
             (py "Different domains").

(** * Properties *)

(** ** Lemmas on strings *)

Lemma eqb_str_eq (a b : str) : eqb_str a b = true <-> a = b.
Proof.
  revert b. induction a as [|x a IH]; intros [|y b]; cbn; try easy.
  rewrite andb_true_iff, Z.eqb_eq, IH. split; [intros [-> ->]; reflexivity|].
  intros [= -> ->]. easy.
Qed.

Lemma eqb_str_refl (a : str) : eqb_str a a = true.
Proof. now apply eqb_str_eq. Qed.

Lemma eqb_str_neq (a b : str) : eqb_str a b = false <-> a <> b.
Proof.
  rewrite <- eqb_str_eq. destruct (eqb_str a b); split; congruence.
Qed.

Lemma has_In (c : Z) (s : str) : has c s = true <-> In c s.
Proof.
  unfold has. rewrite existsb_exists. split.
  - intros [x [Hx E]]. apply Z.eqb_eq in E. now subst.
  - intros H. exists c. split; [easy | apply Z.eqb_refl].
Qed.

Lemma has_app (c : Z) (a b : str) : has c (a ++ b) = has c a || has c b.
Proof. unfold has. apply existsb_app. Qed.

Lemma has_cons (c x : Z) (s : str) : has c (x :: s) = (c =? x) || has c s.
Proof. reflexivity. Qed.

Lemma has_false_In (c : Z) (s : str) : has c s = false <-> ~ In c s.
Proof. rewrite <- has_In. destruct (has c s); split; congruence. Qed.

Lemma partition_found (c : Z) (a b : str) :
  has c a = false -> partition c (a ++ c :: b) = (a, true, b).
Proof.
  induction a as [|x a IH]; cbn; intros H.
  - now rewrite Z.eqb_refl.
  - apply orb_false_iff in H. destruct H as [Hx Ha].
    rewrite Z.eqb_sym, Hx, (IH Ha). reflexivity.
Qed.

Lemma partition_absent (c : Z) (s : str) :
  has c s = false -> partition c s = (s, false, []).
Proof.
  induction s as [|x s IH]; cbn; intros H; [reflexivity|].
  apply orb_false_iff in H. destruct H as [Hx Hs].
  rewrite Z.eqb_sym, Hx, (IH Hs). reflexivity.
Qed.

(** A string that holds [c] splits around its first [c]. *)
Lemma has_split (c : Z) (s : str) :
  has c s = true -> exists a b, s = a ++ c :: b /\ has c a = false.
Proof.
  induction s as [|x s IH]; cbn; [discriminate|].
  destruct (c =? x) eqn:E.
  - apply Z.eqb_eq in E. subst. intros _. now exists [], s.
  - cbn. intros H. destruct (IH H) as [a [b [-> Ha]]].
    exists (x :: a), b. split; [reflexivity|]. cbn. now rewrite E.
Qed.

Lemma find_from_found (c : Z) (a b : str) (i : Z) :
  has c a = false -> find_from c (a ++ c :: b) i = i + len a.
Proof.
  revert i. induction a as [|x a IH]; intros i H; cbn.
  - rewrite Z.eqb_refl. unfold len. cbn. lia.
  - cbn in H. apply orb_false_iff in H. destruct H as [Hx Ha].
    rewrite Z.eqb_sym, Hx, (IH _ Ha). unfold len. cbn [List.length]. lia.
Qed.

Lemma find_from_absent (c : Z) (s : str) (i : Z) :
  has c s = false -> find_from c s i = -1.
Proof.
  revert i. induction s as [|x s IH]; intros i H; cbn; [reflexivity|].
  cbn in H. apply orb_false_iff in H. destruct H as [Hx Hs].
  rewrite Z.eqb_sym, Hx. now apply IH.
Qed.

Lemma len_nonneg (s : str) : 0 <= len s.
Proof. unfold len. lia. Qed.

Lemma len_app (a b : str) : len (a ++ b) = len a + len b.
Proof. unfold len. rewrite length_app. lia. Qed.

Lemma len_cons (x : Z) (s : str) : len (x :: s) = 1 + len s.
Proof. unfold len. cbn [List.length]. lia. Qed.

Lemma slice_to_app (a b : str) : slice_to (a ++ b) (len a) = a.
Proof.
  unfold slice_to, len. rewrite Nat2Z.id.
  rewrite firstn_app, Nat.sub_diag, firstn_all. cbn. apply app_nil_r.
Qed.

Lemma slice_from_app (a b : str) : slice_from (a ++ b) (len a) = b.
Proof.
  unfold slice_from, len. rewrite Nat2Z.id.
  rewrite skipn_app, Nat.sub_diag, skipn_all. reflexivity.
Qed.

Lemma slice_from_app1 (a : str) (c : Z) (b : str) :
  slice_from (a ++ c :: b) (len a + 1) = b.
Proof.
  replace (a ++ c :: b) with ((a ++ [c]) ++ b) by now rewrite <- app_assoc.
  replace (len a + 1) with (len (a ++ [c])); [apply slice_from_app|].
  rewrite len_app. reflexivity.
Qed.

Lemma slice_from_0 (s : str) : slice_from s 0 = s.
Proof. reflexivity. Qed.

(** [rstrip] and [lstrip] *)

Lemma rstrip_nil_iff (p : Z -> bool) (s : str) :
  rstrip p s = [] <-> forallb p s = true.
Proof.
  induction s as [|c s IH]; cbn; [easy|].
  destruct (rstrip p s) eqn:E.
  - destruct (p c); cbn; [tauto | easy].
  - split; [discriminate|]. rewrite andb_true_iff. intros [_ H].
    apply IH in H. discriminate.
Qed.

Lemma rstrip_app_keep (p : Z -> bool) (a b : str) :
  rstrip p b <> [] -> rstrip p (a ++ b) = a ++ rstrip p b.
Proof.
  intros H. induction a as [|c a IH]; [reflexivity|].
  cbn. rewrite IH. destruct (a ++ rstrip p b) eqn:E; [|reflexivity].
  apply app_eq_nil in E. tauto.
Qed.

Lemma rstrip_app_drop (p : Z -> bool) (a b : str) :
  forallb p b = true -> rstrip p (a ++ b) = rstrip p a.
Proof.
  intros H. induction a as [|c a IH]; cbn.
  - now apply rstrip_nil_iff.
  - now rewrite IH.
Qed.

Lemma rstrip_last (p : Z -> bool) (a : str) (c : Z) :
  p c = false -> rstrip p (a ++ [c]) = a ++ [c].
Proof.
  intros H. rewrite rstrip_app_keep; cbn; rewrite H; easy.
Qed.

Lemma rstrip_fix (p : Z -> bool) (s : str) :
  rstrip p s = s <-> s = [] \/ exists a c, s = a ++ [c] /\ p c = false.
Proof.
  split.
  - induction s as [|c s IH]; [now left|]. right. cbn in H.
    destruct (rstrip p s) eqn:E.
    + destruct (p c) eqn:Ec; [discriminate|]. injection H as <-.
      now exists [], c.
    + injection H as H. destruct (IH H) as [-> | [a [d [-> Hd]]]].
      * discriminate.
      * now exists (c :: a), d.
  - intros [-> | [a [c [-> Hc]]]]; [reflexivity | now apply rstrip_last].
Qed.

Lemma rstrip_idem (p : Z -> bool) (s : str) : rstrip p (rstrip p s) = rstrip p s.
Proof.
  induction s as [|c s IH]; [reflexivity|]. cbn.
  destruct (rstrip p s) as [|d r] eqn:E.
  - destruct (p c) eqn:Ec; cbn; [reflexivity | now rewrite Ec].
  - change (rstrip p (c :: d :: r)) with
      (match rstrip p (d :: r) with [] => if p c then [] else [c] | r' => c :: r' end).
    now rewrite IH.
Qed.

(** The text [rstrip] returns is a prefix, and what it drops satisfies [p]. *)
Lemma rstrip_prefix (p : Z -> bool) (s : str) :
  exists t, s = rstrip p s ++ t /\ forallb p t = true.
Proof.
  induction s as [|c s [t [Ht Hp]]]; [now exists []|]. cbn.
  destruct (rstrip p s) eqn:E.
  - destruct (p c) eqn:Ec.
    + exists (c :: s). split; [reflexivity|]. cbn. rewrite Ec.
      now apply rstrip_nil_iff.
    + exists s. split; [reflexivity|]. now apply rstrip_nil_iff.
  - exists t. split; [|easy]. cbn. f_equal. exact Ht.
Qed.

Lemma lstrip_id (p : Z -> bool) (c : Z) (s : str) :
  p c = false -> lstrip p (c :: s) = c :: s.
Proof. intros H. cbn. now rewrite H. Qed.

Lemma lstrip_suffix (p : Z -> bool) (s : str) :
  exists t, s = t ++ lstrip p s.
Proof.
  induction s as [|c s [t Ht]]; [now exists []|]. cbn.
  destruct (p c); [|now exists []].
  exists (c :: t). cbn. now rewrite <- Ht.
Qed.

Lemma delete_id (c : Z) (s : str) : has c s = false -> delete c s = s.
Proof.
  unfold delete. induction s as [|x s IH]; cbn; [reflexivity|].
  intros H. apply orb_false_iff in H. destruct H as [Hx Hs].
  rewrite Z.eqb_sym, Hx. cbn. now rewrite IH.
Qed.

Lemma has_delete (c d : Z) (s : str) :
  has c (delete d s) = has c s && negb (c =? d).
Proof.
  unfold delete, has. induction s as [|x s IH]; cbn; [reflexivity|].
  destruct (x =? d) eqn:E; cbn; rewrite IH.
  - apply Z.eqb_eq in E. subst.
    destruct (c =? d) eqn:E'; cbn; [now rewrite !andb_false_r|reflexivity].
  - destruct (c =? x) eqn:E'; cbn; [|reflexivity].
    apply Z.eqb_eq in E'. subst. now rewrite E.
Qed.

Lemma has_delete_same (c : Z) (s : str) : has c (delete c s) = false.
Proof. rewrite has_delete, Z.eqb_refl. apply andb_false_r. Qed.

(** [startswith], [endswith], [contains] *)

Lemma startswith_spec (pre s : str) :
  startswith pre s = true <-> exists t, s = pre ++ t.
Proof.
  revert s. induction pre as [|x pre IH]; intros s; cbn.
  - split; [now exists s | easy].
  - destruct s as [|y s].
    + split; [discriminate | intros [t H]; discriminate].
    + rewrite andb_true_iff, Z.eqb_eq, IH. split.
      * intros [-> [t ->]]. now exists t.
      * intros [t [= -> ->]]. split; [easy | now exists t].
Qed.

Lemma endswith_spec (suf s : str) :
  endswith suf s = true <-> exists t, s = t ++ suf.
Proof.
  unfold endswith. rewrite startswith_spec. split.
  - intros [t H]. exists (rev t).
    rewrite <- (rev_involutive s), H, rev_app_distr, rev_involutive. reflexivity.
  - intros [t ->]. exists (rev t). apply rev_app_distr.
Qed.

Lemma contains_spec (needle s : str) :
  contains needle s = true <-> exists a b, s = a ++ needle ++ b.
Proof.
  induction s as [|x s IH].
  - cbn. rewrite orb_false_r, startswith_spec. split.
    + intros [t H]. now exists [], t.
    + intros [a [b H]]. symmetry in H. apply app_eq_nil in H as [-> H].
      apply app_eq_nil in H as [-> ->]. now exists [].
  - cbn [contains]. rewrite orb_true_iff, startswith_spec, IH. split.
    + intros [[t H] | [a [b H]]].
      * now exists [], t.
      * exists (x :: a), b. cbn. now rewrite H.
    + intros [[|y a] [b H]].
      * left. now exists b.
      * right. injection H as -> ->. now exists a, b.
Qed.

Lemma contains_app (needle a s b : str) :
  contains needle s = true -> contains needle (a ++ s ++ b) = true.
Proof.
  rewrite !contains_spec. intros [x [y ->]].
  exists (a ++ x), (y ++ b). now rewrite <- !app_assoc.
Qed.

Lemma Ok_inj {A} (a b : A) : Ok a = Ok b -> a = b.
Proof. now intros [= ->]. Qed.

Ltac ok_inj := let H := fresh in intros H; apply Ok_inj in H; subst.

(** ** The per-URL fetch *)

Section Fetch.
Context {rt : Runtime}.
Variable session : Session.

Lemma fetch_url_str (s : str) :
  fetch_url session (PyStr s) =
  (requests (resolve session s), PyStr (returned (resolve session s))).
Proof.
  unfold fetch_url, resolve. destruct s as [|c s]; [reflexivity|].
  cbn [is_true truthy isinstance_str negb orb].
  unfold fetch_url_try, session_get, io_bind, io_ret, requests, returned.
  destruct (session (c :: s)); reflexivity.
Qed.

(** C10: a value that is [None], empty, or not a string comes back as it
    is, and no request is issued for it. *)
Theorem fetch_url_invalid_input (url : value) :
  url = PyNone \/ url = PyStr [] \/ isinstance_str url = false ->
  fetch_url session url = ([], url).
Proof.
  intros [-> | [-> | H]]; try reflexivity.
  unfold fetch_url. rewrite H. rewrite orb_true_r. reflexivity.
Qed.

(** C7: when the request for a URL times out or raises, the fetch returns
    the URL it was given, and a one-element resolution returns that URL. *)
Theorem fetch_url_fails_open (url : str) :
  truthy url = true ->
  session url = TimeoutError \/ session url = ClientError ->
  fetch_url session (PyStr url) = ([url], PyStr url) /\
  returned (gather (map (resolve session) [url])) = [url].
Proof.
  intros Hne Hfail. rewrite fetch_url_str. cbn [map gather].
  unfold resolve. rewrite Hne. cbn [negb].
  unfold fetch_url_try, session_get, io_bind, io_ret, requests, returned.
  destruct Hfail as [-> | ->]; split; reflexivity.
Qed.

End Fetch.

Lemma fetch_url_invalid_input_witness :
  fetch_url (fun _ => Response 200 (py "https://example.com")) (PyInt 7)
  = ([], PyInt 7).
Proof.
  apply (fetch_url_invalid_input (fun _ => Response 200 (py "https://example.com"))).
  right; right; reflexivity.
Defined.

Lemma fetch_url_fails_open_witness :
  fetch_url (fun _ => TimeoutError) (PyStr (py "http://bit.ly/abc"))
    = ([py "http://bit.ly/abc"], PyStr (py "http://bit.ly/abc")) /\
  returned (gather (map (resolve (fun _ => TimeoutError)) [py "http://bit.ly/abc"]))
    = [py "http://bit.ly/abc"].
Proof.
  apply (fetch_url_fails_open (fun _ => TimeoutError) (py "http://bit.ly/abc")).
  - reflexivity.
  - left; reflexivity.
Defined.

(** ** The resolver: length and order *)

Lemma filter_all {A} (p : A -> bool) (l : list A) :
  forallb p l = true -> filter p l = l.
Proof.
  induction l as [|a l IH]; [reflexivity|]. cbn.
  intros H. apply andb_true_iff in H as [-> H]. now rewrite IH.
Qed.

Lemma forallb_slice {A} (p : A -> bool) (l : list A) (i n : nat) :
  forallb p l = true -> forallb p (slice l i n) = true.
Proof.
  unfold slice. intros H.
  rewrite <- (firstn_skipn i l), forallb_app in H.
  apply andb_true_iff in H as [_ H].
  rewrite <- (firstn_skipn n (skipn i l)), forallb_app in H.
  now apply andb_true_iff in H as [H _].
Qed.

Lemma combine_chunk {A B} (n : nat) (x : list A) (y : list B) :
  List.length x = List.length y ->
  combine (firstn n x) (firstn n y) ++ combine (skipn n x) (skipn n y)
  = combine x y.
Proof.
  revert x y. induction n as [|n IH]; intros x y H; [reflexivity|].
  destruct x as [|a x], y as [|b y]; try discriminate; [reflexivity|].
  cbn. f_equal. apply IH. now injection H.
Qed.

(** The batches of two lists of one length, zipped one after the other, are
    the two lists zipped. *)
Lemma combine_batches {A B} (step : nat) (a : list A) (b : list B) (m j : nat) :
  List.length a = List.length b ->
  (List.length a <= (j + m) * step)%nat ->
  flat_map (fun i => combine (slice a i step) (slice b i step))
           (map (fun k => (k * step)%nat) (seq j m))
  = combine (skipn (j * step) a) (skipn (j * step) b).
Proof.
  intros Hlen. revert j. induction m as [|m IH]; intros j Hm.
  - rewrite Nat.add_0_r in Hm. cbn [seq map flat_map].
    now rewrite skipn_all2.
  - cbn [seq map flat_map]. rewrite IH by lia.
    replace (S j * step)%nat with (step + j * step)%nat by lia.
    rewrite <- !skipn_skipn. unfold slice. apply combine_chunk.
    now rewrite !length_skipn, Hlen.
Qed.

Lemma range_step_covers (n : nat) :
  (n <= (0 + (n + batch_size - 1) / batch_size) * batch_size)%nat.
Proof.
  unfold batch_size.
  pose proof (Nat.div_mod_eq (n + 50 - 1) 50).
  pose proof (Nat.mod_upper_bound (n + 50 - 1) 50). lia.
Qed.

Section ResolverAlignment.
Context {rt : Runtime}.
Variable session : Session.

Lemma returned_io_bind {A B} (m : IO A) (k : A -> IO B) :
  returned (io_bind m k) = returned (k (returned m)).
Proof.
  unfold io_bind, returned. destruct m as [t a]. cbn.
  destruct (k a); reflexivity.
Qed.

Lemma returned_gather {A B} (f : A -> IO B) (l : list A) :
  returned (gather (map f l)) = map (fun x => returned (f x)) l.
Proof.
  induction l as [|a l IH]; [reflexivity|].
  cbn [map gather]. rewrite !returned_io_bind. cbn. now rewrite <- IH.
Qed.

Lemma returned_verify_batch short_urls long_urls results i :
  returned (verify_batch session short_urls long_urls results i)
  = results ++ batch_pairs session short_urls long_urls i.
Proof.
  unfold verify_batch, batch_pairs.
  rewrite !returned_io_bind, !returned_gather. reflexivity.
Qed.

Lemma returned_io_fold_batches short_urls long_urls starts results :
  returned (io_fold (verify_batch session short_urls long_urls) starts results)
  = results ++ flat_map (batch_pairs session short_urls long_urls) starts.
Proof.
  revert results. induction starts as [|i starts IH]; intros results.
  - cbn. now rewrite app_nil_r.
  - cbn [io_fold flat_map]. rewrite returned_io_bind, IH, returned_verify_batch.
    now rewrite app_assoc.
Qed.

(** The pairs [verify_urls] returns: batch after batch, the results of the
    entries that are not blank, the two sides zipped. *)
Lemma returned_verify_urls short_urls long_urls :
  returned (verify_urls session short_urls long_urls)
  = flat_map (batch_pairs session short_urls long_urls)
             (range_step (List.length short_urls) batch_size).
Proof. unfold verify_urls. now rewrite returned_io_fold_batches. Qed.

(** Without a blank entry nothing is filtered out, and the batches add up
    to the two lists zipped. *)
Lemma verify_urls_zipped (short_urls long_urls : list str) :
  List.length short_urls = List.length long_urls ->
  forallb (fun url => truthy (strip url)) short_urls = true ->
  forallb (fun url => truthy (strip url)) long_urls = true ->
  returned (verify_urls session short_urls long_urls)
  = combine
      (map (fun u => canonicalize (returned (resolve session u))) short_urls)
      (map (fun u => returned (resolve session u)) long_urls).
Proof.
  intros Hlen Hs Hl. rewrite returned_verify_urls.
  set (f := fun u => canonicalize (returned (resolve session u))).
  set (g := fun u => returned (resolve session u)).
  rewrite (flat_map_ext _
    (fun i => combine (slice (map f short_urls) i batch_size)
                      (slice (map g long_urls) i batch_size))).
  - unfold range_step.
    rewrite combine_batches.
    + reflexivity.
    + now rewrite !length_map.
    + rewrite length_map. apply range_step_covers.
  - intros i. unfold batch_pairs.
    rewrite !filter_all by now apply forallb_slice.
    unfold slice. rewrite map_map. fold f g.
    now rewrite <- !firstn_map, <- !skipn_map.
Qed.

(** C1: of two short URLs, the first one blank, the resolver returns one
    pair, and that pair joins the second short URL with the first long
    URL. *)
Theorem verify_urls_drops_blank :
  returned (verify_urls session
              [py " "; py "http://s.example/a"]
              [py "http://l.example/1"; py "http://l.example/2"])
  = [(canonicalize (returned (resolve session (py "http://s.example/a"))),
      returned (resolve session (py "http://l.example/1")))].
Proof. rewrite returned_verify_urls. reflexivity. Qed.

End ResolverAlignment.

(** * The canonicalizer *)

(** ** The canonicalizer: errors *)

Section CanonicalizerErrors.
Context {rt : Runtime}.

Lemma strip_tracking_params_str (s : str) :
  strip_tracking_params (PyStr s) = Ok (PyStr (canonicalize s)).
Proof.
  unfold strip_tracking_params, canonicalize.
  destruct s as [|c s]; [reflexivity|].
  cbn [is_true truthy isinstance_str negb orb].
  destruct (strip_tracking_params_try (c :: s)); reflexivity.
Qed.

(** C8: the canonicalizer returns on every value, and on a string whose
    parsing or rebuilding raises it returns that string. *)
Theorem strip_tracking_params_never_raises (url : value) :
  exists r, strip_tracking_params url = Ok r /\
    forall s e, url = PyStr s -> strip_tracking_params_try s = Raise e ->
                r = url.
Proof.
  destruct url as [| b | n | s].
  1-3: eexists; split;
    [unfold strip_tracking_params; cbn [isinstance_str negb];
     rewrite orb_true_r; reflexivity | intros; discriminate].
  exists (PyStr (canonicalize s)). split; [apply strip_tracking_params_str|].
  intros s' e [= <-] Hraise. unfold canonicalize.
  destruct s; [reflexivity|]. cbn [truthy negb]. now rewrite Hraise.
Qed.

(** The handler is reached: a host with an unmatched bracket does not
    parse, whatever the runtime. *)
Lemma strip_tracking_params_try_raises :
  strip_tracking_params_try (py "http://[example.com/a") = Raise ValueError.
Proof. reflexivity. Qed.

(** So is it by a lone surrogate in a retained parameter, which
    [urlencode] cannot encode. *)
Lemma strip_tracking_params_try_surrogate :
  strip_tracking_params_try (py "http://a/?x=" ++ [55296])
  = Raise UnicodeEncodeError.
Proof. reflexivity. Qed.

Lemma canonicalize_whitespace : canonicalize (py " ") = [].
Proof. reflexivity. Qed.

End CanonicalizerErrors.

(** ** The canonicalizer: tracking parameters *)

Section TrackingParameters.
Context {rt : Runtime}.

(** The comprehension keeps a parameter exactly when its lower-cased name
    is no member of [tracking_params]. *)
Lemma filter_query_spec (d : dict) (k : str) (v : list str) :
  In (k, v) (filter_query d) <->
  In (k, v) d /\ mem (lower k) tracking_params = false.
Proof.
  unfold filter_query. rewrite filter_In.
  destruct (mem (lower k) tracking_params); cbn; intuition congruence.
Qed.

(** The member [hsCtaTracking] is not lower case, so no lower-cased name
    equals it. *)
Lemma hsCtaTracking_is_member : mem (py "hsCtaTracking") tracking_params = true.
Proof. reflexivity. Qed.

Lemma hsCtaTracking_never_matched :
  mem (lower (py "hsCtaTracking")) tracking_params = false.
Proof. reflexivity. Qed.

(** C2: on [https://example.com/page?hsCtaTracking=1&UTM_Source=x] the
    canonicalizer removes [UTM_Source] and keeps [hsCtaTracking], a member
    of the tracking set. *)
Theorem hsCtaTracking_is_kept :
  strip_tracking_params
    (PyStr (py "https://example.com/page?hsCtaTracking=1&UTM_Source=x"))
  = Ok (PyStr (py "https://example.com/page?hsCtaTracking=1")).
Proof. reflexivity. Qed.

End TrackingParameters.

(** ** The steps of [urlsplit] *)

Section Steps.
Context {rt : Runtime}.

Lemma urlsplit_steps (url : str) :
  urlsplit url =
  let '(scheme, url1) := split_scheme (preprocess url) in
  r <- split_netloc url1 ;;
  let '(netloc, url2) := r in
  let '(url3, fragment) := split_fragment url2 in
  let '(path, query) := split_query url3 in
  _checknetloc netloc ;;;
  Ok (mkSplit scheme netloc path query fragment).
Proof.
  unfold urlsplit, split_scheme, split_netloc, bracket_checks, split_fragment,
    split_query, preprocess.
  destruct (_ && _ && _); cbv zeta;
    (destruct (eqb_str _ _); [destruct (_splitnetloc _ _) as [n u]|]);
    try reflexivity;
    unfold raise_if, bind; destruct (_ || _); try reflexivity;
    destruct (has _ n && has _ n); try reflexivity;
    destruct (_check_bracketed_netloc n) as [[]|]; reflexivity.
Qed.

End Steps.

(** ** Schemes *)

Section Scheme.
Context {rt : Runtime}.

Lemma lower_ascii (s : str) : isascii s = true -> lower s = map ascii_lower s.
Proof. unfold lower. now intros ->. Qed.

Lemma scheme_char_ascii (c : Z) : scheme_char c = true -> (c <? 128) = true.
Proof.
  unfold scheme_char, is_lower, is_upper, is_digit, chr. cbn. lia.
Qed.

Lemma scheme_chars_ascii (s : str) :
  forallb scheme_char s = true -> isascii s = true.
Proof.
  unfold isascii. rewrite !forallb_forall. intros H c Hc.
  now apply scheme_char_ascii, H.
Qed.

Lemma scheme_char_not_colon (s : str) :
  forallb scheme_char s = true -> has (chr ":") s = false.
Proof.
  intros H. apply has_false_In. intros Hin.
  rewrite forallb_forall in H. now specialize (H _ Hin).
Qed.

Lemma ascii_lower_scheme_char (c : Z) :
  scheme_char c = true -> scheme_char (ascii_lower c) = true.
Proof.
  unfold scheme_char, ascii_lower, is_lower, is_upper, is_digit, chr. cbn.
  destruct ((65 <=? c) && (c <=? 90)) eqn:E; lia.
Qed.

Lemma ascii_lower_not_upper (c : Z) : not_upper (ascii_lower c) = true.
Proof.
  unfold not_upper, ascii_lower, is_upper.
  destruct ((65 <=? c) && (c <=? 90)) eqn:E; lia.
Qed.

Lemma ascii_lower_alpha (c : Z) :
  is_alpha c = true -> is_alpha (ascii_lower c) = true.
Proof.
  unfold is_alpha, ascii_lower, is_lower, is_upper.
  destruct ((65 <=? c) && (c <=? 90)) eqn:E; lia.
Qed.

Lemma ascii_lower_id (c : Z) : not_upper c = true -> ascii_lower c = c.
Proof.
  unfold not_upper, ascii_lower. now destruct (is_upper c).
Qed.

(** The scheme [urlsplit] takes off a URL is well formed. *)
Lemma lower_scheme_wf (pre : str) :
  forallb scheme_char pre = true ->
  (exists c r, pre = c :: r /\ is_alpha c = true) ->
  scheme_wf (lower pre).
Proof.
  intros Hchars [c [r [-> Hc]]]. right.
  rewrite lower_ascii by now apply scheme_chars_ascii.
  repeat split.
  - rewrite forallb_forall in *. intros x Hx.
    apply in_map_iff in Hx as [y [<- Hy]]. now apply ascii_lower_scheme_char, Hchars.
  - rewrite forallb_forall. intros x Hx.
    apply in_map_iff in Hx as [y [<- Hy]]. apply ascii_lower_not_upper.
  - exists (ascii_lower c), (map ascii_lower r). split; [reflexivity|].
    now apply ascii_lower_alpha.
Qed.

Lemma lower_scheme_id (s : str) :
  forallb scheme_char s = true -> forallb not_upper s = true -> lower s = s.
Proof.
  intros Hc Hu. rewrite lower_ascii by now apply scheme_chars_ascii.
  rewrite forallb_forall in Hu. rewrite <- (map_id s) at 2.
  apply map_ext_in. intros c Hin. now apply ascii_lower_id, Hu.
Qed.

(** What [split_scheme] returns: no scheme and the text itself, or the
    lower-cased text before the first colon and the text after it. *)
Lemma split_scheme_cases (url : str) :
  split_scheme url = ([], url) \/
  exists pre rest,
    url = pre ++ chr ":" :: rest /\
    forallb scheme_char pre = true /\
    (exists c r, pre = c :: r /\ is_alpha c = true) /\
    split_scheme url = (lower pre, rest).
Proof.
  unfold split_scheme.
  destruct (_ && _ && _) eqn:E; [right | now left].
  apply andb_true_iff in E as [E Hchars]. apply andb_true_iff in E as [Hi Hc].
  destruct (has (chr ":") url) eqn:Hcolon.
  - apply has_split in Hcolon as [pre [rest [-> Hpre]]].
    unfold find in *. rewrite find_from_found in * by assumption.
    cbn [Z.add] in *. rewrite slice_to_app in *. rewrite slice_from_app1.
    exists pre, rest. repeat split; try assumption.
    destruct pre as [|c r].
    + cbn in Hi. discriminate.
    + exists c, r. split; [reflexivity|].
      cbn in Hc. now apply andb_true_iff in Hc.
  - unfold find in Hi. rewrite find_from_absent in Hi by assumption.
    discriminate.
Qed.

(** [split_scheme] finds a well-formed scheme again in front of a colon. *)
Lemma split_scheme_found (s rest : str) :
  scheme_wf s -> s <> [] ->
  split_scheme (s ++ chr ":" :: rest) = (s, rest).
Proof.
  intros [-> | [Hchars [Hup [c [r [-> Hc]]]]]] Hne; [easy|].
  unfold split_scheme, find.
  rewrite find_from_found by now apply scheme_char_not_colon.
  cbn [Z.add]. rewrite slice_to_app, slice_from_app1.
  rewrite Hchars, lower_scheme_id by assumption.
  replace (len (c :: r) >? 0) with true by (rewrite len_cons; pose proof (len_nonneg r); lia).
  cbn -[len]. rewrite Hc.
  replace (c <? 128) with true; [reflexivity|].
  symmetry. apply scheme_char_ascii. cbn in Hchars.
  now apply andb_true_iff in Hchars.
Qed.

(** A text that opens with a slash has no scheme. *)
Lemma split_scheme_slash (rest : str) :
  split_scheme (chr "/" :: rest) = ([], chr "/" :: rest).
Proof.
  unfold split_scheme. cbn -[find slice_to slice_from forallb].
  now rewrite andb_false_r.
Qed.

End Scheme.

(** ** The host *)

Lemma delim_slash (c : Z) :
  is_delim c = true -> (chr "?" =? c) = false -> (chr "#" =? c) = false ->
  c = chr "/".
Proof.
  unfold is_delim. change (chr "/") with 47. change (chr "?") with 63.
  change (chr "#") with 35. lia.
Qed.

Lemma free_of_has (p : Z -> bool) (c : Z) (s : str) :
  free_of p s = true -> p c = true -> has c s = false.
Proof.
  unfold free_of. rewrite forallb_forall. intros H Hp.
  apply has_false_In. intros Hin. apply H in Hin. now rewrite Hp in Hin.
Qed.

Lemma find_from_bound (c : Z) (n rest : str) (i : Z) :
  has c n = false ->
  find_from c (n ++ rest) i = -1 \/ i + len n <= find_from c (n ++ rest) i.
Proof.
  intros Hn. destruct (has c rest) eqn:Hr.
  - apply has_split in Hr as [a [b [-> Ha]]]. right.
    rewrite app_assoc, find_from_found.
    + rewrite len_app. pose proof (len_nonneg a). lia.
    + now rewrite has_app, Hn, Ha.
  - left. apply find_from_absent. now rewrite has_app, Hn, Hr.
Qed.

Lemma find_from_head (c : Z) (n r : str) (i : Z) :
  has c n = false -> find_from c (n ++ c :: r) i = i + len n.
Proof. apply find_from_found. Qed.

Lemma slice_from_2 (a b : Z) (s : str) : slice_from (a :: b :: s) 2 = s.
Proof. reflexivity. Qed.

Lemma splitnetloc_found (n rest : str) :
  free_of is_delim n = true -> after_netloc rest ->
  _splitnetloc (py "//" ++ n ++ rest) 2 = (n, rest).
Proof.
  intros Hn Hrest. unfold _splitnetloc.
  set (url := py "//" ++ n ++ rest).
  assert (Hlen : len url = 2 + len n + len rest).
  { unfold url. rewrite !len_app. change (len (py "//")) with 2. lia. }
  assert (Hw : forall c, is_delim c = true ->
             find_at c url 2 = -1 \/ 2 + len n <= find_at c url 2).
  { intros c Hc. unfold find_at, url. cbn [py map list_ascii_of_string app].
    rewrite slice_from_2. apply find_from_bound. now apply (free_of_has is_delim). }
  assert (Hd : rest = [] \/ exists c, In c (py "/?#") /\ find_at c url 2 = 2 + len n).
  { destruct Hrest as [-> | [d [r [-> Hd]]]]; [now left | right].
    exists d. split.
    - unfold is_delim in Hd. cbn. rewrite !orb_true_iff, !Z.eqb_eq in Hd.
      cbn in Hd. intuition.
    - unfold find_at, url. cbn [py map list_ascii_of_string app].
      rewrite slice_from_2. apply find_from_head. now apply (free_of_has is_delim). }
  assert (Hdelim :
    fold_left
      (fun delim c =>
         if find_at c url 2 >=? 0 then Z.min delim (find_at c url 2) else delim)
      (py "/?#") (len url) = 2 + len n).
  { pose proof (Hw (chr "/") eq_refl) as H1.
    pose proof (Hw (chr "?") eq_refl) as H2.
    pose proof (Hw (chr "#") eq_refl) as H3.
    pose proof (len_nonneg n). pose proof (len_nonneg rest).
    cbn [py map list_ascii_of_string fold_left].
    change (Z.of_N (N_of_ascii "/")) with (chr "/").
    change (Z.of_N (N_of_ascii "?")) with (chr "?").
    change (Z.of_N (N_of_ascii "#")) with (chr "#").
    cbv zeta.
    assert (Hd' : len rest = 0 \/ find_at (chr "/") url 2 = 2 + len n \/
                  find_at (chr "?") url 2 = 2 + len n \/
                  find_at (chr "#") url 2 = 2 + len n).
    { destruct Hd as [-> | [c [Hc Hf]]]; [now left | right].
      cbn in Hc. destruct Hc as [<- | [<- | [<- | []]]]; tauto. }
    clear Hd Hw.
    destruct (find_at (chr "/") url 2 >=? 0) eqn:E1;
      destruct (find_at (chr "?") url 2 >=? 0) eqn:E2;
      destruct (find_at (chr "#") url 2 >=? 0) eqn:E3; lia. }
  rewrite Hdelim. unfold url. cbn [py map list_ascii_of_string app].
  rewrite slice_from_2.
  replace (2 + len n - 2) with (len n) by lia. rewrite slice_to_app.
  f_equal.
  change (Z.of_N (N_of_ascii "/") :: Z.of_N (N_of_ascii "/") :: n ++ rest)
    with (([chr "/"; chr "/"] ++ n) ++ rest).
  replace (2 + len n) with (len ([chr "/"; chr "/"] ++ n));
    [apply slice_from_app | rewrite len_app; reflexivity].
Qed.

(** Every text splits into a host and what follows it. *)
Lemma netloc_span (t : str) :
  exists n rest, t = n ++ rest /\ free_of is_delim n = true /\ after_netloc rest.
Proof.
  induction t as [|c t [n [rest [-> [Hn Hr]]]]].
  - exists [], []. repeat split. now left.
  - destruct (is_delim c) eqn:E.
    + exists [], (c :: n ++ rest). repeat split. right. now exists c, (n ++ rest).
    + exists (c :: n), rest. repeat split; [|assumption].
      cbn. now rewrite E.
Qed.

Lemma slice_to_2_slashes (url : str) :
  eqb_str (slice_to url 2) (py "//") = true ->
  exists t, url = py "//" ++ t.
Proof.
  intros H. apply eqb_str_eq in H.
  destruct url as [|a [|b t]]; try discriminate.
  cbn in H. injection H as -> ->. now exists t.
Qed.

Section Netloc.
Context {rt : Runtime}.

(** What [split_netloc] returns when it returns. *)
Lemma split_netloc_cases (url netloc rest : str) :
  split_netloc url = Ok (netloc, rest) ->
  (netloc = [] /\ rest = url /\ eqb_str (slice_to url 2) (py "//") = false) \/
  (url = py "//" ++ netloc ++ rest /\ free_of is_delim netloc = true /\
   after_netloc rest /\ bracket_checks netloc = Ok tt).
Proof.
  unfold split_netloc. destruct (eqb_str _ _) eqn:E.
  - apply slice_to_2_slashes in E as [t ->].
    destruct (netloc_span t) as [n [r [-> [Hn Hr]]]].
    rewrite splitnetloc_found by assumption.
    destruct (bracket_checks n) as [[]|] eqn:Hb; cbn; [|discriminate].
    intros [= <- <-]. right. repeat split; assumption.
  - intros [= <- <-]. now left.
Qed.

Lemma split_netloc_found (netloc rest : str) :
  free_of is_delim netloc = true -> after_netloc rest ->
  bracket_checks netloc = Ok tt ->
  split_netloc (py "//" ++ netloc ++ rest) = Ok (netloc, rest).
Proof.
  intros Hn Hr Hb. unfold split_netloc.
  change (eqb_str (slice_to (py "//" ++ netloc ++ rest) 2) (py "//")) with true.
  cbv iota. rewrite splitnetloc_found, Hb by assumption. reflexivity.
Qed.

End Netloc.

(** ** Fragment and query *)

Lemma split_fragment_cases (url : str) :
  exists url3 fragment,
    split_fragment url = (url3, fragment) /\
    has (chr "#") url3 = false /\
    (url = url3 ++ chr "#" :: fragment \/ (url = url3 /\ fragment = [])).
Proof.
  unfold split_fragment, split1. destruct (has (chr "#") url) eqn:E.
  - apply has_split in E as [a [b [-> Ha]]].
    rewrite partition_found by assumption. exists a, b. tauto.
  - exists url, []. tauto.
Qed.

Lemma split_query_cases (url : str) :
  exists path query,
    split_query url = (path, query) /\
    has (chr "?") path = false /\
    (url = path ++ chr "?" :: query \/ (url = path /\ query = [])).
Proof.
  unfold split_query, split1. destruct (has (chr "?") url) eqn:E.
  - apply has_split in E as [a [b [-> Ha]]].
    rewrite partition_found by assumption. exists a, b. tauto.
  - exists url, []. tauto.
Qed.

Lemma split_fragment_found (url3 fragment : str) :
  has (chr "#") url3 = false -> fragment <> [] ->
  split_fragment (url3 ++ chr "#" :: fragment) = (url3, fragment).
Proof.
  intros H _. unfold split_fragment, split1.
  rewrite has_app, H. cbn [has existsb orb]. rewrite Z.eqb_refl. cbn [orb].
  now rewrite partition_found.
Qed.

Lemma split_fragment_none (url : str) :
  has (chr "#") url = false -> split_fragment url = (url, []).
Proof. unfold split_fragment. now intros ->. Qed.

Lemma split_query_found (path query : str) :
  has (chr "?") path = false ->
  split_query (path ++ chr "?" :: query) = (path, query).
Proof.
  intros H. unfold split_query, split1.
  rewrite has_app, H. cbn [has existsb orb]. rewrite Z.eqb_refl. cbn [orb].
  now rewrite partition_found.
Qed.

Lemma split_query_none (url : str) :
  has (chr "?") url = false -> split_query url = (url, []).
Proof. unfold split_query. now intros ->. Qed.

(** ** Cleaning *)

Lemma free_of_app (p : Z -> bool) (a b : str) :
  free_of p (a ++ b) = free_of p a && free_of p b.
Proof. apply forallb_app. Qed.

Lemma free_of_incl (p : Z -> bool) (a b : str) :
  (forall c, In c a -> In c b) -> free_of p b = true -> free_of p a = true.
Proof.
  unfold free_of. rewrite !forallb_forall. intros Hincl H c Hc.
  now apply H, Hincl.
Qed.

Lemma free_of_cons (p : Z -> bool) (c : Z) (s : str) :
  free_of p (c :: s) = negb (p c) && free_of p s.
Proof. reflexivity. Qed.

Lemma free_of_unsafe (s : str) :
  free_of unsafe s = true <->
  has 9 s = false /\ has 13 s = false /\ has 10 s = false.
Proof.
  unfold free_of, unsafe. rewrite forallb_forall. split.
  - intros H. repeat split; apply has_false_In; intros Hin;
      apply H in Hin; discriminate.
  - intros [H9 [H13 H10]] c Hin.
    destruct (c =? 9) eqn:E9; [apply Z.eqb_eq in E9; subst; apply has_false_In in H9; tauto|].
    destruct (c =? 13) eqn:E13; [apply Z.eqb_eq in E13; subst; apply has_false_In in H13; tauto|].
    destruct (c =? 10) eqn:E10; [apply Z.eqb_eq in E10; subst; apply has_false_In in H10; tauto|].
    reflexivity.
Qed.

Lemma preprocess_clean (url : str) : free_of unsafe (preprocess url) = true.
Proof.
  unfold preprocess. cbn [fold_left _UNSAFE_URL_BYTES_TO_REMOVE].
  apply free_of_unsafe.
  repeat split; rewrite !has_delete; cbn [Z.eqb Pos.eqb negb];
    now rewrite ?andb_false_r.
Qed.

Lemma delete_clean (s : str) :
  free_of unsafe s = true ->
  fold_left (fun u b => delete b u) _UNSAFE_URL_BYTES_TO_REMOVE s = s.
Proof.
  intros H. apply free_of_unsafe in H as [H9 [H13 H10]].
  cbn [fold_left _UNSAFE_URL_BYTES_TO_REMOVE].
  now rewrite (delete_id 9 s H9), (delete_id 13 s H13), (delete_id 10 s H10).
Qed.

Lemma preprocess_id (c : Z) (s : str) :
  c0_control_or_space c = false -> free_of unsafe (c :: s) = true ->
  preprocess (c :: s) = c :: s.
Proof.
  intros Hc Hs. unfold preprocess. rewrite lstrip_id by assumption.
  now apply delete_clean.
Qed.

(** Without tabulations and line ends only leading blanks are removed. *)
Lemma preprocess_suffix (url : str) :
  free_of unsafe url = true -> exists t, url = t ++ preprocess url.
Proof.
  intros H. destruct (lstrip_suffix c0_control_or_space url) as [t Ht].
  exists t. unfold preprocess. rewrite delete_clean; [assumption|].
  rewrite Ht, free_of_app in H. now apply andb_true_iff in H.
Qed.

(** ** What [urlsplit] returns, and what it reads back *)

Section SplitJoin.
Context {rt : Runtime}.

Lemma has_app_false (c : Z) (a b : str) :
  has c (a ++ b) = false -> has c a = false /\ has c b = false.
Proof. rewrite has_app. apply orb_false_iff. Qed.

Lemma has_app_cons_false (c d : Z) (a b : str) :
  has c (a ++ d :: b) = false -> has c a = false /\ has c b = false.
Proof.
  intros H. apply has_app_false in H as [Ha Hb]. cbn in Hb.
  apply orb_false_iff in Hb. tauto.
Qed.

(** The host is a piece of the cleaned text. *)
Lemma urlsplit_netloc_infix (url : str) (sr : SplitResult) :
  urlsplit url = Ok sr ->
  exists a b, preprocess url = a ++ s_netloc sr ++ b.
Proof.
  rewrite urlsplit_steps.
  destruct (split_scheme_cases (preprocess url))
    as [Hs | [pre [rest [Hurl [_ [_ Hs]]]]]]; rewrite Hs.
  - destruct (split_netloc (preprocess url)) as [[n r]|] eqn:Hn; [|discriminate].
    cbn [bind]. destruct (split_fragment r) as [u3 f].
    destruct (split_query u3) as [p q].
    destruct (_checknetloc n) as [[]|]; [|discriminate]. cbn [bind].
    intros [= <-]. cbn [s_netloc].
    apply split_netloc_cases in Hn as [[-> _] | [-> _]].
    + now exists [], (preprocess url).
    + now exists (py "//"), r.
  - destruct (split_netloc rest) as [[n r]|] eqn:Hn; [|discriminate].
    cbn [bind]. destruct (split_fragment r) as [u3 f].
    destruct (split_query u3) as [p q].
    destruct (_checknetloc n) as [[]|]; [|discriminate]. cbn [bind].
    intros [= <-]. cbn [s_netloc]. rewrite Hurl.
    apply split_netloc_cases in Hn as [[-> _] | [-> _]].
    + now exists [], (pre ++ chr ":" :: rest).
    + exists (pre ++ chr ":" :: py "//"), r. now rewrite <- !app_assoc.
Qed.

Lemma urlsplit_wf (url : str) (sr : SplitResult) :
  urlsplit url = Ok sr -> split_wf sr.
Proof.
  rewrite urlsplit_steps. pose proof (preprocess_clean url) as Hclean.
  assert (Hscheme : exists s u1, split_scheme (preprocess url) = (s, u1) /\
                      scheme_wf s /\ free_of unsafe u1 = true).
  { destruct (split_scheme_cases (preprocess url))
      as [Hs | [pre [rest [Hurl [Hc [Ha Hs]]]]]].
    - exists [], (preprocess url). repeat split; [assumption | now left | assumption].
    - exists (lower pre), rest. repeat split; [assumption | now apply lower_scheme_wf |].
      rewrite Hurl, free_of_app, free_of_cons in Hclean.
      now repeat (apply andb_true_iff in Hclean as [? Hclean]). }
  destruct Hscheme as [s [u1 [-> [Hs Hu1]]]].
  destruct (split_netloc u1) as [[n u2]|] eqn:Hn; [|discriminate]. cbn [bind].
  destruct (split_fragment_cases u2) as [u3 [f [-> [Hu3 Hf]]]].
  destruct (split_query_cases u3) as [p [q [-> [Hp Hq]]]].
  destruct (_checknetloc n) as [[]|] eqn:Hck; [|discriminate]. cbn [bind].
  intros [= <-].
  assert (Hpf : has (chr "#") p = false /\ has (chr "#") q = false).
  { destruct Hq as [-> | [-> ->]]; [now apply has_app_cons_false in Hu3 | easy]. }
  assert (Hparts : free_of unsafe u2 = true -> free_of unsafe (p ++ q ++ f) = true).
  { apply free_of_incl. intros c.
    destruct Hf as [-> | [-> ->]]; destruct Hq as [-> | [-> ->]];
      rewrite ?in_app_iff; cbn [In]; rewrite ?in_app_iff; cbn [In]; tauto. }
  apply split_netloc_cases in Hn
    as [[-> [-> Hno]] | [-> [Hnd [Hafter Hbr]]]].
  - constructor; cbn [s_scheme s_netloc s_path s_query s_fragment];
      try tauto; try easy; try (now apply Hparts).
  - rewrite !free_of_app in Hu1.
    apply andb_true_iff in Hu1 as [_ Hu1]. apply andb_true_iff in Hu1 as [Hnc Hu2].
    constructor; cbn [s_scheme s_netloc s_path s_query s_fragment];
      try tauto; try easy.
    + intros _. destruct Hafter as [-> | [d [r [Hd Hdelim]]]].
      * destruct Hf as [Hf | [Hf _]]; [now destruct u3 | subst u3].
        destruct Hq as [Hq | [Hq _]]; [now destruct p | now left].
      * destruct p as [|c p']; [now left | right].
        exists p'. f_equal.
        assert (Hc : c = d).
        { destruct Hq as [-> | [-> ->]]; destruct Hf as [Hf | [Hf _]];
            rewrite Hf in Hd; cbn in Hd; congruence. }
        subst d. rewrite has_cons in Hp. apply orb_false_iff in Hp as [Hp _].
        destruct Hpf as [Hpf _]. rewrite has_cons in Hpf.
        apply orb_false_iff in Hpf as [Hpf _].
        now apply delim_slash.
    + rewrite free_of_app, Hnc. now apply Hparts.
Qed.

End SplitJoin.

Section ReadBack.
Context {rt : Runtime}.

Lemma scheme_char_safe (c : Z) : scheme_char c = true -> unsafe c = false.
Proof.
  unfold scheme_char, unsafe, is_lower, is_upper, is_digit.
  change (chr "+") with 43. change (chr "-") with 45. change (chr ".") with 46.
  lia.
Qed.

Lemma alpha_not_blank (c : Z) :
  is_alpha c = true -> c0_control_or_space c = false.
Proof. unfold is_alpha, is_lower, is_upper, c0_control_or_space. lia. Qed.

Lemma scheme_wf_clean (s : str) : scheme_wf s -> free_of unsafe s = true.
Proof.
  intros [-> | [Hc _]]; [reflexivity|].
  unfold free_of. rewrite forallb_forall in *. intros c Hin.
  now rewrite scheme_char_safe by now apply Hc.
Qed.

Lemma query_part_clean (q : str) :
  free_of unsafe q = true -> free_of unsafe (query_part q) = true.
Proof. unfold query_part. destruct q; [reflexivity|]. now intros H. Qed.

Lemma fragment_part_clean (f : str) :
  free_of unsafe f = true -> free_of unsafe (fragment_part f) = true.
Proof. unfold fragment_part. destruct f; [reflexivity|]. now intros H. Qed.

Lemma split_fragment_part (u f : str) :
  has (chr "#") u = false ->
  split_fragment (u ++ fragment_part f) = (u, f).
Proof.
  intros H. unfold fragment_part. destruct f as [|c f]; cbn [truthy].
  - rewrite app_nil_r. now apply split_fragment_none.
  - now apply split_fragment_found.
Qed.

Lemma split_query_part (p q : str) :
  has (chr "?") p = false ->
  split_query (p ++ query_part q) = (p, q).
Proof.
  intros H. unfold query_part. destruct q as [|c q]; cbn [truthy].
  - rewrite app_nil_r. now apply split_query_none.
  - now apply split_query_found.
Qed.

Lemma has_query_part (q : str) :
  has (chr "#") q = false -> has (chr "#") (query_part q) = false.
Proof. unfold query_part. destruct q; [reflexivity|]. now intros H. Qed.

Lemma after_netloc_parts (p q f : str) :
  (p = [] \/ exists r, p = chr "/" :: r) ->
  after_netloc ((p ++ query_part q) ++ fragment_part f).
Proof.
  intros [-> | [r ->]].
  - unfold query_part, fragment_part.
    destruct q as [|c q]; cbn [truthy app].
    + destruct f as [|d f]; cbn [truthy app]; [now left | right].
      now exists (chr "#"), (d :: f).
    + right. now exists (chr "?"), ((c :: q) ++ (if truthy f then py "#" ++ f else [])).
  - right. now exists (chr "/"), ((r ++ query_part q) ++ fragment_part f).
Qed.

End ReadBack.

(** ** Path parameters *)

Lemma has_rev (c : Z) (s : str) : has c (rev s) = has c s.
Proof.
  destruct (has c s) eqn:E.
  - apply has_In. apply has_In in E. now apply in_rev in E.
  - apply has_false_In. apply has_false_In in E. intros H. apply E.
    now apply in_rev.
Qed.

(** A string that holds [c] splits around its last [c]. *)
Lemma has_split_last (c : Z) (s : str) :
  has c s = true -> exists a b, s = a ++ c :: b /\ has c b = false.
Proof.
  intros H. rewrite <- has_rev in H.
  apply has_split in H as [a [b [H Ha]]].
  exists (rev b), (rev a). split.
  - rewrite <- (rev_involutive s), H, rev_app_distr. cbn.
    now rewrite <- app_assoc.
  - now rewrite has_rev.
Qed.

Lemma rfind_from_absent (c : Z) (s : str) (i last : Z) :
  has c s = false -> rfind_from c s i last = last.
Proof.
  revert i last. induction s as [|x s IH]; intros i last H; [reflexivity|].
  rewrite has_cons in H. apply orb_false_iff in H as [Hx Hs].
  cbn. rewrite Z.eqb_sym, Hx. now apply IH.
Qed.

Lemma rfind_from_found (c : Z) (a b : str) (i last : Z) :
  has c b = false -> rfind_from c (a ++ c :: b) i last = i + len a.
Proof.
  intros Hb. revert i last. induction a as [|x a IH]; intros i last.
  - cbn. rewrite Z.eqb_refl, rfind_from_absent by assumption.
    unfold len. cbn. lia.
  - cbn [app rfind_from]. rewrite IH, len_cons. lia.
Qed.

Lemma rfind_found (c : Z) (a b : str) :
  has c b = false -> rfind c (a ++ c :: b) = len a.
Proof. intros H. unfold rfind. now rewrite rfind_from_found. Qed.

Lemma splitparams_cases (x : str) :
  has semicolon x = true ->
  (_splitparams x = (x, []) /\ tail_free x) \/
  (exists a b, x = a ++ semicolon :: b /\ _splitparams x = (a, b) /\
               tail_free a /\ has slash b = false).
Proof.
  intros Hsemi. unfold _splitparams. fold slash semicolon.
  destruct (has slash x) eqn:Hslash.
  - apply has_split_last in Hslash as [u [v [-> Hv]]].
    rewrite rfind_found by assumption. unfold find_at.
    rewrite slice_from_app. destruct (has semicolon v) eqn:Hsv.
    + right. apply has_split in Hsv as [t [b [-> Ht]]].
      change (slash :: t ++ semicolon :: b) with ((slash :: t) ++ semicolon :: b).
      rewrite find_from_found by (rewrite has_cons; now rewrite Ht).
      replace (len u + len (slash :: t) <? 0) with false
        by (pose proof (len_nonneg u); pose proof (len_nonneg (slash :: t)); lia).
      exists (u ++ slash :: t), b.
      assert (Hx : u ++ (slash :: t) ++ semicolon :: b
                   = (u ++ slash :: t) ++ semicolon :: b)
        by now rewrite <- app_assoc.
      rewrite Hx. rewrite <- len_app.
      rewrite slice_to_app, slice_from_app1.
      apply has_app_cons_false in Hv as [Hvt Hvb].
      repeat split; [|assumption]. right. now exists u, t.
    + left. rewrite find_from_absent by (rewrite has_cons; now rewrite Hsv).
      cbn [Z.ltb Z.compare]. split; [reflexivity|]. right. now exists u, v.
  - right. apply has_split in Hsemi as [a [b [-> Ha]]].
    unfold find. rewrite find_from_found by assumption. cbn [Z.add].
    rewrite slice_to_app, slice_from_app1.
    apply has_app_cons_false in Hslash as [Hsa Hsb].
    exists a, b. repeat split; [|assumption]. now left.
Qed.

Lemma splitparams_tail_free (a : str) :
  tail_free a -> has semicolon a = true -> _splitparams a = (a, []).
Proof.
  intros [[H _] | [u [t [-> [Ht Hs]]]]] Hsemi; [congruence|].
  unfold _splitparams. fold slash semicolon.
  rewrite has_app, has_cons, Z.eqb_refl, orb_true_r.
  rewrite rfind_found by assumption. unfold find_at.
  rewrite slice_from_app, find_from_absent; [reflexivity|].
  now rewrite has_cons, Ht.
Qed.

Section Params.
Context {rt : Runtime}.

Lemma urlparse_steps (url : str) :
  urlparse url =
  sr <- urlsplit url ;;
  let '(path, params) := split_params (s_scheme sr) (s_path sr) in
  Ok (mkParse (s_scheme sr) (s_netloc sr) path params (s_query sr) (s_fragment sr)).
Proof. reflexivity. Qed.

Lemma rejoin_tail_free (scheme a : str) : tail_free a -> rejoin scheme a = a.
Proof.
  intros Ha. unfold rejoin, split_params.
  destruct (mem scheme uses_params && has semicolon a) eqn:E; [|reflexivity].
  apply andb_true_iff in E as [_ Hsemi].
  now rewrite splitparams_tail_free.
Qed.

(** Writing a path back drops at most one final semicolon. *)
Lemma rejoin_cases (scheme x : str) :
  rejoin scheme x = x \/
  exists a, x = a ++ [semicolon] /\ rejoin scheme x = a /\ tail_free a.
Proof.
  unfold rejoin, split_params.
  destruct (mem scheme uses_params && has semicolon x) eqn:E; [|now left].
  apply andb_true_iff in E as [_ Hsemi].
  destruct (splitparams_cases x Hsemi) as [[-> _] | [a [b [-> [-> [Ha _]]]]]];
    [now left|].
  unfold join_params. destruct b as [|c b]; cbn [truthy]; [|now left].
  right. now exists a.
Qed.

Lemma rejoin_idem (scheme x : str) :
  rejoin scheme (rejoin scheme x) = rejoin scheme x.
Proof.
  destruct (rejoin_cases scheme x) as [E | [a [_ [-> Ha]]]];
    [now rewrite !E | now apply rejoin_tail_free].
Qed.

(** A path that does not end in a semicolon is written back as it is. *)
Lemma rejoin_id (scheme x : str) :
  endswith (py ";") x = false -> rejoin scheme x = x.
Proof.
  intros H. destruct (rejoin_cases scheme x) as [E | [a [E _]]]; [assumption|].
  assert (endswith (py ";") x = true) by (apply endswith_spec; now exists a).
  congruence.
Qed.

(** A slash put in front of a path that opens with none moves the
    parameters along. *)
Lemma splitparams_found (a b : str) :
  tail_free a -> has slash b = false ->
  _splitparams (a ++ semicolon :: b) = (a, b).
Proof.
  intros Ha Hb. unfold _splitparams. fold slash semicolon.
  destruct Ha as [[Hsemi Hsl] | [u [t [-> [Ht Hs]]]]].
  - rewrite has_app, Hsl, has_cons. replace (slash =? semicolon) with false by reflexivity.
    rewrite Hb. cbn [orb]. unfold find. rewrite find_from_found by assumption.
    cbn [Z.add]. now rewrite slice_to_app, slice_from_app1.
  - rewrite <- app_assoc. cbn [app].
    rewrite has_app, has_cons, Z.eqb_refl, orb_true_r.
    rewrite rfind_found.
    2:{ rewrite has_app, Hs, has_cons. replace (slash =? semicolon) with false by reflexivity.
        now rewrite Hb. }
    unfold find_at. rewrite slice_from_app.
    change (slash :: t ++ semicolon :: b) with ((slash :: t) ++ semicolon :: b).
    rewrite find_from_found by (rewrite has_cons; now rewrite Ht).
    replace (len u + len (slash :: t) <? 0) with false
      by (pose proof (len_nonneg u); pose proof (len_nonneg (slash :: t)); lia).
    rewrite app_assoc, <- len_app.
    now rewrite slice_to_app, slice_from_app1.
Qed.

Lemma tail_free_lead (c : Z) (r : str) :
  tail_free (c :: r) -> tail_free (slash :: c :: r).
Proof.
  intros [[Hsemi Hsl] | [u [t [E [Ht Hs]]]]]; right.
  - now exists [], (c :: r).
  - exists (slash :: u), t. cbn [app]. now rewrite E.
Qed.

Lemma rejoin_lead (scheme : str) (c : Z) (r : str) :
  rejoin scheme (c :: r) = c :: r ->
  rejoin scheme (slash :: c :: r) = slash :: c :: r.
Proof.
  intros H. unfold rejoin, split_params in *.
  rewrite has_cons. replace (semicolon =? slash) with false by reflexivity.
  cbn [orb]. destruct (mem scheme uses_params && has semicolon (c :: r)) eqn:E;
    [|reflexivity].
  apply andb_true_iff in E as [_ Hsemi].
  destruct (splitparams_cases (c :: r) Hsemi)
    as [[_ Ht] | [a [b [Hx [Hsp [Ha Hb]]]]]].
  - rewrite splitparams_tail_free; [reflexivity | now apply tail_free_lead |].
    rewrite has_cons. now rewrite Hsemi, orb_true_r.
  - rewrite Hsp in H. rewrite Hx.
    change (slash :: a ++ semicolon :: b) with ((slash :: a) ++ semicolon :: b).
    rewrite splitparams_found; [| |assumption].
    + unfold join_params in *. destruct b as [|d b]; cbn [truthy] in *.
      * exfalso. rewrite Hx in H. apply (f_equal (@List.length Z)) in H.
        rewrite length_app in H. cbn in H. lia.
      * reflexivity.
    + destruct a as [|d a]; [right; now exists [], [] | now apply tail_free_lead].
Qed.

End Params.

(** ** UTF-8 *)

Ltac divmod := Z.to_euclidean_division_equations; lia.
Ltac all_bytes :=
  repeat (apply Forall_cons; [unfold is_byte; divmod|]); apply Forall_nil.

Lemma utf8_encode_char_bytes (c : Z) (b : bytes) :
  utf8_encode_char c = Ok b -> Forall is_byte b.
Proof.
  unfold utf8_encode_char.
  destruct (c <? 0) eqn:E0; [discriminate|].
  destruct (c <? 128) eqn:E1; [ok_inj; all_bytes|].
  destruct (c <? 2048) eqn:E2; [ok_inj; all_bytes|].
  destruct (c <? 65536) eqn:E3.
  - destruct ((55296 <=? c) && (c <=? 57343)); [discriminate|].
    ok_inj; all_bytes.
  - destruct (c <? 1114112) eqn:E4; [|discriminate].
    ok_inj; all_bytes.
Qed.

Lemma utf8_decode_encode_char (c : Z) (b rest : bytes) :
  utf8_encode_char c = Ok b ->
  utf8_decode (b ++ rest) = c :: utf8_decode rest.
Proof.
  unfold utf8_encode_char.
  destruct (c <? 0) eqn:E0; [discriminate|].
  destruct (c <? 128) eqn:E1.
  { ok_inj. cbn [app utf8_decode]. now rewrite E1. }
  destruct (c <? 2048) eqn:E2.
  { ok_inj. cbn [app utf8_decode]. unfold is_cont.
    replace (192 + c / 64 <? 128) with false by divmod.
    replace (192 + c / 64 <? 194) with false by divmod.
    replace (192 + c / 64 <? 224) with true by divmod.
    replace ((128 <=? 128 + c mod 64) && (128 + c mod 64 <? 192)) with true by divmod.
    f_equal. divmod. }
  destruct (c <? 65536) eqn:E3.
  { destruct ((55296 <=? c) && (c <=? 57343)) eqn:Es; [discriminate|].
    ok_inj. cbn [app utf8_decode]. unfold is_cont.
    replace (224 + c / 4096 <? 128) with false by divmod.
    replace (224 + c / 4096 <? 194) with false by divmod.
    replace (224 + c / 4096 <? 224) with false by divmod.
    replace (224 + c / 4096 <? 240) with true by divmod.
    replace ((128 <=? 128 + (c / 64) mod 64) && (128 + (c / 64) mod 64 <? 192))
      with true by divmod.
    replace ((128 <=? 128 + c mod 64) && (128 + c mod 64 <? 192)) with true by divmod.
    replace (if 128 + (c / 64) mod 64 <? 160
             then 224 + c / 4096 =? 224 else 224 + c / 4096 =? 237)
      with false
      by (destruct (128 + (c / 64) mod 64 <? 160) eqn:?; divmod).
    cbn [negb orb]. f_equal. divmod. }
  destruct (c <? 1114112) eqn:E4; [|discriminate].
  ok_inj. cbn [app utf8_decode]. unfold is_cont.
  replace (240 + c / 262144 <? 128) with false by divmod.
  replace (240 + c / 262144 <? 194) with false by divmod.
  replace (240 + c / 262144 <? 224) with false by divmod.
  replace (240 + c / 262144 <? 240) with false by divmod.
  replace (240 + c / 262144 <? 245) with true by divmod.
  replace ((128 <=? 128 + (c / 4096) mod 64) && (128 + (c / 4096) mod 64 <? 192))
    with true by divmod.
  replace ((128 <=? 128 + (c / 64) mod 64) && (128 + (c / 64) mod 64 <? 192))
    with true by divmod.
  replace ((128 <=? 128 + c mod 64) && (128 + c mod 64 <? 192)) with true by divmod.
  replace (if 128 + (c / 4096) mod 64 <? 144
           then 240 + c / 262144 =? 240 else 240 + c / 262144 =? 244)
    with false
    by (destruct (128 + (c / 4096) mod 64 <? 144) eqn:?; divmod).
  cbn [negb orb]. f_equal. divmod.
Qed.

Lemma utf8_decode_encode (s : str) (bs : bytes) :
  utf8_encode s = Ok bs -> utf8_decode bs = s.
Proof.
  revert bs. induction s as [|c s IH]; intros bs; cbn [utf8_encode].
  - now intros [= <-].
  - destruct (utf8_encode_char c) as [b|] eqn:Hc; [|discriminate]. cbn [bind].
    destruct (utf8_encode s) as [bs'|]; [|discriminate]. cbn [bind].
    intros [= <-]. rewrite (utf8_decode_encode_char _ _ _ Hc). f_equal.
    now apply IH.
Qed.

Lemma utf8_encode_bytes (s : str) (bs : bytes) :
  utf8_encode s = Ok bs -> Forall is_byte bs.
Proof.
  revert bs. induction s as [|c s IH]; intros bs; cbn [utf8_encode].
  - intros [= <-]. constructor.
  - destruct (utf8_encode_char c) as [b|] eqn:Hc; [|discriminate]. cbn [bind].
    destruct (utf8_encode s) as [bs'|]; [|discriminate]. cbn [bind].
    intros [= <-]. apply Forall_app. split.
    + now apply utf8_encode_char_bytes in Hc.
    + now apply IH.
Qed.

Lemma utf8_decode_ascii (s : str) : isascii s = true -> utf8_decode s = s.
Proof.
  induction s as [|c s IH]; [reflexivity|]. cbn [isascii forallb utf8_decode].
  intros H. apply andb_true_iff in H as [Hc Hs]. rewrite Hc. f_equal.
  now apply IH.
Qed.

(** ** Percent-encoding *)

Lemma split_nonempty (c : Z) (r : str) : exists p ps, split c r = p :: ps.
Proof.
  destruct r as [|x r]; [now exists [], []|]. cbn [split].
  destruct (x =? c); [now eexists; eexists|].
  destruct (split c r); now eexists; eexists.
Qed.

Lemma split_cons_sep (c : Z) (r : str) : split c (c :: r) = [] :: split c r.
Proof. cbn [split]. now rewrite Z.eqb_refl. Qed.

Lemma split_cons_keep (c x : Z) (r p : str) (ps : list str) :
  (x =? c) = false -> split c r = p :: ps -> split c (x :: r) = (x :: p) :: ps.
Proof. intros H E. cbn [split]. now rewrite H, E. Qed.

Lemma unquote_to_bytes_split (s : str) :
  unquote_to_bytes s =
  match split percent s with
  | [] => []
  | first :: items => first ++ flat_map unquote_item items
  end.
Proof. reflexivity. Qed.

Lemma unquote_to_bytes_nil : unquote_to_bytes [] = [].
Proof. reflexivity. Qed.

Lemma unquote_to_bytes_plain (c : Z) (r : str) :
  (c =? percent) = false ->
  unquote_to_bytes (c :: r) = c :: unquote_to_bytes r.
Proof.
  intros H. rewrite !unquote_to_bytes_split.
  destruct (split_nonempty percent r) as [p [ps E]].
  now rewrite (split_cons_keep _ _ _ _ _ H E), E.
Qed.

Lemma is_hexdig_not_percent (h : Z) : is_hexdig h = true -> (h =? percent) = false.
Proof.
  unfold is_hexdig, is_digit. change percent with 37. lia.
Qed.

Lemma unquote_to_bytes_escape (h1 h2 : Z) (r : str) :
  is_hexdig h1 = true -> is_hexdig h2 = true ->
  unquote_to_bytes (percent :: h1 :: h2 :: r)
  = (16 * hexval h1 + hexval h2) :: unquote_to_bytes r.
Proof.
  intros H1 H2. rewrite !unquote_to_bytes_split, split_cons_sep.
  destruct (split_nonempty percent r) as [p [ps E]].
  rewrite (split_cons_keep _ _ _ _ _ (is_hexdig_not_percent _ H1)
             (split_cons_keep _ _ _ _ _ (is_hexdig_not_percent _ H2) E)), E.
  cbn [app flat_map unquote_item]. now rewrite H1, H2.
Qed.

Lemma unquote_to_bytes_no_percent (s : str) :
  has percent s = false -> unquote_to_bytes s = s.
Proof.
  induction s as [|c s IH]; [reflexivity|]. rewrite has_cons.
  intros H. apply orb_false_iff in H as [Hc Hs].
  rewrite unquote_to_bytes_plain by now rewrite Z.eqb_sym.
  now rewrite IH.
Qed.

(** Hexadecimal digits *)

Lemma hexdigit_is_hexdig (n : Z) : 0 <= n < 16 -> is_hexdig (hexdigit n) = true.
Proof.
  intros H. unfold is_hexdig, is_digit, hexdigit. destruct (n <? 10) eqn:E; lia.
Qed.

Lemma hexval_hexdigit (n : Z) : 0 <= n < 16 -> hexval (hexdigit n) = n.
Proof.
  intros H. unfold hexval, is_digit, hexdigit.
  destruct (n <? 10) eqn:E.
  - replace ((48 <=? 48 + n) && (48 + n <=? 57)) with true by lia. lia.
  - replace ((48 <=? 55 + n) && (55 + n <=? 57)) with false by lia.
    replace (55 + n <? 97) with true by lia. lia.
Qed.

Lemma hexdigit_safe (n : Z) : 0 <= n < 16 -> always_safe (hexdigit n) = true.
Proof.
  intros H. unfold always_safe, is_upper, is_lower, is_digit, hexdigit.
  destruct (n <? 10) eqn:E; lia.
Qed.

(** ** Quoting and unquoting one string *)

Lemma always_safe_ascii (b : Z) : always_safe b = true -> (b <? 128) = true.
Proof.
  unfold always_safe, is_upper, is_lower, is_digit.
  change (chr "_") with 95. change (chr ".") with 46.
  change (chr "-") with 45. change (chr "~") with 126. lia.
Qed.

Lemma always_safe_not_percent (b : Z) :
  always_safe b = true -> (b =? percent) = false.
Proof.
  unfold always_safe, is_upper, is_lower, is_digit.
  change (chr "_") with 95. change (chr ".") with 46.
  change (chr "-") with 45. change (chr "~") with 126. change percent with 37.
  lia.
Qed.

Lemma always_safe_not_plus (b : Z) :
  always_safe b = true -> (b =? chr "+") = false /\ (b =? chr " ") = false.
Proof.
  unfold always_safe, is_upper, is_lower, is_digit.
  change (chr "_") with 95. change (chr ".") with 46.
  change (chr "-") with 45. change (chr "~") with 126.
  change (chr "+") with 43. change (chr " ") with 32. lia.
Qed.

Lemma plus_safe_has (safe : list Z) (b : Z) :
  plus_safe safe -> has b safe = true -> b = chr " ".
Proof.
  intros [-> | ->] H; [discriminate|]. cbn in H.
  rewrite orb_false_r in H. now apply Z.eqb_eq in H.
Qed.

Lemma quote_from_bytes_flat_map (bs : bytes) (safe : list Z) :
  plus_safe safe -> quote_from_bytes bs safe = flat_map (quoter safe) bs.
Proof.
  intros Hsafe. unfold quote_from_bytes.
  destruct bs as [|b bs]; [reflexivity|]. cbn [truthy negb].
  assert (Hf : filter (fun c => c <? 128) safe = safe)
    by (destruct Hsafe as [-> | ->]; reflexivity).
  rewrite Hf.
  destruct (rstrip (fun b0 => always_safe b0 || has b0 safe) (b :: bs)) eqn:E;
    [|reflexivity].
  cbn [truthy negb]. apply rstrip_nil_iff in E.
  rewrite forallb_forall in E. symmetry.
  generalize dependent (b :: bs). clear b bs. intros l Hl.
  induction l as [|x l IH]; [reflexivity|]. cbn [flat_map].
  unfold quoter at 1. rewrite (Hl x (or_introl eq_refl)). cbn [app].
  f_equal. apply IH. intros y Hy. apply Hl. now right.
Qed.

Lemma unquote_quoter (safe : list Z) (b : Z) (r : str) :
  plus_safe safe -> is_byte b ->
  unquote_to_bytes (quoter safe b ++ r) = b :: unquote_to_bytes r.
Proof.
  intros Hsafe Hb. unfold quoter.
  destruct (always_safe b || has b safe) eqn:E.
  - cbn [app]. apply unquote_to_bytes_plain.
    apply orb_true_iff in E as [E | E]; [now apply always_safe_not_percent|].
    now rewrite (plus_safe_has _ _ Hsafe E).
  - cbn [app]. fold percent. unfold is_byte in Hb.
    rewrite unquote_to_bytes_escape
      by (apply hexdigit_is_hexdig; Z.to_euclidean_division_equations; lia).
    rewrite !hexval_hexdigit by (Z.to_euclidean_division_equations; lia).
    f_equal. Z.to_euclidean_division_equations; lia.
Qed.

Lemma unquote_flat_map_quoter (safe : list Z) (bs : bytes) :
  plus_safe safe -> Forall is_byte bs ->
  unquote_to_bytes (flat_map (quoter safe) bs) = bs.
Proof.
  intros Hsafe Hbs. induction Hbs as [|b bs Hb _ IH]; [reflexivity|].
  cbn [flat_map]. now rewrite unquote_quoter, IH.
Qed.

Lemma quoter_chars (safe : list Z) (b c : Z) :
  plus_safe safe -> is_byte b -> In c (quoter safe b) ->
  always_safe c = true \/ c = percent \/ (c = chr " " /\ safe = py " ").
Proof.
  intros Hsafe Hb. unfold quoter. unfold is_byte in Hb.
  destruct (always_safe b || has b safe) eqn:E.
  - intros [<- | []]. apply orb_true_iff in E as [E | E]; [now left|].
    right. right. split; [now apply (plus_safe_has safe)|].
    destruct Hsafe as [-> | ->]; [discriminate | reflexivity].
  - intros [<- | [<- | [<- | []]]].
    + right. now left.
    + left. apply hexdigit_safe. Z.to_euclidean_division_equations; lia.
    + left. apply hexdigit_safe. Z.to_euclidean_division_equations; lia.
Qed.

Lemma unquote_runs_ascii (x run : str) :
  isascii x = true -> unquote_runs x run = unquote_run (rev x ++ run).
Proof.
  revert run. induction x as [|c x IH]; intros run; [reflexivity|].
  cbn [isascii forallb]. intros H. apply andb_true_iff in H as [Hc Hx].
  cbn [unquote_runs rev]. rewrite Hc, IH by assumption.
  now rewrite <- app_assoc.
Qed.

Lemma unquote_ascii (x : str) :
  isascii x = true -> unquote x = utf8_decode (unquote_to_bytes x).
Proof.
  intros Hx. unfold unquote. fold percent.
  destruct (has percent x) eqn:E; cbn [negb].
  - rewrite unquote_runs_ascii, app_nil_r by assumption.
    unfold unquote_run. destruct (rev x) eqn:Er.
    + apply (f_equal (@rev Z)) in Er. rewrite rev_involutive in Er.
      now subst.
    + now rewrite <- Er, rev_involutive.
  - rewrite unquote_to_bytes_no_percent by assumption.
    now rewrite utf8_decode_ascii.
Qed.

Lemma replace_inverse (c d : Z) (x : str) :
  has d x = false -> replace d c (replace c d x) = x.
Proof.
  unfold replace. induction x as [|y x IH]; [reflexivity|].
  rewrite has_cons. intros H. apply orb_false_iff in H as [Hy Hx].
  cbn [map]. rewrite IH by assumption. f_equal.
  destruct (y =? c) eqn:E.
  - rewrite Z.eqb_refl. apply Z.eqb_eq in E. now subst.
  - now rewrite Z.eqb_sym, Hy.
Qed.

Lemma replace_absent (c d : Z) (x : str) :
  has c x = false -> replace c d x = x.
Proof.
  unfold replace. induction x as [|y x IH]; [reflexivity|].
  rewrite has_cons. intros H. apply orb_false_iff in H as [Hy Hx].
  cbn [map]. rewrite IH by assumption. now rewrite Z.eqb_sym, Hy.
Qed.

Lemma quote_inv (s : str) (safe : list Z) (q : str) :
  plus_safe safe -> quote s safe = Ok q ->
  exists bs, utf8_encode s = Ok bs /\ Forall is_byte bs /\
             q = flat_map (quoter safe) bs.
Proof.
  intros Hsafe. unfold quote. destruct s as [|c s]; cbn [truthy negb].
  - intros H. apply Ok_inj in H. subst. exists []. now repeat split.
  - destruct (utf8_encode (c :: s)) as [bs|] eqn:E; [|discriminate].
    cbn [bind]. intros H. apply Ok_inj in H. subst.
    exists bs. repeat split; [now apply utf8_encode_bytes in E|].
    now apply quote_from_bytes_flat_map.
Qed.

Lemma quoted_chars (safe : list Z) (bs : bytes) (c : Z) :
  plus_safe safe -> Forall is_byte bs -> In c (flat_map (quoter safe) bs) ->
  always_safe c = true \/ c = percent \/ (c = chr " " /\ safe = py " ").
Proof.
  intros Hsafe Hbs Hin. apply in_flat_map in Hin as [b [Hb Hc]].
  rewrite Forall_forall in Hbs. apply (quoter_chars safe b); auto.
Qed.

Lemma qchar_ascii (c : Z) : qchar c = true -> (c <? 128) = true.
Proof.
  unfold qchar. intros H. apply orb_true_iff in H as [H | H].
  - apply orb_true_iff in H as [H | H]; [now apply always_safe_ascii|].
    apply Z.eqb_eq in H. now subst.
  - apply Z.eqb_eq in H. now subst.
Qed.

(** [parse_qsl] reads back what [quote_plus] wrote. *)
Lemma quote_plus_roundtrip (s qs : str) :
  quote_plus s = Ok qs ->
  unquote (replace (chr "+") (chr " ") qs) = s /\ forallb qchar qs = true.
Proof.
  unfold quote_plus. destruct (has (chr " ") s) eqn:Hsp; cbn [negb].
  - destruct (quote s ([] ++ py " ")) as [q|] eqn:Hq; [|discriminate].
    cbn [bind]. intros H. apply Ok_inj in H. subst qs.
    apply quote_inv in Hq as [bs [Henc [Hbs ->]]]; [|now right].
    assert (Hchars : forall c, In c (flat_map (quoter (py " ")) bs) ->
              always_safe c = true \/ c = percent \/ c = chr " ").
    { intros c Hc. apply (quoted_chars (py " ")) in Hc; [tauto | now right | assumption]. }
    assert (Hplus : has (chr "+") (flat_map (quoter (py " ")) bs) = false).
    { apply has_false_In. intros Hin. apply Hchars in Hin as [H | [H | H]];
        vm_compute in H; discriminate. }
    split.
    + rewrite replace_inverse by assumption.
      rewrite unquote_ascii.
      * rewrite unquote_flat_map_quoter; [now apply utf8_decode_encode | now right | assumption].
      * unfold isascii. apply forallb_forall. intros c Hc.
        apply Hchars in Hc as [H | [-> | ->]]; [now apply always_safe_ascii | easy | easy].
    + apply forallb_forall. intros c Hc. unfold replace in Hc.
      apply in_map_iff in Hc as [x [<- Hx]]. apply Hchars in Hx as [H | [-> | ->]].
      * destruct (always_safe_not_plus _ H) as [_ Hs]. rewrite Hs.
        unfold qchar. now rewrite H.
      * reflexivity.
      * reflexivity.
  - intros Hq. apply quote_inv in Hq as [bs [Henc [Hbs ->]]]; [|now left].
    assert (Hchars : forall c, In c (flat_map (quoter []) bs) ->
              always_safe c = true \/ c = percent).
    { intros c Hc. apply (quoted_chars []) in Hc; [|now left | assumption].
      destruct Hc as [H | [H | [_ H]]]; [tauto | tauto | discriminate]. }
    assert (Hplus : has (chr "+") (flat_map (quoter []) bs) = false).
    { apply has_false_In. intros Hin. apply Hchars in Hin as [H | H];
        vm_compute in H; discriminate. }
    split.
    + rewrite replace_absent by assumption.
      rewrite unquote_ascii.
      * rewrite unquote_flat_map_quoter; [now apply utf8_decode_encode | now left | assumption].
      * unfold isascii. apply forallb_forall. intros c Hc.
        apply Hchars in Hc as [H | ->]; [now apply always_safe_ascii | easy].
    + apply forallb_forall. intros c Hc. apply Hchars in Hc as [H | ->].
      * unfold qchar. now rewrite H.
      * reflexivity.
Qed.

(** ** Query strings *)

Lemma mapM_inv {A B} (f : A -> result B) (l : list A) (r : list B) :
  mapM f l = Ok r -> Forall2 (fun a b => f a = Ok b) l r.
Proof.
  revert r. induction l as [|a l IH]; intros r; cbn [mapM].
  - intros H. apply Ok_inj in H. subst. constructor.
  - destruct (f a) as [b|] eqn:E; [|discriminate]. cbn [bind].
    destruct (mapM f l) as [bs|]; [|discriminate]. cbn [bind].
    intros H. apply Ok_inj in H. subst. constructor; [assumption | now apply IH].
Qed.

Lemma urlencode_inv (d : dict) (q : str) :
  urlencode d = Ok q ->
  exists l, Forall2 encoded (pairs_of d) l /\ q = join (py "&") l.
Proof.
  unfold urlencode.
  destruct (mapM _ d) as [ll|] eqn:E; [|discriminate]. cbn [bind].
  intros H. apply Ok_inj in H. subst q. exists (List.concat ll).
  split; [|reflexivity].
  apply mapM_inv in E. induction E as [|[k vs] l d ll Hkv _ IH]; [constructor|].
  cbn [pairs_of flat_map List.concat]. apply Forall2_app; [|exact IH].
  destruct (quote_plus k) as [qk|] eqn:Hk; [|discriminate]. cbn [bind] in Hkv.
  apply mapM_inv in Hkv. clear IH.
  induction Hkv as [|v p vs l Hv _ IH]; [constructor|].
  cbn [map]. constructor; [|exact IH].
  destruct (quote_plus v) as [qv|] eqn:Hqv; [|discriminate]. cbn [bind] in Hv.
  apply Ok_inj in Hv. subst p. now exists qk, qv.
Qed.

Lemma split_absent (c : Z) (x : str) : has c x = false -> split c x = [x].
Proof.
  induction x as [|y x IH]; [reflexivity|]. rewrite has_cons.
  intros H. apply orb_false_iff in H as [Hy Hx].
  cbn [split]. now rewrite Z.eqb_sym, Hy, IH.
Qed.

Lemma split_app_sep (c : Z) (x rest : str) :
  has c x = false -> split c (x ++ c :: rest) = x :: split c rest.
Proof.
  induction x as [|y x IH].
  - intros _. apply split_cons_sep.
  - rewrite has_cons. intros H. apply orb_false_iff in H as [Hy Hx].
    cbn [app split]. now rewrite Z.eqb_sym, Hy, IH.
Qed.

Lemma split_join (l : list str) :
  l <> [] -> (forall p, In p l -> has amp p = false) ->
  split amp (join (py "&") l) = l.
Proof.
  induction l as [|x l IH]; [easy|]. intros _ Hl.
  destruct l as [|y l].
  - cbn [join]. apply split_absent, Hl. now left.
  - change (join (py "&") (x :: y :: l)) with (x ++ amp :: join (py "&") (y :: l)).
    rewrite split_app_sep by (apply Hl; now left). f_equal.
    apply IH; [easy|]. intros p Hp. apply Hl. now right.
Qed.

Lemma qchar_not (c : Z) :
  qchar c = true ->
  (equals =? c) = false /\ (amp =? c) = false.
Proof.
  unfold qchar, always_safe, is_upper, is_lower, is_digit.
  change (chr "_") with 95. change (chr ".") with 46.
  change (chr "-") with 45. change (chr "~") with 126. change percent with 37.
  change (chr "+") with 43. change equals with 61. change amp with 38. lia.
Qed.

Lemma qchars_has (c : Z) (s : str) :
  forallb qchar s = true -> c = equals \/ c = amp -> has c s = false.
Proof.
  intros Hs Hc. apply has_false_In. intros Hin.
  rewrite forallb_forall in Hs. apply Hs in Hin. apply qchar_not in Hin.
  destruct Hc as [-> | ->]; destruct Hin as [H1 H2];
    rewrite Z.eqb_refl in *; discriminate.
Qed.

Lemma encoded_piece (kv : str * str) (piece : str) :
  encoded kv piece ->
  has amp piece = false /\ forallb query_char piece = true /\
  exists qk qv, piece = qk ++ equals :: qv /\ has equals qk = false /\
    unquote (replace (chr "+") (chr " ") qk) = fst kv /\
    unquote (replace (chr "+") (chr " ") qv) = snd kv.
Proof.
  intros [qk [qv [Hk [Hv ->]]]].
  apply quote_plus_roundtrip in Hk as [Hk Hkc].
  apply quote_plus_roundtrip in Hv as [Hv Hvc].
  repeat split.
  - rewrite has_app, has_cons.
    rewrite (qchars_has amp qk), (qchars_has amp qv) by auto. reflexivity.
  - unfold query_char. rewrite forallb_app. cbn [forallb].
    rewrite Z.eqb_refl, orb_true_r. cbn [orb andb].
    apply andb_true_iff. split; apply forallb_forall; intros c Hc.
    + rewrite forallb_forall in Hkc. now rewrite (Hkc c Hc).
    + rewrite forallb_forall in Hvc. now rewrite (Hvc c Hc).
  - exists qk, qv. repeat split; try assumption. now apply qchars_has; auto.
Qed.

Lemma Forall2_In_r {A B} (R : A -> B -> Prop) (l : list A) (r : list B) (y : B) :
  Forall2 R l r -> In y r -> exists x, In x l /\ R x y.
Proof.
  induction 1 as [|a b l r Hab _ IH]; [easy|].
  intros [<- | Hy]; [exists a; split; [now left | assumption]|].
  destruct (IH Hy) as [x [Hx Hxy]]. exists x. split; [now right | assumption].
Qed.

Lemma parse_qsl_encoded (pairs : list (str * str)) (l : list str) :
  Forall2 encoded pairs l -> parse_qsl (join (py "&") l) = pairs.
Proof.
  intros H. unfold parse_qsl.
  destruct l as [|x l].
  - inversion H. reflexivity.
  - assert (Hpieces : forall p, In p (x :: l) -> has amp p = false).
    { intros p Hp. destruct (Forall2_In_r _ _ _ _ H Hp) as [kv [_ Hkv]].
      now apply encoded_piece in Hkv. }
    assert (Hne : truthy (join (py "&") (x :: l)) = true).
    { inversion H as [|kv ? ? ? Hkv _]; subst.
      apply encoded_piece in Hkv as [_ [_ [qk [qv [-> _]]]]].
      destruct l; cbn [join]; destruct qk; reflexivity. }
    rewrite Hne. fold amp. rewrite split_join by easy.
    clear Hpieces Hne.
    induction H as [|kv p pairs l' Hkv _ IH]; [reflexivity|].
    cbn [flat_map]. rewrite IH.
    apply encoded_piece in Hkv as [_ [_ [qk [qv [-> [Hq [Hk Hv]]]]]]].
    fold equals. rewrite partition_found by assumption.
    replace (truthy (qk ++ equals :: qv)) with true by now destruct qk.
    cbn [negb]. rewrite Hk, Hv. now destruct kv.
Qed.

(** ** Dictionaries *)

Lemma parse_qs_fold (qs : str) : parse_qs qs = fold_left add_pair (parse_qsl qs) [].
Proof. reflexivity. Qed.

Lemma dict_append_new (d : dict) (k v : str) :
  ~ In k (map fst d) -> dict_append d k v = d ++ [(k, [v])].
Proof.
  induction d as [|[k' vs] d IH]; [reflexivity|]. cbn [map fst In dict_append].
  intros H. destruct (eqb_str k' k) eqn:E.
  - apply eqb_str_eq in E. tauto.
  - rewrite IH by tauto. reflexivity.
Qed.

Lemma dict_append_last (d : dict) (k : str) (vs : list str) (v : str) :
  ~ In k (map fst d) ->
  dict_append (d ++ [(k, vs)]) k v = d ++ [(k, vs ++ [v])].
Proof.
  induction d as [|[k' ws] d IH]; cbn [map fst In dict_append app].
  - intros _. now rewrite eqb_str_refl.
  - intros H. destruct (eqb_str k' k) eqn:E.
    + apply eqb_str_eq in E. tauto.
    + rewrite IH by tauto. reflexivity.
Qed.

Lemma fold_values (d : dict) (k : str) (ws vs : list str) :
  ~ In k (map fst d) ->
  fold_left add_pair (map (pair k) vs) (d ++ [(k, ws)]) = d ++ [(k, ws ++ vs)].
Proof.
  intros Hk. revert ws. induction vs as [|v vs IH]; intros ws.
  - now rewrite app_nil_r.
  - cbn [map fold_left add_pair]. rewrite dict_append_last by assumption.
    rewrite IH. now rewrite <- app_assoc.
Qed.

Lemma fold_entry (d : dict) (k : str) (vs : list str) :
  ~ In k (map fst d) -> vs <> [] ->
  fold_left add_pair (map (pair k) vs) d = d ++ [(k, vs)].
Proof.
  intros Hk Hvs. destruct vs as [|v vs]; [easy|].
  cbn [map fold_left add_pair]. rewrite dict_append_new by assumption.
  now rewrite fold_values.
Qed.

(** Adding the parameters of a well-formed [dict] one by one builds it. *)
Lemma regroup (acc d : dict) :
  NoDup (map fst (acc ++ d)) -> Forall (fun kv => snd kv <> []) d ->
  fold_left add_pair (pairs_of d) acc = acc ++ d.
Proof.
  revert acc. induction d as [|[k vs] d IH]; intros acc Hnd Hne.
  - cbn. now rewrite app_nil_r.
  - cbn [pairs_of flat_map]. rewrite fold_left_app.
    inversion Hne as [|? ? Hvs Hd]; subst. cbn [snd] in Hvs.
    assert (Hk : ~ In k (map fst acc)).
    { rewrite map_app in Hnd. cbn [map fst] in Hnd.
      apply NoDup_remove_2 in Hnd. rewrite in_app_iff in Hnd. tauto. }
    rewrite fold_entry by assumption.
    change (flat_map (fun '(k0, vs0) => map (pair k0) vs0) d) with (pairs_of d).
    rewrite IH; [now rewrite <- app_assoc | now rewrite <- app_assoc | assumption].
Qed.

Lemma dict_append_keys (d : dict) (k v : str) :
  map fst (dict_append d k v) = map fst d \/
  (~ In k (map fst d) /\ map fst (dict_append d k v) = map fst d ++ [k]).
Proof.
  induction d as [|[k' vs] d IH]; [right; now split|].
  cbn [dict_append]. destruct (eqb_str k' k) eqn:E; [now left|].
  apply eqb_str_neq in E. cbn [map fst].
  destruct IH as [-> | [Hk ->]]; [now left | right].
  split; [|reflexivity]. cbn [In]. intuition congruence.
Qed.

Lemma dict_append_wf (d : dict) (k v : str) :
  dict_wf d -> dict_wf (dict_append d k v).
Proof.
  intros [Hnd Hne]. split.
  - destruct (dict_append_keys d k v) as [-> | [Hk ->]]; [assumption|].
    apply NoDup_app; [assumption | repeat constructor; easy |].
    intros x Hx [<- | []]. tauto.
  - clear Hnd. induction d as [|[k' vs] d IH]; cbn [dict_append].
    + repeat constructor. easy.
    + inversion Hne; subst. destruct (eqb_str k' k).
      * constructor; [|assumption]. cbn. now destruct vs.
      * constructor; [assumption | now apply IH].
Qed.

Lemma parse_qs_wf (qs : str) : dict_wf (parse_qs qs).
Proof.
  rewrite parse_qs_fold.
  assert (H : dict_wf []) by (split; constructor).
  revert H. generalize (@nil (str * list str)).
  induction (parse_qsl qs) as [|[n v] l IH]; intros acc Hacc; [assumption|].
  cbn [fold_left add_pair]. apply IH. now apply dict_append_wf.
Qed.

Lemma NoDup_map_filter {A B} (g : A -> B) (f : A -> bool) (l : list A) :
  NoDup (map g l) -> NoDup (map g (filter f l)).
Proof.
  induction l as [|a l IH]; [easy|]. cbn [map filter].
  intros H. inversion H as [|? ? Hin Hnd]; subst.
  destruct (f a); [|now apply IH]. cbn [map]. constructor; [|now apply IH].
  intros Hc. apply Hin. apply in_map_iff in Hc as [x [Hx Hf]].
  apply filter_In in Hf as [Hf _]. apply in_map_iff. now exists x.
Qed.

Lemma filter_wf (f : str * list str -> bool) (d : dict) :
  dict_wf d -> dict_wf (filter f d).
Proof.
  intros [Hnd Hne]. split; [now apply NoDup_map_filter|].
  rewrite Forall_forall in *. intros kv Hkv. apply filter_In in Hkv as [Hkv _].
  now apply Hne.
Qed.

Lemma filter_idem {A} (f : A -> bool) (l : list A) :
  filter f (filter f l) = filter f l.
Proof.
  induction l as [|a l IH]; [reflexivity|]. cbn [filter].
  destruct (f a) eqn:E; [|assumption]. cbn [filter]. now rewrite E, IH.
Qed.

Section QueryRoundTrip.
Context {rt : Runtime}.

(** The rebuilt query string parses to the dictionary it was written from,
    and is written from it again. *)
Lemma query_roundtrip (query new_query : str) :
  urlencode (filter_query (parse_qs query)) = Ok new_query ->
  urlencode (filter_query (parse_qs new_query)) = Ok new_query /\
  forallb query_char new_query = true.
Proof.
  intros H. pose proof H as H'.
  apply urlencode_inv in H' as [l [Hl ->]].
  assert (Hwf : dict_wf (filter_query (parse_qs query)))
    by apply filter_wf, parse_qs_wf.
  split.
  - rewrite parse_qs_fold, (parse_qsl_encoded _ _ Hl).
    destruct Hwf as [Hnd Hne].
    rewrite (regroup [] _ Hnd Hne). cbn [app].
    unfold filter_query. rewrite filter_idem. exact H.
  - clear H Hwf. induction Hl as [|kv p pairs l Hkv _ IH]; [reflexivity|].
    apply encoded_piece in Hkv as [_ [Hp _]].
    destruct l as [|y l]; [now cbn [join]|].
    change (join (py "&") (p :: y :: l)) with (p ++ amp :: join (py "&") (y :: l)).
    rewrite forallb_app, Hp. cbn [forallb andb]. rewrite IH.
    unfold query_char. now rewrite Z.eqb_refl, orb_true_r.
Qed.

End QueryRoundTrip.

(** ** Stripping slashes *)

Lemma query_char_props (c : Z) :
  query_char c = true ->
  is_slash c = false /\ unsafe c = false /\ (chr "#" =? c) = false.
Proof.
  unfold query_char, qchar, always_safe, is_upper, is_lower, is_digit,
    is_slash, unsafe.
  change (chr "_") with 95. change (chr ".") with 46.
  change (chr "-") with 45. change (chr "~") with 126. change percent with 37.
  change (chr "+") with 43. change equals with 61. change amp with 38.
  change (chr "/") with 47. change (chr "#") with 35. lia.
Qed.

Lemma query_chars_clean (q : str) :
  forallb query_char q = true ->
  free_of unsafe q = true /\ has (chr "#") q = false /\
  free_of is_slash q = true.
Proof.
  intros H. rewrite forallb_forall in H. repeat split.
  - apply forallb_forall. intros c Hc. apply H, query_char_props in Hc.
    now destruct Hc as [_ [-> _]].
  - apply has_false_In. intros Hc. apply H, query_char_props in Hc.
    destruct Hc as [_ [_ Hc]]. now rewrite Z.eqb_refl in Hc.
  - apply forallb_forall. intros c Hc. apply H, query_char_props in Hc.
    now destruct Hc as [-> _].
Qed.

(** A text with no slash at its end is left alone by [rstrip]. *)
Lemma rstrip_free (s : str) :
  s <> [] -> free_of is_slash s = true -> rstrip is_slash s = s.
Proof.
  intros Hne Hs. apply rstrip_fix. right.
  destruct (exists_last Hne) as [a [c ->]]. exists a, c. split; [reflexivity|].
  unfold free_of in Hs. rewrite forallb_app in Hs.
  apply andb_true_iff in Hs as [_ Hs]. cbn in Hs.
  now destruct (is_slash c).
Qed.

Lemma rstrip_app_free (a b : str) :
  b <> [] -> free_of is_slash b = true ->
  rstrip is_slash (a ++ b) = a ++ b.
Proof.
  intros Hne Hb. rewrite rstrip_app_keep; rewrite rstrip_free; easy.
Qed.

Lemma delim_free_slash (n : str) :
  free_of is_delim n = true -> free_of is_slash n = true.
Proof.
  unfold free_of. rewrite !forallb_forall. intros H c Hc. specialize (H c Hc).
  unfold is_delim in H. unfold is_slash. destruct (c =? chr "/"); easy.
Qed.

Lemma endswith_app (suf a s : str) :
  endswith suf s = true -> endswith suf (a ++ s) = true.
Proof.
  rewrite !endswith_spec. intros [t ->]. exists (a ++ t). now rewrite app_assoc.
Qed.

(** ** URLs as [urlunsplit] writes them *)

Section Written.
Context {rt : Runtime}.

Lemma urlunsplit_written (s n p q f : str) :
  urlunsplit s n p q f =
  if authority s n p then written s true n (lead_slash p) q f
  else written s false n p q f.
Proof.
  unfold urlunsplit, authority, dslash, written, lead_slash, scheme_part,
    query_part, fragment_part.
  destruct (truthy n || _);
    destruct (truthy s), (truthy q), (truthy f);
    rewrite <- ?app_assoc, ?app_nil_r; reflexivity.
Qed.

Lemma dslash_cases (p : str) :
  dslash p = true <-> exists r, p = py "//" ++ r.
Proof.
  unfold dslash. split.
  - apply slice_to_2_slashes.
  - intros [r ->]. reflexivity.
Qed.

Lemma dslash_startswith (p : str) : dslash p = startswith (py "//") p.
Proof.
  destruct (dslash p) eqn:E.
  - apply dslash_cases in E as [r ->]. reflexivity.
  - destruct (startswith (py "//") p) eqn:E'; [|reflexivity].
    apply startswith_spec in E' as [t ->].
    assert (dslash (py "//" ++ t) = true) by (apply dslash_cases; now exists t).
    congruence.
Qed.

Lemma dslash_prefix (a t : str) : dslash (a ++ t) = false -> dslash a = false.
Proof.
  intros H. destruct (dslash a) eqn:E; [|reflexivity].
  apply dslash_cases in E as [r ->].
  assert (dslash ((py "//" ++ r) ++ t) = true)
    by (apply dslash_cases; exists (r ++ t); now rewrite <- app_assoc).
  congruence.
Qed.

Lemma rooted_lead_slash (p : str) : rooted (lead_slash p).
Proof.
  unfold lead_slash, rooted. destruct p as [|c p]; [now left|].
  cbn [truthy andb]. destruct (eqb_str (slice_to (c :: p) 1) (py "/")) eqn:E;
    cbn [negb].
  - right. apply eqb_str_eq in E. cbn in E. injection E as ->. now exists p.
  - right. now exists (c :: p).
Qed.

Lemma lead_slash_rooted (p : str) : rooted p -> lead_slash p = p.
Proof. intros [-> | [r ->]]; reflexivity. Qed.

Lemma lead_slash_cases (p : str) :
  lead_slash p = p \/
  (lead_slash p = chr "/" :: p /\ exists c r, p = c :: r /\ c <> chr "/").
Proof.
  unfold lead_slash. destruct p as [|c p]; [now left|]. cbn [truthy andb].
  destruct (eqb_str (slice_to (c :: p) 1) (py "/")) eqn:E; cbn [negb];
    [now left | right].
  split; [reflexivity|]. exists c, p. split; [reflexivity|].
  intros ->. apply eqb_str_neq in E. now apply E.
Qed.

Lemma dslash_lead_slash (p : str) : dslash p = false -> dslash (lead_slash p) = false.
Proof.
  intros H. destruct (lead_slash_cases p) as [-> | [-> [c [r [-> Hc]]]]];
    [assumption|].
  destruct (dslash (chr "/" :: c :: r)) eqn:E; [|reflexivity].
  apply dslash_cases in E as [t E].
  change (py "//" ++ t) with (chr "/" :: chr "/" :: t) in E.
  injection E as E _. congruence.
Qed.

(** *** Texts without a scheme *)

Lemma split_scheme_valid (pre rest : str) :
  forallb scheme_char pre = true ->
  (exists c r, pre = c :: r /\ is_alpha c = true) ->
  split_scheme (pre ++ chr ":" :: rest) = (lower pre, rest).
Proof.
  intros Hchars [c [r [-> Hc]]]. unfold split_scheme, find.
  rewrite find_from_found by now apply scheme_char_not_colon.
  cbn [Z.add]. rewrite slice_to_app, slice_from_app1, Hchars.
  replace (len (c :: r) >? 0) with true
    by (rewrite len_cons; pose proof (len_nonneg r); lia).
  cbn -[len lower]. rewrite Hc.
  replace (c <? 128) with true; [reflexivity|].
  symmetry. apply scheme_char_ascii. cbn in Hchars.
  now apply andb_true_iff in Hchars.
Qed.

Lemma split_scheme_plain (b : str) :
  no_scheme_prefix b -> split_scheme b = ([], b).
Proof.
  intros H. destruct (split_scheme_cases b) as [E | [pre [rest [-> [Hc [Ha _]]]]]];
    [assumption|].
  exfalso. now apply (H pre rest).
Qed.

Lemma no_scheme_prefix_of (b : str) :
  fst (split_scheme b) = [] -> no_scheme_prefix b.
Proof.
  intros H pre rest -> Hc Ha. rewrite split_scheme_valid in H by assumption.
  cbn [fst] in H. destruct Ha as [c [r [-> _]]].
  rewrite lower_ascii in H by now apply scheme_chars_ascii. discriminate.
Qed.

Lemma no_scheme_prefix_app (a t : str) :
  no_scheme_prefix (a ++ t) -> no_scheme_prefix a.
Proof.
  intros H pre rest -> Hc Ha. apply (H pre (rest ++ t)); try assumption.
  now rewrite <- app_assoc.
Qed.

Lemma plain_prefix (a t : str) : plain (a ++ t) -> plain a.
Proof.
  intros [Hh Hp]. split; [|now apply no_scheme_prefix_app in Hp].
  now destruct a.
Qed.

Lemma lstrip_head (p : Z -> bool) (s : str) :
  match lstrip p s with c :: _ => p c = false | [] => True end.
Proof.
  induction s as [|c s IH]; [exact I|]. cbn [lstrip].
  destruct (p c) eqn:E; [assumption | exact E].
Qed.

Lemma preprocess_head (url : str) :
  match preprocess url with
  | c :: _ => c0_control_or_space c = false
  | [] => True
  end.
Proof.
  unfold preprocess. pose proof (lstrip_head c0_control_or_space url) as H.
  destruct (lstrip c0_control_or_space url) as [|c r]; [exact I|].
  cbn [fold_left _UNSAFE_URL_BYTES_TO_REMOVE].
  assert (Hd : forall b, c0_control_or_space b = true -> forall x,
            delete b (c :: x) = c :: delete b x).
  { intros b Hb x. unfold delete. cbn [filter].
    destruct (c =? b) eqn:E; [|reflexivity].
    apply Z.eqb_eq in E. subst. congruence. }
  rewrite !Hd by reflexivity. exact H.
Qed.

Lemma delim_not_alpha (d : Z) : is_delim d = true -> is_alpha d = false.
Proof.
  unfold is_delim, is_alpha, is_upper, is_lower.
  change (chr "/") with 47. change (chr "?") with 63. change (chr "#") with 35.
  lia.
Qed.

Lemma delim_not_blank (d : Z) : is_delim d = true -> c0_control_or_space d = false.
Proof.
  unfold is_delim, c0_control_or_space.
  change (chr "/") with 47. change (chr "?") with 63. change (chr "#") with 35.
  lia.
Qed.

(** A text that opens with a delimiter is plain. *)
Lemma plain_delim (d : Z) (r : str) : is_delim d = true -> plain (d :: r).
Proof.
  intros Hd. split; [now apply delim_not_blank|].
  intros pre rest E _ [c [r' [-> Hc]]]. injection E as <- _.
  apply delim_not_alpha in Hd. congruence.
Qed.

Lemma plain_nil : plain [].
Proof.
  split; [exact I|]. intros pre rest E. now destruct pre.
Qed.

(** Without scheme and host, the path [urlsplit] returns is plain. *)
Lemma urlsplit_plain (url : str) (sr : SplitResult) :
  urlsplit url = Ok sr -> s_scheme sr = [] -> s_netloc sr = [] ->
  plain (s_path sr).
Proof.
  rewrite urlsplit_steps.
  destruct (split_scheme (preprocess url)) as [s u1] eqn:Hs.
  destruct (split_netloc u1) as [[n u2]|] eqn:Hn; [|discriminate]. cbn [bind].
  destruct (split_fragment_cases u2) as [u3 [f [-> [_ Hf]]]].
  destruct (split_query_cases u3) as [p [q [-> [_ Hq]]]].
  destruct (_checknetloc n) as [[]|]; [|discriminate]. cbn [bind].
  intros [= <-]. cbn [s_scheme s_netloc s_path]. intros -> ->.
  assert (Htail : exists t, u2 = p ++ t).
  { destruct Hf as [-> | [-> _]]; destruct Hq as [-> | [-> _]].
    - eexists. now rewrite <- app_assoc.
    - now eexists.
    - now eexists.
    - exists []. now rewrite app_nil_r. }
  destruct Htail as [t ->].
  assert (Hu1 : u1 = preprocess url /\ no_scheme_prefix u1).
  { pose proof (no_scheme_prefix_of (preprocess url)) as Hp.
    rewrite Hs in Hp. specialize (Hp eq_refl).
    rewrite (split_scheme_plain _ Hp) in Hs. injection Hs as <-. now split. }
  destruct Hu1 as [Hu1 Hp].
  apply split_netloc_cases in Hn as [[_ [E _]] | [E [_ [Hafter _]]]].
  - apply (plain_prefix p t). rewrite E. split; [|assumption].
    rewrite Hu1. apply preprocess_head.
  - destruct Hafter as [E' | [d [r [E' Hd]]]].
    + apply app_eq_nil in E' as [-> _]. apply plain_nil.
    + apply (plain_prefix p t). rewrite E'. now apply plain_delim.
Qed.

(** *** Reading back *)

Lemma tail_opens (q f : str) : opens_tail (query_part q ++ fragment_part f).
Proof.
  unfold query_part, fragment_part, opens_tail.
  destruct q as [|c q]; cbn [truthy app].
  - destruct f as [|d f]; cbn [truthy app]; [now left | right].
    exists (chr "#"), (d :: f). split; [reflexivity | now right].
  - right. eexists _, _. split; [reflexivity | now left].
Qed.

Lemma dslash_body (p x : str) :
  dslash p = false -> opens_tail x -> dslash (p ++ x) = false.
Proof.
  intros Hp Hx. destruct (dslash (p ++ x)) eqn:E; [|reflexivity].
  apply dslash_cases in E as [t E].
  change (py "//" ++ t) with (chr "/" :: chr "/" :: t) in E.
  destruct p as [|c1 [|c2 p]].
  - destruct Hx as [-> | [d [r [-> [-> | ->]]]]]; cbn in E; discriminate.
  - destruct Hx as [-> | [d [r [-> [-> | ->]]]]]; cbn in E; discriminate.
  - cbn [app] in E. injection E as -> -> _. discriminate.
Qed.

Lemma plain_body (p x : str) : plain p -> opens_tail x -> plain (p ++ x).
Proof.
  intros [Hh Hp] Hx. split.
  - destruct p as [|c p]; [|assumption]. cbn [app].
    destruct Hx as [-> | [d [r [-> [-> | ->]]]]]; [exact I | reflexivity | reflexivity].
  - intros pre rest E Hc Ha. apply app_eq_app in E as [a [[E1 E2] | [E1 E2]]].
    + destruct a as [|c a].
      * cbn [app] in E2. rewrite app_nil_r in E1. subst.
        destruct Hx as [Hx | [d [r [Hx [-> | ->]]]]]; discriminate.
      * injection E2 as <- _. now apply (Hp pre a).
    + destruct a as [|c a].
      * cbn [app] in E2. subst.
        destruct Hx as [Hx | [d [r [Hx [-> | ->]]]]]; discriminate.
      * subst pre. rewrite forallb_app in Hc.
        apply andb_true_iff in Hc as [_ Hc]. cbn [forallb] in Hc.
        apply andb_true_iff in Hc as [Hc _].
        destruct Hx as [Hx | [d [r [Hx [-> | ->]]]]]; [now subst|..];
          rewrite E2 in Hx; injection Hx as -> _; discriminate.
Qed.

Lemma preprocess_plain (b : str) :
  plain b -> free_of unsafe b = true -> preprocess b = b.
Proof.
  intros [Hh _] Hc. destruct b as [|c b]; [reflexivity|].
  now apply preprocess_id.
Qed.

(** [urlsplit] reads back the components a URL was written from. *)
Lemma urlsplit_written (s : str) (auth : bool) (n p q f : str) :
  scheme_wf s -> free_of is_delim n = true ->
  bracket_checks n = Ok tt -> _checknetloc n = Ok tt ->
  has (chr "?") p = false -> has (chr "#") p = false ->
  has (chr "#") q = false ->
  free_of unsafe (n ++ p ++ q ++ f) = true ->
  (if auth then rooted p
   else n = [] /\ dslash p = false /\ (s = [] -> plain p)) ->
  urlsplit (written s auth n p q f) = Ok (mkSplit s n p q f).
Proof.
  intros Hs Hn Hb Hck Hpq Hpf Hq Hclean Hshape.
  rewrite urlsplit_steps. unfold written.
  set (tail := query_part q ++ fragment_part f).
  set (body := (if auth then py "//" ++ n else []) ++ p ++ tail).
  rewrite !free_of_app in Hclean.
  apply andb_true_iff in Hclean as [Hcn Hclean].
  apply andb_true_iff in Hclean as [Hcp Hclean].
  apply andb_true_iff in Hclean as [Hcq Hcf].
  assert (Htail : free_of unsafe tail = true).
  { unfold tail. rewrite free_of_app.
    now rewrite query_part_clean, fragment_part_clean. }
  assert (Hbody : free_of unsafe body = true).
  { unfold body. rewrite !free_of_app, Hcp, Htail.
    destruct auth; [|reflexivity]. now rewrite free_of_app, Hcn. }
  assert (Hopen : opens_tail tail) by apply tail_opens.
  assert (Hsplit : split_scheme (preprocess (scheme_part s ++ body)) = (s, body)).
  { unfold scheme_part. destruct Hs as [-> | Hs'].
    - cbn [truthy app]. destruct auth.
      + unfold body. change ((py "//" ++ n) ++ p ++ tail)
          with (chr "/" :: chr "/" :: n ++ p ++ tail).
        rewrite preprocess_id; [apply split_scheme_slash | reflexivity | exact Hbody].
      + destruct Hshape as [_ [_ Hplain]]. unfold body in *. cbn [app] in *.
        specialize (Hplain eq_refl).
        pose proof (plain_body _ _ Hplain Hopen) as Hpb.
        rewrite preprocess_plain by assumption.
        apply split_scheme_plain. now destruct Hpb.
    - pose proof (or_intror Hs' : scheme_wf s) as Hs.
      destruct Hs' as [Hc [Hu [c [r [-> Ha]]]]]. cbn [truthy].
      rewrite <- app_assoc.
      change (py ":" ++ body) with (chr ":" :: body).
      change ((c :: r) ++ chr ":" :: body) with (c :: r ++ chr ":" :: body).
      rewrite preprocess_id.
      + now apply (split_scheme_found (c :: r)).
      + now apply alpha_not_blank.
      + change (c :: r ++ chr ":" :: body) with ((c :: r) ++ [chr ":"] ++ body).
        rewrite free_of_app, (scheme_wf_clean _ Hs), free_of_app. exact Hbody. }
  rewrite Hsplit.
  assert (Hnetloc : split_netloc body = Ok (n, p ++ tail)).
  { unfold body. destruct auth.
    - rewrite <- app_assoc. apply split_netloc_found; try assumption.
      unfold tail. rewrite app_assoc. now apply after_netloc_parts.
    - destruct Hshape as [-> [Hd _]]. cbn [app]. unfold split_netloc.
      fold (dslash (p ++ tail)). now rewrite dslash_body. }
  rewrite Hnetloc. cbn [bind]. unfold tail. rewrite app_assoc.
  rewrite split_fragment_part.
  - rewrite split_query_part, Hck by assumption. reflexivity.
  - rewrite has_app, Hpf. now apply has_query_part.
Qed.

(** *** The canonicalizer, step by step *)

Lemma strip_tracking_params_try_steps (url : str) :
  strip_tracking_params_try url =
  sr <- urlsplit url ;;
  new_query <- urlencode (filter_query (parse_qs (s_query sr))) ;;
  Ok (rstrip is_slash
        (urlunsplit (s_scheme sr) (s_netloc sr)
                    (rejoin (s_scheme sr) (s_path sr))
                    new_query (s_fragment sr))).
Proof.
  unfold strip_tracking_params_try. rewrite urlparse_steps.
  destruct (urlsplit url) as [sr|]; [|reflexivity]. cbn [bind].
  unfold rejoin. destruct (split_params (s_scheme sr) (s_path sr)) as [p ps].
  reflexivity.
Qed.

Lemma rstrip_clean (f : str) :
  free_of unsafe f = true -> free_of unsafe (rstrip is_slash f) = true.
Proof.
  intros H. destruct (rstrip_prefix is_slash f) as [t [Hf _]].
  rewrite Hf, free_of_app in H. now apply andb_true_iff in H.
Qed.

Lemma canonicalize_cases (u : str) :
  canonicalize u = u \/ strip_tracking_params_try u = Ok (canonicalize u).
Proof.
  unfold canonicalize. destruct u as [|c u]; [now left|]. cbn [truthy negb].
  destruct (strip_tracking_params_try (c :: u)); [now right | now left].
Qed.

Lemma canonicalize_fixed (c : str) :
  strip_tracking_params_try c = Ok c -> canonicalize c = c.
Proof.
  intros H. unfold canonicalize. rewrite H. now destruct (negb (truthy c)).
Qed.

Lemma written_app (s : str) (auth : bool) (n p q f : str) :
  written s auth n p q f
  = (scheme_part s ++ (if auth then py "//" ++ n else [])) ++
    p ++ query_part q ++ fragment_part f.
Proof. unfold written. now rewrite <- app_assoc. Qed.

Lemma rstrip_scheme_part (s : str) :
  rstrip is_slash (scheme_part s) = scheme_part s.
Proof.
  unfold scheme_part. destruct (truthy s); [|reflexivity].
  now apply rstrip_last.
Qed.

(** What stripping the slashes off the end of a written URL leaves: the
    URL written from a shorter fragment, or from a shorter path when there
    is no query and no fragment, or the scheme alone. *)
Lemma rstrip_written (s : str) (auth : bool) (n p q f : str) :
  free_of is_delim n = true -> forallb query_char q = true ->
  endswith (py "#") (rstrip is_slash (written s auth n p q f)) = false ->
  (exists p' f',
     rstrip is_slash (written s auth n p q f) = written s auth n p' q f' /\
     ((p' = p /\ f' = rstrip is_slash f /\ (q <> [] \/ f' <> [])) \/
      (p' = rstrip is_slash p /\ q = [] /\ f = [] /\ f' = [] /\
       (p' <> [] \/ (auth = true /\ n <> []))))) \/
  (q = [] /\ f = [] /\
   rstrip is_slash (written s auth n p q f) = scheme_part s).
Proof.
  intros Hn Hq Hend. rewrite written_app in *.
  set (A := scheme_part s ++ (if auth then py "//" ++ n else [])) in *.
  destruct f as [|cf f].
  - unfold fragment_part in *. cbn [truthy] in *. rewrite !app_nil_r in *.
    destruct q as [|cq q].
    + unfold query_part in *. cbn [truthy] in *. rewrite !app_nil_r in *.
      destruct (rstrip is_slash p) as [|c r] eqn:E.
      * apply rstrip_nil_iff in E. rewrite rstrip_app_drop by assumption.
        destruct auth; [destruct n as [|cn n]|].
        -- right. repeat split. unfold A. rewrite app_nil_r.
           rewrite rstrip_app_drop by reflexivity. apply rstrip_scheme_part.
        -- left. exists [], []. split.
           ++ rewrite written_app. unfold query_part, fragment_part.
              cbn [truthy]. rewrite !app_nil_r. fold A. unfold A.
              rewrite app_assoc. apply rstrip_app_free; [easy|].
              now apply delim_free_slash.
           ++ right. repeat split. right. now split.
        -- right. repeat split. unfold A. rewrite app_nil_r.
           apply rstrip_scheme_part.
      * left. exists (c :: r), []. split.
        -- rewrite written_app. unfold query_part, fragment_part.
           cbn [truthy]. rewrite !app_nil_r. fold A. rewrite <- E.
           apply rstrip_app_keep. now rewrite E.
        -- right. repeat split. now left.
    + left. exists p, []. split; [|left; repeat split; now left].
      rewrite written_app. unfold fragment_part. cbn [truthy]. rewrite !app_nil_r.
      fold A. rewrite !app_assoc. unfold query_part. cbn [truthy].
      apply rstrip_app_free; [now destruct (py "?")|].
      apply query_chars_clean in Hq as [_ [_ Hq]]. exact Hq.
  - destruct (rstrip is_slash (cf :: f)) as [|c r] eqn:E.
    + exfalso. apply rstrip_nil_iff in E.
      unfold fragment_part in Hend. cbn [truthy] in Hend.
      rewrite !app_assoc in Hend. rewrite rstrip_app_drop in Hend by assumption.
      change (py "#") with [chr "#"] in Hend.
      rewrite rstrip_last in Hend by reflexivity.
      assert (endswith [chr "#"] (((A ++ p) ++ query_part q) ++ [chr "#"]) = true)
        by (apply endswith_spec; now eexists).
      congruence.
    + left. exists p, (c :: r). split; [|left; repeat split; now right].
      rewrite written_app. fold A. unfold fragment_part. cbn [truthy].
      rewrite !app_assoc. rewrite rstrip_app_keep by now rewrite E.
      now rewrite E.
Qed.

(** A scheme alone is its own canonical form. *)
Lemma scheme_only (s : str) :
  scheme_wf s ->
  strip_tracking_params_try (scheme_part s) = Ok (scheme_part s).
Proof.
  intros Hs. destruct s as [|c s]; [reflexivity|].
  assert (Hw : written (c :: s) false [] [] [] [] = scheme_part (c :: s)).
  { unfold written, query_part, fragment_part. cbn [truthy].
    now rewrite !app_nil_r. }
  assert (Hread : urlsplit (scheme_part (c :: s))
                  = Ok (mkSplit (c :: s) [] [] [] [])).
  { rewrite <- Hw.
    apply (urlsplit_written (c :: s) false [] [] [] [] Hs
             eq_refl eq_refl eq_refl eq_refl eq_refl eq_refl eq_refl).
    split; [reflexivity|]. split; [reflexivity | discriminate]. }
  rewrite strip_tracking_params_try_steps, Hread.
  cbn [bind s_scheme s_netloc s_path s_query s_fragment].
  change (urlencode (filter_query (parse_qs []))) with (@Ok str []).
  cbn [bind].
  assert (Hr : rejoin (c :: s) [] = []).
  { unfold rejoin, split_params. cbn [has existsb]. now rewrite andb_false_r. }
  rewrite Hr, urlunsplit_written. f_equal.
  destruct (authority (c :: s) [] []).
  - unfold written, lead_slash, query_part, fragment_part. cbn [truthy andb app].
    rewrite !app_nil_r. rewrite rstrip_app_drop by reflexivity.
    apply rstrip_scheme_part.
  - rewrite Hw. apply rstrip_scheme_part.
Qed.

(** *** Paths that can be read back *)

Lemma rooted_prefix (a t : str) : rooted (a ++ t) -> rooted a.
Proof.
  intros [H | [r H]]; [apply app_eq_nil in H as [-> _]; now left|].
  destruct a as [|c a]; [now left | right]. injection H as -> _. now exists a.
Qed.

Lemma path_ok_prefix (s : str) (auth : bool) (n a t : str) :
  path_ok s auth n (a ++ t) -> path_ok s auth n a.
Proof.
  intros [Hq [Hf [Hc [Hshape Hd]]]].
  apply has_app_false in Hq as [Hq _]. apply has_app_false in Hf as [Hf _].
  rewrite free_of_app in Hc. apply andb_true_iff in Hc as [Hc _].
  split; [assumption|]. split; [assumption|]. split; [assumption|]. split.
  - destruct auth.
    + now apply rooted_prefix in Hshape.
    + destruct Hshape as [Hn [Hds Hp]].
      split; [assumption|]. split.
      * now apply dslash_prefix in Hds.
      * intros Hs. apply (plain_prefix a t). now apply Hp.
  - intros Hn. apply (dslash_prefix a t). now apply Hd.
Qed.

Lemma path_ok_rstrip (s : str) (auth : bool) (n x : str) :
  path_ok s auth n x -> path_ok s auth n (rstrip is_slash x).
Proof.
  intros H. destruct (rstrip_prefix is_slash x) as [t [Hx _]].
  rewrite Hx in H. now apply path_ok_prefix in H.
Qed.

Lemma rejoin_prefix (scheme x : str) : exists t, x = rejoin scheme x ++ t.
Proof.
  destruct (rejoin_cases scheme x) as [E | [a [E [-> _]]]].
  - exists []. now rewrite E, app_nil_r.
  - now exists [semicolon].
Qed.

Lemma path_ok_lead_slash (s : str) (n x : str) :
  has (chr "?") x = false -> has (chr "#") x = false ->
  free_of unsafe x = true -> (n = [] -> dslash x = false) ->
  path_ok s true n (lead_slash x).
Proof.
  intros Hq Hf Hc Hd.
  assert (H : has (chr "?") (lead_slash x) = false /\
              has (chr "#") (lead_slash x) = false /\
              free_of unsafe (lead_slash x) = true).
  { destruct (lead_slash_cases x) as [-> | [-> _]]; [tauto|].
    rewrite !has_cons, free_of_cons, Hq, Hf, Hc. now repeat split. }
  destruct H as [H1 [H2 H3]].
  split; [assumption|]. split; [assumption|]. split; [assumption|]. split.
  - apply rooted_lead_slash.
  - intros Hn. now apply dslash_lead_slash, Hd.
Qed.

Lemma rejoin_lead_slash (scheme x : str) :
  rejoin scheme x = x -> rejoin scheme (lead_slash x) = lead_slash x.
Proof.
  intros H. destruct (lead_slash_cases x) as [-> | [-> [c [r [-> _]]]]];
    [assumption|].
  now apply rejoin_lead.
Qed.

Lemma dslash_join (path params : str) :
  startswith (py "//") path = false -> dslash (join_params path params) = false.
Proof.
  rewrite <- dslash_startswith. intros H. unfold join_params.
  destruct (truthy params); [|assumption].
  destruct (dslash (path ++ py ";" ++ params)) eqn:E; [|reflexivity].
  apply dslash_cases in E as [t E].
  change (py "//" ++ t) with (chr "/" :: chr "/" :: t) in E.
  change (py ";" ++ params) with (chr ";" :: params) in E.
  destruct path as [|c1 [|c2 path]]; cbn [app] in E.
  - discriminate.
  - injection E as _ E _. discriminate.
  - injection E as -> -> _. discriminate.
Qed.

Lemma urlparse_of_split (url : str) (sr : SplitResult) :
  urlsplit url = Ok sr ->
  exists p, urlparse url = Ok p /\ netloc p = s_netloc sr /\
            rejoin (s_scheme sr) (s_path sr) = join_params (path p) (params p).
Proof.
  intros H. rewrite urlparse_steps, H. cbn [bind]. unfold rejoin.
  destruct (split_params (s_scheme sr) (s_path sr)) as [pa ps].
  eexists. repeat split.
Qed.

Lemma authority_same (s n x y : str) :
  (n = [] -> dslash x = false) -> (n = [] -> dslash y = false) ->
  authority s n x = authority s n y.
Proof.
  intros Hx Hy. unfold authority. destruct n as [|c n]; [|reflexivity].
  now rewrite Hx, Hy.
Qed.

(** C4, amended: on a URL that parses with a host, or with a path that
    does not open with two slashes, and whose canonical form does not end
    in ['#'] or [';'], canonicalizing the canonical form changes nothing. *)
Theorem canonicalize_idempotent (u : str) :
  (forall p, urlparse u = Ok p ->
             netloc p <> [] \/ startswith (py "//") (path p) = false) ->
  endswith (py "#") (canonicalize u) = false ->
  endswith (py ";") (canonicalize u) = false ->
  canonicalize (canonicalize u) = canonicalize u.
Proof.
  intros Hhost Hhash Hsemi.
  destruct (canonicalize_cases u) as [E | Htry]; [now rewrite !E|].
  apply canonicalize_fixed.
  set (c := canonicalize u) in *. clearbody c.
  rewrite strip_tracking_params_try_steps in Htry.
  destruct (urlsplit u) as [sr|] eqn:Hsplit; [|discriminate]. cbn [bind] in Htry.
  destruct (urlencode (filter_query (parse_qs (s_query sr)))) as [q|] eqn:Henc;
    [|discriminate]. cbn [bind] in Htry. apply Ok_inj in Htry.
  pose proof (urlsplit_wf _ _ Hsplit) as [Hs Hn Hb Hck Hpq Hpf Hpa Hqf Hclean].
  pose proof (urlsplit_plain _ _ Hsplit) as Hplain.
  destruct (urlparse_of_split _ _ Hsplit) as [pr [Hpr [Hprn Hprp]]].
  specialize (Hhost pr Hpr). rewrite Hprn in Hhost.
  destruct sr as [s n p0 q0 f].
  cbn [s_scheme s_netloc s_path s_query s_fragment] in *.
  set (P := rejoin s p0) in *.
  assert (Hd : n = [] -> dslash P = false).
  { intros Hn0. destruct Hhost as [Hh | Hh]; [contradiction|].
    rewrite Hprp. now apply dslash_join. }
  assert (Hbr : bracket_checks n = Ok tt).
  { destruct n as [|cn n]; [reflexivity | now apply Hb]. }
  rewrite !free_of_app in Hclean.
  apply andb_true_iff in Hclean as [Hcn Hclean].
  apply andb_true_iff in Hclean as [Hcp Hclean].
  apply andb_true_iff in Hclean as [_ Hcf].
  pose proof (query_roundtrip _ _ Henc) as [Henc' Hqc].
  pose proof (query_chars_clean _ Hqc) as [Hqclean [Hqhash _]].
  (* the path the URL is written with *)
  destruct (rejoin_prefix s p0) as [t0 Hp0]. fold P in Hp0.
  assert (HP : has (chr "?") P = false /\ has (chr "#") P = false /\
               free_of unsafe P = true).
  { rewrite Hp0 in Hpq, Hpf, Hcp.
    apply has_app_false in Hpq as [? _]. apply has_app_false in Hpf as [? _].
    rewrite free_of_app in Hcp. apply andb_true_iff in Hcp as [? _]. tauto. }
  destruct HP as [HPq [HPf HPc]].
  set (auth := authority s n P) in *.
  set (P1 := if auth then lead_slash P else P).
  assert (Hok : path_ok s auth n P1).
  { unfold P1. destruct auth eqn:Ea.
    - now apply path_ok_lead_slash.
    - assert (Hn0 : n = []).
      { unfold auth, authority in Ea. now destruct n. }
      split; [assumption|]. split; [assumption|]. split; [assumption|].
      split; [|assumption].
      split; [assumption|]. split; [now apply Hd|].
      intros Hs0. apply (plain_prefix P t0). rewrite <- Hp0. now apply Hplain. }
  assert (Hstable : rejoin s P1 = P1).
  { unfold P1. destruct auth; [apply rejoin_lead_slash|]; apply rejoin_idem. }
  assert (Hc0 : urlunsplit s n P q f = written s auth n P1 q f).
  { rewrite urlunsplit_written. fold auth. unfold P1. now destruct auth. }
  rewrite Hc0 in Htry. rewrite <- Htry in Hhash.
  assert (Hidem : rstrip is_slash c = c) by (rewrite <- Htry; apply rstrip_idem).
  destruct (rstrip_written s auth n P1 q f Hn Hqc Hhash)
    as [[p' [f' [Hc Hcases]]] | [_ [_ Hc]]].
  2:{ rewrite Hc in Htry. rewrite <- Htry. now apply scheme_only. }
  rewrite Hc in Htry.
  assert (Hok' : path_ok s auth n p').
  { destruct Hcases as [[-> _] | [-> _]]; [assumption | now apply path_ok_rstrip]. }
  assert (Hstable' : rejoin s p' = p').
  { destruct Hcases as [[-> _] | [Hp' [-> [-> [-> Hne]]]]]; [assumption|].
    apply rejoin_id.
    destruct (endswith (py ";") p') eqn:E; [|reflexivity].
    rewrite <- Htry, written_app in Hsemi.
    cbn [query_part fragment_part truthy] in Hsemi.
    rewrite !app_nil_r in Hsemi. now rewrite endswith_app in Hsemi. }
  assert (Hcf' : free_of unsafe f' = true).
  { destruct Hcases as [[_ [-> _]] | [_ [_ [_ [-> _]]]]];
      [now apply rstrip_clean | reflexivity]. }
  destruct Hok' as [Hq' [Hf' [Hc' [Hshape' Hd']]]].
  assert (Hread : urlsplit c = Ok (mkSplit s n p' q f')).
  { rewrite <- Htry. apply urlsplit_written; try assumption.
    now rewrite !free_of_app, Hcn, Hc', Hqclean, Hcf'. }
  rewrite strip_tracking_params_try_steps, Hread. cbn [bind].
  cbn [s_scheme s_netloc s_path s_query s_fragment].
  rewrite Henc'. cbn [bind]. rewrite Hstable'. f_equal.
  rewrite urlunsplit_written.
  rewrite (authority_same s n p' P Hd' Hd). fold auth.
  assert (Hl : (if auth then written s true n (lead_slash p') q f'
                else written s false n p' q f') = written s auth n p' q f').
  { destruct auth; [|reflexivity]. now rewrite lead_slash_rooted. }
  now rewrite Hl, Htry.
Qed.

End Written.

(** On a single-page-application URL the second pass removes the ['#']
    the first pass left behind, whatever the runtime. *)
Lemma canonicalize_twice {rt : Runtime} :
  canonicalize (py "https://example.com/page#/") = py "https://example.com/page#" /\
  canonicalize (py "https://example.com/page#") = py "https://example.com/page".
Proof. split; reflexivity. Qed.

(** The same with an empty last path parameter: the second pass drops the
    [';'] the first pass left at the end. *)
Lemma canonicalize_twice_params {rt : Runtime} :
  canonicalize (py "https://example.com/page;/") = py "https://example.com/page;" /\
  canonicalize (py "https://example.com/page;") = py "https://example.com/page".
Proof. split; reflexivity. Qed.

(** Without a host, slashes at the start of the path are read as the
    slashes of an authority: each pass removes two of them. *)
Lemma canonicalize_twice_slashes {rt : Runtime} :
  canonicalize (py "/////a") = py "///a" /\
  canonicalize (py "///a") = py "/a".
Proof. split; reflexivity. Qed.

(** C4 as stated fails: canonicalizing [https://example.com/page#/] twice
    does not give what canonicalizing it once gives. *)
Lemma canonicalize_not_idempotent :
  canonicalize (rt := ascii_runtime)
    (canonicalize (rt := ascii_runtime) (py "https://example.com/page#/"))
  <> canonicalize (rt := ascii_runtime) (py "https://example.com/page#/").
Proof. vm_compute. discriminate. Qed.

(** C4, amended, on a URL with an upper-case host, a slash at the end of
    its path, a tracking parameter and a repeated key. *)
Lemma canonicalize_idempotent_witness :
  canonicalize (rt := ascii_runtime)
    (canonicalize (rt := ascii_runtime)
       (py "https://Example.com/Page/?utm_source=x&b=2&a=1&b=3"))
  = canonicalize (rt := ascii_runtime)
      (py "https://Example.com/Page/?utm_source=x&b=2&a=1&b=3").
Proof.
  apply (canonicalize_idempotent (rt := ascii_runtime)).
  - intros p H. vm_compute in H. apply Ok_inj in H. subst p.
    left. discriminate.
  - reflexivity.
  - reflexivity.
Defined.

(** * The comparator *)

(** ** The comparator: errors *)

Section ComparatorErrors.
Context {rt : Runtime}.

(** C3: on a URL whose host has an unmatched bracket the comparator
    raises [ValueError] to its caller. *)
Theorem compare_urls_raises :
  compare_urls (py "http://[example.com/a") (py "http://example.com/a")
  = Raise ValueError.
Proof. reflexivity. Qed.

(** Such a URL reaches the comparator: the fetch fails open on it and the
    canonicalizer hands it back. *)
Lemma unparseable_url_reaches_comparator :
  returned (verify_urls (fun _ => ClientError)
              [py "http://[example.com/a"] [py "http://example.com/a"])
  = [(py "http://[example.com/a", py "http://example.com/a")].
Proof. reflexivity. Qed.

Lemma main_raises :
  returned (main (fun _ => ClientError)
              [mkRow 1 (py "http://[example.com/a")]
              [mkRow 1 (py "http://example.com/a")])
  = Raise ValueError.
Proof. reflexivity. Qed.

End ComparatorErrors.

Ltac absurd_answer H :=
  apply Ok_inj in H;
  first [ discriminate H
        | injection H as H; vm_compute in H; discriminate H ].

(** ** The comparator *)

Section Comparator.
Context {rt : Runtime}.

(** [normalize_url_path] strips the slashes at the end, and then one
    [/cl/s] at the end when there is one. *)
Lemma normalize_url_path_spec (path : str) :
  (exists r, rstrip is_slash path = r ++ py "/cl/s" /\
             normalize_url_path path = r) \/
  ((forall r, rstrip is_slash path <> r ++ py "/cl/s") /\
   normalize_url_path path = rstrip is_slash path).
Proof.
  unfold normalize_url_path.
  destruct (endswith (py "/cl/s") (rstrip is_slash path)) eqn:E.
  - left. apply endswith_spec in E as [r E]. exists r. split; [assumption|].
    rewrite E, length_app. cbn [List.length py map list_ascii_of_string].
    replace (List.length r + 5 - 5)%nat with (List.length r) by lia.
    rewrite firstn_app, Nat.sub_diag, firstn_all. cbn. apply app_nil_r.
  - right. split; [|reflexivity]. intros r Hr.
    assert (endswith (py "/cl/s") (rstrip is_slash path) = true)
      by (apply endswith_spec; now exists r).
    congruence.
Qed.

Lemma compare_urls_parsed (url1 url2 : str) (p1 p2 : ParseResult) :
  urlparse url1 = Ok p1 -> urlparse url2 = Ok p2 ->
  compare_urls url1 url2 =
  Ok (if negb (eqb_str (netloc p1) (netloc p2))
      then (false, py "Different domains")
      else if negb (eqb_str (lower (normalize_url_path (path p1)))
                            (lower (normalize_url_path (path p2))))
           then (false, py "Different paths")
           else (true, py "URLs match")).
Proof.
  intros H1 H2. unfold compare_urls. rewrite H1, H2. cbn [bind].
  destruct (negb (eqb_str (netloc p1) (netloc p2))); [reflexivity|].
  now destruct (negb (eqb_str _ _)).
Qed.

(** C5: on two URLs that parse, the answer is [Different domains] exactly
    when the hosts differ as written; otherwise it is [Different paths]
    exactly when the normalized paths differ after lower-casing, and
    [URLs match] when they do not; the normalized path is the path without
    the slashes at its end and without one [/cl/s] after that; and two URLs
    with the same hosts and paths get the same answer whatever their
    queries and fragments. *)
Theorem compare_urls_spec (url1 url2 : str) (p1 p2 : ParseResult) :
  urlparse url1 = Ok p1 -> urlparse url2 = Ok p2 ->
  (compare_urls url1 url2 = Ok (false, py "Different domains")
   <-> netloc p1 <> netloc p2) /\
  (compare_urls url1 url2 = Ok (false, py "Different paths")
   <-> netloc p1 = netloc p2 /\
       lower (normalize_url_path (path p1))
       <> lower (normalize_url_path (path p2))) /\
  (compare_urls url1 url2 = Ok (true, py "URLs match")
   <-> netloc p1 = netloc p2 /\
       lower (normalize_url_path (path p1))
       = lower (normalize_url_path (path p2))) /\
  (forall path,
     (exists r, rstrip is_slash path = r ++ py "/cl/s" /\
                normalize_url_path path = r) \/
     ((forall r, rstrip is_slash path <> r ++ py "/cl/s") /\
      normalize_url_path path = rstrip is_slash path)) /\
  (forall url1' url2' p1' p2',
     urlparse url1' = Ok p1' -> urlparse url2' = Ok p2' ->
     netloc p1' = netloc p1 -> path p1' = path p1 ->
     netloc p2' = netloc p2 -> path p2' = path p2 ->
     compare_urls url1' url2' = compare_urls url1 url2).
Proof.
  intros H1 H2. pose proof (compare_urls_parsed _ _ _ _ H1 H2) as E.
  split; [|split; [|split; [|split]]].
  4: apply normalize_url_path_spec.
  4: { intros url1' url2' p1' p2' H1' H2' E1 E2 E3 E4.
       rewrite E, (compare_urls_parsed _ _ _ _ H1' H2'), E1, E2, E3, E4.
       reflexivity. }
  all: rewrite E; clear E.
  all: destruct (eqb_str (netloc p1) (netloc p2)) eqn:En;
    [apply eqb_str_eq in En | apply eqb_str_neq in En];
    (destruct (eqb_str (lower (normalize_url_path (path p1)))
                       (lower (normalize_url_path (path p2)))) eqn:Ep;
     [apply eqb_str_eq in Ep | apply eqb_str_neq in Ep]);
    cbn [negb].
  all: split; [intros H | intros H'].
  all: try reflexivity.
  all: try (absurd_answer H).
  all: try tauto.
Qed.

End Comparator.

Lemma compare_urls_spec_witness :
  compare_urls (rt := ascii_runtime)
    (py "https://A.com/X?x=1") (py "https://A.com/x/cl/s/#top")
  = Ok (true, py "URLs match").
Proof.
  apply (proj2 (proj1 (proj2 (proj2
    (compare_urls_spec (rt := ascii_runtime)
       (py "https://A.com/X?x=1") (py "https://A.com/x/cl/s/#top")
       (mkParse (py "https") (py "A.com") (py "/X") [] (py "x=1") [])
       (mkParse (py "https") (py "A.com") (py "/x/cl/s/") [] [] (py "top"))
       eq_refl eq_refl))))).
  split; reflexivity.
Defined.

(** * The orchestrator *)

(** ** The orchestrator: no overlap *)

Section NoOverlap.
Context {rt : Runtime}.

Lemma filter_none {A} (f : A -> bool) (l : list A) :
  (forall x, In x l -> f x = false) -> filter f l = [].
Proof.
  induction l as [|a l IH]; intros H; [reflexivity|].
  cbn. rewrite (H a (or_introl eq_refl)). apply IH.
  intros x Hx. apply H. now right.
Qed.

(** C9: when no identifier occurs in both sheets the run stops at the
    [No common IDs] check: nothing is requested, and no list of mismatches
    is built. *)
Theorem main_no_overlap (session : Session) (df1 df2 : DataFrame) :
  (forall i, In i (map id df1) -> ~ In i (map id df2)) ->
  main session df1 df2 = ([], Ok NoCommonIds).
Proof.
  intros Hdisjoint. unfold main.
  replace (intersection df1 df2) with (@nil Z); [reflexivity|].
  symmetry. apply filter_none. intros i Hi.
  apply nodup_In in Hi.
  destruct (existsb (Z.eqb i) (map id df2)) eqn:E; [|reflexivity].
  apply existsb_exists in E. destruct E as [j [Hj Hij]].
  apply Z.eqb_eq in Hij. subst j. now apply Hdisjoint in Hi.
Qed.

End NoOverlap.

Lemma main_no_overlap_witness :
  main (rt := ascii_runtime) (fun u => Response 200 u)
    [mkRow 1 (py "http://bit.ly/a"); mkRow 2 (py "http://bit.ly/b")]
    [mkRow 3 (py "https://example.com/a"); mkRow 4 (py "https://example.com/b")]
  = ([], Ok NoCommonIds).
Proof.
  apply (main_no_overlap (rt := ascii_runtime)).
  intros i [<- | [<- | []]] [H | [H | []]]; discriminate H.
Defined.

(** ** The orchestrator: archival mirrors *)

Section Archival.
Context {rt : Runtime}.

Lemma urlparse_urlsplit (url : str) (p : ParseResult) :
  urlparse url = Ok p ->
  exists sr, urlsplit url = Ok sr /\ netloc p = s_netloc sr.
Proof.
  rewrite urlparse_steps. destruct (urlsplit url) as [sr|]; [|discriminate].
  cbn [bind]. destruct (split_params (s_scheme sr) (s_path sr)).
  intros [= <-]. now exists sr.
Qed.

(** In a URL without tabulations and line ends, the host is a piece of the
    URL as it is written. *)
Lemma netloc_in_url (needle url : str) (p : ParseResult) :
  urlparse url = Ok p -> free_of unsafe url = true ->
  contains needle (netloc p) = true -> contains needle url = true.
Proof.
  intros Hp Hclean Hn.
  apply urlparse_urlsplit in Hp as [sr [Hsr E]]. rewrite E in Hn.
  apply urlsplit_netloc_infix in Hsr as [a [b Hsr]].
  apply preprocess_suffix in Hclean as [t ->]. rewrite Hsr.
  rewrite app_assoc. now apply contains_app.
Qed.

(** The loop adds records only for pairs whose second URL does not hold
    the archive's name. *)
Lemma process_results_archival df results i acc ms :
  process_results df results i acc = Ok ms ->
  forall m, In m ms ->
    In m acc \/
    (contains archive (m_url2 m) = false /\ In (m_url1 m, m_url2 m) results).
Proof.
  revert i acc. induction results as [|[u1 u2] rest IH]; intros i acc.
  - cbn. intros [= <-] m Hm. now left.
  - cbn [process_results]. fold archive.
    destruct (contains archive u2) eqn:Hc.
    + destruct (iloc_id df i); [|discriminate]. cbn [bind].
      intros H m Hm. destruct (IH _ _ H m Hm) as [Ha | [Hf Hin]]; [now left|].
      right. split; [assumption | now right].
    + destruct (compare_urls u1 u2) as [[matches details]|]; [|discriminate].
      cbn [bind]. destruct matches; cbn [negb].
      * intros H m Hm. destruct (IH _ _ H m Hm) as [Ha | [Hf Hin]]; [now left|].
        right. split; [assumption | now right].
      * destruct (iloc_id df i) as [the_id|]; [|discriminate]. cbn [bind].
        intros H m Hm. destruct (IH _ _ H m Hm) as [Ha | [Hf Hin]].
        -- apply in_app_iff in Ha as [Ha | [<- | []]]; [now left|].
           right. cbn [m_url1 m_url2]. split; [assumption | now left].
        -- right. split; [assumption | now right].
Qed.

(** A pair whose second URL holds the archive's name is passed over
    without a call of the comparator. *)
Lemma process_results_skip df u1 u2 rest i acc :
  contains archive u2 = true ->
  process_results df ((u1, u2) :: rest) i acc
  = (iloc_id df i ;;; process_results df rest (S i) acc).
Proof. intros H. cbn [process_results]. fold archive. now rewrite H. Qed.

Lemma returned_main (session : Session) (df1 df2 : DataFrame) (ms : list Mismatch) :
  returned (main session df1 df2) = Ok (Verified ms) ->
  exists df results, process_results df results 0 [] = Ok ms.
Proof.
  unfold main. destruct (intersection df1 df2) as [|i0 ids]; [discriminate|].
  set (df := sort_values _). set (urls1 := map url df). set (urls2 := map url _).
  unfold io_bind. destruct (verify_urls session urls1 urls2) as [t results].
  cbn [io_ret returned snd].
  destruct (process_results df results 0 []) as [ms'|] eqn:E; [|discriminate].
  cbn [bind]. intros [= <-]. now exists df, results.
Qed.

(** C6, amended: a pair whose second URL holds [web.archive.org] is passed
    over without a call of the comparator: whatever its two URLs are, the
    loop looks the identifier up for the log line and goes on with the next
    pair; and no mismatch record of a run carries a second URL that holds
    [web.archive.org]; in particular none carries a second URL without
    tabulations and line ends whose host holds it. *)
Theorem archival_mirrors_are_skipped (session : Session) (df1 df2 : DataFrame) :
  (forall df u1 u2 rest i acc,
     contains archive u2 = true ->
     process_results df ((u1, u2) :: rest) i acc
     = (iloc_id df i ;;; process_results df rest (S i) acc)) /\
  (forall ms m,
     returned (main session df1 df2) = Ok (Verified ms) ->
     In m ms ->
     contains archive (m_url2 m) = false /\
     forall p, urlparse (m_url2 m) = Ok p ->
               free_of unsafe (m_url2 m) = true ->
               contains archive (netloc p) = false).
Proof.
  split.
  - intros df u1 u2 rest i acc. apply process_results_skip.
  - intros ms m Hmain Hm. apply returned_main in Hmain as [df [results Hres]].
    destruct (process_results_archival _ _ _ _ _ Hres m Hm) as [[] | [Hc _]].
    split; [assumption|]. intros p Hp Hclean.
    destruct (contains archive (netloc p)) eqn:E; [|reflexivity].
    rewrite (netloc_in_url _ _ _ Hp Hclean E) in Hc. discriminate.
Qed.

End Archival.

(** C6, amended, on a run of two pairs.  The first pair has an archived
    second URL and a first URL that does not parse: the comparator would
    raise on it, and the loop passes over it.  The second pair is reported,
    and neither its second URL nor the host of it holds the archive's
    name. *)
Lemma archival_mirrors_are_skipped_witness :
  (compare_urls (rt := ascii_runtime) (py "http://[example.com/a") archived_url
   = Raise ValueError /\
   process_results (rt := ascii_runtime)
     [mkRow 1 (py "http://[example.com/a")]
     [(py "http://[example.com/a", archived_url)] 0 []
   = Ok []) /\
  contains archive (py "https://example.com/new") = false /\
  forall p, @urlparse ascii_runtime (py "https://example.com/new") = Ok p ->
            free_of unsafe (py "https://example.com/new") = true ->
            contains archive (netloc p) = false.
Proof.
  pose proof (archival_mirrors_are_skipped (rt := ascii_runtime)
                (fun u => Response 200 u)
                [mkRow 1 (py "https://example.com/a");
                 mkRow 2 (py "https://example.com/old")]
                [mkRow 1 archived_url; mkRow 2 (py "https://example.com/new")])
    as [Hskip Hrecords].
  split.
  - split; [reflexivity|].
    rewrite (Hskip [mkRow 1 (py "http://[example.com/a")]
                   (py "http://[example.com/a") archived_url [] 0%nat []);
      reflexivity.
  - apply (Hrecords
             [mkMismatch 2 (py "https://example.com/old")
                         (py "https://example.com/new") (py "Different paths")]
             (mkMismatch 2 (py "https://example.com/old")
                         (py "https://example.com/new") (py "Different paths"))).
    + reflexivity.
    + now left.
Defined.

(** The same in a whole run: the only pair has a first URL on which the
    comparator raises and an archived second URL, and the run completes
    without a record. *)
Lemma archived_pair_is_not_compared :
  compare_urls (rt := ascii_runtime) (py "http://[example.com/a") archived_url
  = Raise ValueError /\
  returned (main (rt := ascii_runtime) (fun _ => ClientError)
              [mkRow 1 (py "http://[example.com/a")] [mkRow 1 archived_url])
  = Ok (Verified []).
Proof. split; reflexivity. Qed.

(** C6 as stated fails: a reference URL with a line feed inside its host
    parses to the host [web.archive.org], and its pair is reported. *)
Lemma archival_host_is_reported :
  exists p,
    @urlparse ascii_runtime broken_archive_url = Ok p /\
    contains archive (netloc p) = true /\
    returned (main (rt := ascii_runtime) (fun _ => ClientError)
                [mkRow 1 (py "https://example.com/old")]
                [mkRow 1 broken_archive_url])
    = Ok (Verified [mkMismatch 1 (py "https://example.com/old")
                               broken_archive_url (py "Different domains")]).
Proof. eexists. split; [reflexivity|]. split; reflexivity. Qed.

(** * Further properties *)

(** ** The sheet reader *)

Section Columns.
Context {up : Uppercase} {E A : Type}.
Variable worksheet : Worksheet E A.

Lemma upper_letter (c : Z) :
  is_alpha c = true -> upper [c] = [if is_lower c then c - 32 else c].
Proof.
  intros H. unfold upper, isascii. cbn [forallb map].
  assert (Hc : (c <? 128) = true).
  { unfold is_alpha, is_upper, is_lower in H. lia. }
  now rewrite Hc.
Qed.

(** X1: the [n]-th letter of the alphabet, capital or small, names column
    [n]: asking for the letter is asking for the number. *)
Theorem get_column_data_letter (n start_row : Z) :
  1 <= n <= 26 ->
  get_column_data worksheet (PyStr [64 + n]) start_row
  = get_column_data worksheet (PyInt n) start_row /\
  get_column_data worksheet (PyStr [96 + n]) start_row
  = get_column_data worksheet (PyInt n) start_row.
Proof.
  intros Hn. unfold get_column_data. split.
  - rewrite upper_letter by (unfold is_alpha, is_upper, is_lower; lia).
    assert (Hl : is_lower (64 + n) = false) by (unfold is_lower; lia).
    rewrite Hl. cbn [ord]. change (chr "A") with 65.
    now replace (64 + n - 65 + 1) with n by lia.
  - rewrite upper_letter by (unfold is_alpha, is_upper, is_lower; lia).
    assert (Hl : is_lower (96 + n) = true) by (unfold is_lower; lia).
    rewrite Hl. cbn [ord]. change (chr "A") with 65.
    now replace (96 + n - 32 - 65 + 1) with n by lia.
Qed.

(** X2: a name of several ASCII characters, or of none, is no column: [ord]
    raises [TypeError], whatever the worksheet holds. *)
Theorem get_column_data_long_name (s : str) (start_row : Z) :
  isascii s = true -> List.length s <> 1%nat ->
  get_column_data worksheet (PyStr s) start_row = Raises TypeError.
Proof.
  intros Ha Hl. unfold get_column_data, upper. rewrite Ha.
  destruct s as [|c [|d s]]; [reflexivity | now elim Hl | reflexivity].
Qed.

(** X3: from a first row [start_row >= 1] on, the values returned are those
    of the rows [start_row], [start_row + 1], ... of the column, and there
    are none when the column is shorter. *)
Theorem get_column_data_rows (column start_row : Z) (all_values : list A) :
  worksheet (PyInt column) = Returns all_values ->
  1 <= start_row ->
  exists values,
    get_column_data worksheet (PyInt column) start_row = Returns values /\
    List.length values
    = (List.length all_values - Z.to_nat (start_row - 1))%nat /\
    forall k, nth_error values k
              = nth_error all_values (Z.to_nat (start_row - 1) + k).
Proof.
  intros Hw Hs. unfold get_column_data. rewrite Hw.
  eexists. split; [reflexivity|].
  unfold slice_from_index.
  assert (Hk : (start_row - 1 <? 0) = false) by lia. rewrite Hk.
  set (n := List.length all_values).
  destruct (Z_le_gt_dec (start_row - 1) (Z.of_nat n)) as [Hle | Hgt].
  - rewrite Z.min_l by assumption. split.
    + now rewrite length_skipn.
    + intros k. now rewrite nth_error_skipn.
  - rewrite Z.min_r by lia. rewrite Nat2Z.id. split.
    + rewrite length_skipn. fold n. lia.
    + intros k. rewrite nth_error_skipn.
      assert (H1 : nth_error all_values (n + k) = None)
        by (apply nth_error_None; fold n; lia).
      assert (H2 : nth_error all_values (Z.to_nat (start_row - 1) + k) = None)
        by (apply nth_error_None; fold n; lia).
      now rewrite H1, H2.
Qed.

(** X4: a first row [start_row <= 0] does not mean the top of the column:
    the slice then counts from the end, and what is returned are the last
    [1 - start_row] values (all of them when there are fewer). *)
Theorem get_column_data_row_zero (column start_row : Z) (all_values : list A) :
  worksheet (PyInt column) = Returns all_values ->
  start_row <= 0 ->
  get_column_data worksheet (PyInt column) start_row
  = Returns (skipn (List.length all_values - Z.to_nat (1 - start_row)) all_values).
Proof.
  intros Hw Hs. unfold get_column_data. rewrite Hw. f_equal.
  unfold slice_from_index.
  assert (Hk : (start_row - 1 <? 0) = true) by lia. rewrite Hk.
  f_equal. lia.
Qed.

End Columns.

(** X1, on an example. *)
Lemma get_column_data_letter_witness :
  get_column_data (up := ascii_uppercase) example_worksheet (PyStr (py "C")) 6
  = get_column_data (up := ascii_uppercase) example_worksheet (PyInt 3) 6 /\
  get_column_data (up := ascii_uppercase) example_worksheet (PyStr (py "c")) 6
  = get_column_data (up := ascii_uppercase) example_worksheet (PyInt 3) 6.
Proof.
  apply (get_column_data_letter (up := ascii_uppercase) example_worksheet 3 6).
  lia.
Defined.

(** X2, on an example. *)
Lemma get_column_data_long_name_witness :
  get_column_data (up := ascii_uppercase) example_worksheet (PyStr (py "AA")) 1
  = Raises TypeError.
Proof.
  apply (get_column_data_long_name (up := ascii_uppercase)); [reflexivity|].
  discriminate.
Defined.

(** X3, on an example. *)
Lemma get_column_data_rows_witness :
  exists values,
    get_column_data (up := ascii_uppercase) example_worksheet (PyInt 1) 2
    = Returns values /\
    List.length values = (List.length example_column - Z.to_nat (2 - 1))%nat /\
    forall k, nth_error values k
              = nth_error example_column (Z.to_nat (2 - 1) + k).
Proof.
  apply (get_column_data_rows (up := ascii_uppercase) example_worksheet 1 2
           example_column); [reflexivity | lia].
Defined.

(** X4, on an example. *)
Lemma get_column_data_row_zero_witness :
  get_column_data (up := ascii_uppercase) example_worksheet (PyInt 1) 0
  = Returns (skipn (List.length example_column - Z.to_nat (1 - 0)) example_column).
Proof.
  apply (get_column_data_row_zero (up := ascii_uppercase) example_worksheet 1 0
           example_column); [reflexivity | lia].
Defined.

(** ** The per-URL fetch: what is asked of the network *)

Section FetchRequests.
Variable session : Session.

(** A response of any status gives its final URL, a 404 or a 500 as well
    as a 200, and the URL is asked for once. *)
Lemma fetch_url_any_status (url final_url : str) (status : Z) :
  url <> [] ->
  session url = Response status final_url ->
  fetch_url session (PyStr url) = ([url], PyStr final_url).
Proof.
  intros Hne H. destruct url as [|c url]; [contradiction|].
  unfold fetch_url, fetch_url_try, session_get, io_bind, io_ret.
  cbn [is_true truthy isinstance_str negb orb]. now rewrite H.
Qed.

Lemma requests_io_bind {A B} (m : IO A) (k : A -> IO B) :
  requests (io_bind m k) = requests m ++ requests (k (returned m)).
Proof.
  unfold io_bind, requests, returned. destruct m as [t a]. cbn.
  destruct (k a); reflexivity.
Qed.

Lemma requests_resolve (url : str) :
  requests (resolve session url) = if truthy url then [url] else [].
Proof.
  unfold resolve. destruct url as [|c url]; [reflexivity|].
  cbn [truthy negb]. unfold fetch_url_try. rewrite requests_io_bind.
  cbn [session_get requests fst returned snd].
  now destruct (session (c :: url)).
Qed.

Lemma requests_gather (l : list str) :
  requests (gather (map (resolve session) l)) = filter truthy l.
Proof.
  induction l as [|u l IH]; [reflexivity|].
  cbn [map gather filter]. rewrite !requests_io_bind, requests_resolve, IH.
  cbn [io_ret requests fst]. rewrite app_nil_r. now destruct (truthy u).
Qed.

End FetchRequests.

(** ** The resolver: what it returns and what it asks for *)

Section ResolverBounds.
Context {rt : Runtime}.
Variable session : Session.

Lemma truthy_strip (url : str) : truthy (strip url) = true -> truthy url = true.
Proof. now destruct url. Qed.

Lemma filter_truthy_nonblank (l : list str) :
  filter truthy (nonblank l) = nonblank l.
Proof.
  unfold nonblank. induction l as [|u l IH]; [reflexivity|]. cbn [filter].
  destruct (truthy (strip u)) eqn:E; [|assumption].
  cbn [filter]. now rewrite (truthy_strip _ E), IH.
Qed.

Lemma requests_verify_batch short_urls long_urls results i :
  requests (verify_batch session short_urls long_urls results i)
  = nonblank (slice short_urls i batch_size)
    ++ nonblank (slice long_urls i batch_size).
Proof.
  unfold verify_batch. rewrite !requests_io_bind, !requests_gather.
  cbn [io_ret requests fst]. rewrite app_nil_r.
  fold (nonblank (slice short_urls i batch_size)).
  fold (nonblank (slice long_urls i batch_size)).
  now rewrite !filter_truthy_nonblank.
Qed.

Lemma requests_io_fold_batches short_urls long_urls starts results :
  requests (io_fold (verify_batch session short_urls long_urls) starts results)
  = flat_map (fun i => nonblank (slice short_urls i batch_size)
                       ++ nonblank (slice long_urls i batch_size)) starts.
Proof.
  revert results. induction starts as [|i starts IH]; intros results;
    [reflexivity|].
  cbn [io_fold flat_map]. now rewrite requests_io_bind, IH, requests_verify_batch.
Qed.

Lemma In_slice {A} (x : A) (l : list A) (i n : nat) : In x (slice l i n) -> In x l.
Proof.
  unfold slice. intros H.
  rewrite <- (firstn_skipn i l). apply in_or_app. right.
  rewrite <- (firstn_skipn n (skipn i l)). apply in_or_app. now left.
Qed.

Lemma In_requests_verify_urls (short_urls long_urls : list str) (url : str) :
  In url (requests (verify_urls session short_urls long_urls)) ->
  (In url short_urls \/ In url long_urls) /\ truthy (strip url) = true.
Proof.
  unfold verify_urls. rewrite requests_io_fold_batches.
  intros H. apply in_flat_map in H as [i [_ H]].
  apply in_app_or in H. unfold nonblank in H.
  destruct H as [H | H]; apply filter_In in H as [H Hb];
    apply In_slice in H; tauto.
Qed.

(** X5: the resolver asks the network for nothing but entries of its two
    lists, and never for a blank one. *)
Theorem verify_urls_requests (short_urls long_urls : list str) (url : str) :
  In url (requests (verify_urls session short_urls long_urls)) ->
  (In url short_urls \/ In url long_urls) /\ truthy (strip url) = true.
Proof. apply In_requests_verify_urls. Qed.

Lemma length_batch_pairs short_urls long_urls i :
  (List.length (batch_pairs session short_urls long_urls i)
   <= List.length (slice short_urls i batch_size))%nat.
Proof.
  unfold batch_pairs. rewrite length_combine, !length_map.
  pose proof (filter_length_le (fun url => truthy (strip url))
                (slice short_urls i batch_size)). lia.
Qed.

Lemma length_batches short_urls long_urls (m j : nat) :
  (List.length
     (flat_map (batch_pairs session short_urls long_urls)
               (map (fun k => (k * batch_size)%nat) (seq j m)))
   <= List.length (skipn (j * batch_size) short_urls))%nat.
Proof.
  revert j. induction m as [|m IH]; intros j; [cbn; lia|].
  cbn [seq map flat_map]. rewrite length_app.
  pose proof (length_batch_pairs short_urls long_urls (j * batch_size)) as H1.
  pose proof (IH (S j)) as H2.
  replace (S j * batch_size)%nat with (batch_size + j * batch_size)%nat in H2
    by lia.
  rewrite <- skipn_skipn in H2. unfold slice in H1.
  pose proof (f_equal (@List.length str)
                (firstn_skipn batch_size (skipn (j * batch_size) short_urls)))
    as H3.
  rewrite length_app in H3. lia.
Qed.

Lemma length_verify_urls (short_urls long_urls : list str) :
  (List.length (returned (verify_urls session short_urls long_urls))
   <= List.length short_urls)%nat.
Proof.
  rewrite returned_verify_urls. unfold range_step.
  exact (length_batches short_urls long_urls _ 0).
Qed.

(** X6: the resolver returns at most one pair per short URL. *)
Theorem verify_urls_length (short_urls long_urls : list str) :
  (List.length (returned (verify_urls session short_urls long_urls))
   <= List.length short_urls)%nat.
Proof. apply length_verify_urls. Qed.

(** X7: with as many long URLs as short ones and no blank entry, the
    resolver returns one pair per input position, in input order: the
    canonical form of what the short URL resolves to, and what the long URL
    resolves to. *)
Theorem verify_urls_aligned (short_urls long_urls : list str) :
  List.length short_urls = List.length long_urls ->
  forallb (fun url => truthy (strip url)) short_urls = true ->
  forallb (fun url => truthy (strip url)) long_urls = true ->
  returned (verify_urls session short_urls long_urls)
  = combine
      (map (fun u => canonicalize (returned (resolve session u))) short_urls)
      (map (fun u => returned (resolve session u)) long_urls).
Proof. apply verify_urls_zipped. Qed.

End ResolverBounds.

(** X5, on an example. *)
Lemma verify_urls_requests_witness :
  (In (py "http://l.example/1") [py " "; py "http://s.example/a"] \/
   In (py "http://l.example/1") [py "http://l.example/1"; py ""]) /\
  truthy (strip (py "http://l.example/1")) = true.
Proof.
  apply (verify_urls_requests (rt := ascii_runtime) offline
           [py " "; py "http://s.example/a"] [py "http://l.example/1"; py ""]).
  right. left. reflexivity.
Defined.

(** X7, on an example. *)
Lemma verify_urls_aligned_witness :
  returned (verify_urls (rt := ascii_runtime) offline
              [py "http://s.example/a/"; py "http://s.example/b?ref=x"]
              [py "http://l.example/1"; py "http://l.example/2"])
  = combine
      (map (fun u => canonicalize (rt := ascii_runtime)
                       (returned (resolve offline u)))
           [py "http://s.example/a/"; py "http://s.example/b?ref=x"])
      (map (fun u => returned (resolve offline u))
           [py "http://l.example/1"; py "http://l.example/2"]).
Proof.
  apply (verify_urls_aligned (rt := ascii_runtime) offline); reflexivity.
Defined.

(** ** The comparator: normalized paths *)

Lemma normalize_url_path_app_slashes (path t : str) :
  forallb is_slash t = true ->
  normalize_url_path (path ++ t) = normalize_url_path path.
Proof.
  intros H. unfold normalize_url_path. now rewrite rstrip_app_drop.
Qed.

Lemma rstrip_cl_s (r : str) : rstrip is_slash (r ++ py "/cl/s") = r ++ py "/cl/s".
Proof.
  change (py "/cl/s") with (py "/cl/" ++ [chr "s"]).
  rewrite app_assoc. now apply rstrip_last.
Qed.

Lemma normalize_url_path_app_cl_s (r : str) :
  normalize_url_path (r ++ py "/cl/s") = r.
Proof.
  destruct (normalize_url_path_spec (r ++ py "/cl/s")) as [[r' [E ->]] | [H _]].
  - rewrite rstrip_cl_s in E. now apply app_inv_tail in E.
  - exfalso. apply (H r). apply rstrip_cl_s.
Qed.

(** X8: slashes at the end of a path do not change its normal form. *)
Theorem normalize_url_path_trailing_slashes (path t : str) :
  forallb is_slash t = true ->
  normalize_url_path (path ++ t) = normalize_url_path path.
Proof. apply normalize_url_path_app_slashes. Qed.

(** X8, on an example. *)
Lemma normalize_url_path_trailing_slashes_witness :
  normalize_url_path (py "/a/b" ++ py "///") = normalize_url_path (py "/a/b").
Proof. apply normalize_url_path_trailing_slashes. reflexivity. Defined.

(** X9: of a path that ends in [/cl/s], followed by any number of slashes,
    the normal form is what stands before that [/cl/s]: one occurrence is
    removed, and what stands before it is kept as it is. *)
Theorem normalize_url_path_removes_one_cl_s (r t : str) :
  forallb is_slash t = true ->
  normalize_url_path (r ++ py "/cl/s" ++ t) = r.
Proof.
  intros H. rewrite app_assoc, normalize_url_path_app_slashes by assumption.
  apply normalize_url_path_app_cl_s.
Qed.

(** X9, on an example. *)
Lemma normalize_url_path_removes_one_cl_s_witness :
  normalize_url_path (py "/a/cl/s" ++ py "/cl/s" ++ py "//") = py "/a/cl/s".
Proof. apply normalize_url_path_removes_one_cl_s. reflexivity. Defined.

Lemma endswith_slash_rstrip (path : str) :
  endswith (py "/") path = false <-> rstrip is_slash path = path.
Proof.
  rewrite rstrip_fix. split.
  - intros H. destruct path as [|c0 p0] eqn:Ep; [now left | right].
    rewrite <- Ep in *. assert (Hne : path <> []) by (rewrite Ep; discriminate).
    destruct (exists_last Hne) as [a [c E]]. exists a, c. split; [assumption|].
    unfold is_slash. destruct (c =? chr "/") eqn:Ec; [|reflexivity].
    apply Z.eqb_eq in Ec. subst c. rewrite E in H.
    assert (endswith (py "/") (a ++ [chr "/"]) = true)
      by (apply endswith_spec; now exists a).
    congruence.
  - intros [-> | [a [c [-> Hc]]]]; [reflexivity|].
    destruct (endswith (py "/") (a ++ [c])) eqn:E; [|reflexivity].
    apply endswith_spec in E as [t E].
    change (py "/") with [chr "/"] in E.
    apply app_inj_tail in E as [_ ->].
    unfold is_slash in Hc. now rewrite Z.eqb_refl in Hc.
Qed.

(** X10: the paths that normalization leaves alone are those that end
    neither in a slash nor in [/cl/s]. *)
Theorem normalize_url_path_fixed (path : str) :
  normalize_url_path path = path <->
  endswith (py "/") path = false /\ endswith (py "/cl/s") path = false.
Proof.
  split.
  - intros H. assert (Hs : rstrip is_slash path = path).
    { destruct (rstrip_prefix is_slash path) as [t [Ht Hall]].
      destruct (normalize_url_path_spec path) as [[r [E N]] | [_ N]].
      - rewrite H in N. subst r. rewrite E in Ht.
        apply (f_equal (@List.length Z)) in Ht.
        rewrite !length_app in Ht. cbn in Ht. lia.
      - congruence. }
    split; [now apply endswith_slash_rstrip|].
    destruct (endswith (py "/cl/s") path) eqn:E; [|reflexivity].
    apply endswith_spec in E as [r E].
    rewrite E, normalize_url_path_app_cl_s in H.
    apply (f_equal (@List.length Z)) in H. rewrite length_app in H. cbn in H. lia.
  - intros [Hs Hc]. apply endswith_slash_rstrip in Hs.
    unfold normalize_url_path. now rewrite Hs, Hc.
Qed.

(** ** The comparator as a relation *)

Section ComparatorRelation.
Context {rt : Runtime}.

Lemma eqb_str_sym (a b : str) : eqb_str a b = eqb_str b a.
Proof.
  destruct (eqb_str a b) eqn:E.
  - apply eqb_str_eq in E. subst. symmetry. apply eqb_str_refl.
  - destruct (eqb_str b a) eqn:E'; [|reflexivity].
    apply eqb_str_eq in E'. subst. now rewrite eqb_str_refl in E.
Qed.

(** X11: a URL that parses matches itself. *)
Theorem compare_urls_refl (url : str) (p : ParseResult) :
  urlparse url = Ok p -> compare_urls url url = Ok (true, py "URLs match").
Proof.
  intros H. rewrite (compare_urls_parsed _ _ _ _ H H).
  now rewrite !eqb_str_refl.
Qed.

(** X12: the order of the two URLs does not matter to the verdict. *)
Theorem compare_urls_sym (url1 url2 : str) (p1 p2 : ParseResult) :
  urlparse url1 = Ok p1 -> urlparse url2 = Ok p2 ->
  compare_urls url1 url2 = compare_urls url2 url1.
Proof.
  intros H1 H2.
  rewrite (compare_urls_parsed _ _ _ _ H1 H2), (compare_urls_parsed _ _ _ _ H2 H1).
  rewrite (eqb_str_sym (netloc p1)).
  now rewrite (eqb_str_sym (lower (normalize_url_path (path p1)))).
Qed.

Lemma compare_urls_match (url1 url2 : str) (p1 p2 : ParseResult) :
  urlparse url1 = Ok p1 -> urlparse url2 = Ok p2 ->
  forall details,
  compare_urls url1 url2 = Ok (true, details) ->
  netloc p1 = netloc p2 /\
  lower (normalize_url_path (path p1)) = lower (normalize_url_path (path p2)).
Proof.
  intros H1 H2 details. rewrite (compare_urls_parsed _ _ _ _ H1 H2).
  destruct (eqb_str (netloc p1) (netloc p2)) eqn:En; cbn [negb];
    [|intros H; apply Ok_inj in H; discriminate].
  destruct (eqb_str (lower _) (lower _)) eqn:Ep; cbn [negb];
    [|intros H; apply Ok_inj in H; discriminate].
  intros _. split; now apply eqb_str_eq.
Qed.

(** X13: matching is transitive. *)
Theorem compare_urls_trans (url1 url2 url3 : str) (d12 d23 : str) :
  compare_urls url1 url2 = Ok (true, d12) ->
  compare_urls url2 url3 = Ok (true, d23) ->
  compare_urls url1 url3 = Ok (true, py "URLs match").
Proof.
  intros H12 H23.
  destruct (urlparse url1) as [p1|] eqn:E1;
    [|unfold compare_urls in H12; now rewrite E1 in H12].
  destruct (urlparse url2) as [p2|] eqn:E2;
    [|unfold compare_urls in H12; now rewrite E1, E2 in H12].
  destruct (urlparse url3) as [p3|] eqn:E3;
    [|unfold compare_urls in H23; now rewrite E2, E3 in H23].
  apply (compare_urls_match _ _ _ _ E1 E2) in H12 as [Hn12 Hp12].
  apply (compare_urls_match _ _ _ _ E2 E3) in H23 as [Hn23 Hp23].
  rewrite (compare_urls_parsed _ _ _ _ E1 E3).
  now rewrite Hn12, Hn23, Hp12, Hp23, !eqb_str_refl.
Qed.

(** X14: the comparator raises exactly when one of the URLs does not parse,
    and the error is that of the first one that does not. *)
Theorem compare_urls_raises_iff (url1 url2 : str) (e : exn) :
  compare_urls url1 url2 = Raise e <->
  urlparse url1 = Raise e \/
  ((exists p1, urlparse url1 = Ok p1) /\ urlparse url2 = Raise e).
Proof.
  destruct (urlparse url1) as [p1|e1] eqn:E1.
  - destruct (urlparse url2) as [p2|e2] eqn:E2.
    + rewrite (compare_urls_parsed _ _ _ _ E1 E2). split.
      * discriminate.
      * intros [H | [_ H]]; discriminate.
    + unfold compare_urls. rewrite E1, E2. cbn [bind]. split.
      * intros H. injection H as ->. right. split; [now exists p1 | reflexivity].
      * intros [H | [_ H]]; [discriminate | now injection H as ->].
  - unfold compare_urls. rewrite E1. cbn [bind]. split.
    + intros H. injection H as ->. now left.
    + intros [H | [[p1 H] _]]; [now injection H as -> | discriminate].
Qed.

End ComparatorRelation.

(** X11, on an example. *)
Lemma compare_urls_refl_witness :
  compare_urls (rt := ascii_runtime)
    (py "https://example.com/a?x=1") (py "https://example.com/a?x=1")
  = Ok (true, py "URLs match").
Proof.
  apply (compare_urls_refl (rt := ascii_runtime) (py "https://example.com/a?x=1")
           (mkParse (py "https") (py "example.com") (py "/a") [] (py "x=1") [])).
  reflexivity.
Defined.

(** X12, on an example. *)
Lemma compare_urls_sym_witness :
  compare_urls (rt := ascii_runtime)
    (py "https://example.com/a/") (py "https://example.com/b")
  = compare_urls (rt := ascii_runtime)
      (py "https://example.com/b") (py "https://example.com/a/").
Proof.
  apply (compare_urls_sym (rt := ascii_runtime) _ _
           (mkParse (py "https") (py "example.com") (py "/a/") [] [] [])
           (mkParse (py "https") (py "example.com") (py "/b") [] [] []));
    reflexivity.
Defined.

(** X13, on an example. *)
Lemma compare_urls_trans_witness :
  compare_urls (rt := ascii_runtime)
    (py "https://example.com/A/cl/s") (py "https://example.com/a#top")
  = Ok (true, py "URLs match").
Proof.
  apply (compare_urls_trans (rt := ascii_runtime)
           (py "https://example.com/A/cl/s") (py "https://example.com/a/")
           (py "https://example.com/a#top") (py "URLs match") (py "URLs match"));
    reflexivity.
Defined.

(** ** The canonical form, read again *)

Section ReadAgain.
Context {rt : Runtime}.

Lemma rstrip_not_slash (s : str) : endswith (py "/") (rstrip is_slash s) = false.
Proof. apply endswith_slash_rstrip, rstrip_idem. Qed.

(** A URL written with a host keeps it when the slashes at its end go. *)
Lemma rstrip_written_host (s n p q f : str) :
  n <> [] -> free_of is_delim n = true ->
  rstrip is_slash (written s true n p q f) <> scheme_part s.
Proof.
  intros Hne Hn E.
  destruct (rstrip_prefix is_slash (written s true n p q f)) as [t [Ht Hall]].
  rewrite E in Ht. unfold written in Ht. apply app_inv_head in Ht.
  rewrite <- Ht in Hall. rewrite <- !app_assoc in Hall.
  rewrite !forallb_app in Hall.
  apply andb_true_iff in Hall as [_ Hall].
  apply andb_true_iff in Hall as [Hall _].
  destruct n as [|c n]; [contradiction|]. cbn [forallb free_of] in Hall, Hn.
  apply andb_true_iff in Hall as [Hc _]. apply andb_true_iff in Hn as [Hd _].
  unfold is_slash in Hc. unfold is_delim in Hd. rewrite Hc in Hd. discriminate.
Qed.

(** What [urlsplit] reads in the canonical form of a URL it has split. *)
Lemma try_reads_back (u c : str) (sr : SplitResult) :
  urlsplit u = Ok sr ->
  strip_tracking_params_try u = Ok c ->
  (s_netloc sr <> [] \/ dslash (rejoin (s_scheme sr) (s_path sr)) = false) ->
  endswith (py "#") c = false ->
  exists p' q' f',
    urlencode (filter_query (parse_qs (s_query sr))) = Ok q' /\
    urlsplit c = Ok (mkSplit (s_scheme sr) (s_netloc sr) p' q' f') /\
    (s_netloc sr <> [] ->
     p' = rejoin (s_scheme sr) (s_path sr) \/
     p' = rstrip is_slash (rejoin (s_scheme sr) (s_path sr))).
Proof.
  intros Hsplit Htry Hhost Hhash.
  rewrite strip_tracking_params_try_steps, Hsplit in Htry. cbn [bind] in Htry.
  destruct (urlencode (filter_query (parse_qs (s_query sr)))) as [q|] eqn:Henc;
    [|discriminate]. cbn [bind] in Htry. apply Ok_inj in Htry.
  pose proof (urlsplit_wf _ _ Hsplit) as [Hs Hn Hb Hck Hpq Hpf Hpa Hqf Hclean].
  pose proof (urlsplit_plain _ _ Hsplit) as Hplain.
  destruct sr as [s n p0 q0 f].
  cbn [s_scheme s_netloc s_path s_query s_fragment] in *.
  set (P := rejoin s p0) in *.
  assert (Hd : n = [] -> dslash P = false).
  { intros Hn0. destruct Hhost as [Hh | Hh]; [contradiction | assumption]. }
  assert (Hbr : bracket_checks n = Ok tt).
  { destruct n as [|cn n]; [reflexivity | now apply Hb]. }
  rewrite !free_of_app in Hclean.
  apply andb_true_iff in Hclean as [Hcn Hclean].
  apply andb_true_iff in Hclean as [Hcp Hclean].
  apply andb_true_iff in Hclean as [_ Hcf].
  pose proof (query_roundtrip _ _ Henc) as [Henc' Hqc].
  pose proof (query_chars_clean _ Hqc) as [Hqclean [Hqhash _]].
  destruct (rejoin_prefix s p0) as [t0 Hp0]. fold P in Hp0.
  assert (HP : has (chr "?") P = false /\ has (chr "#") P = false /\
               free_of unsafe P = true).
  { rewrite Hp0 in Hpq, Hpf, Hcp.
    apply has_app_false in Hpq as [? _]. apply has_app_false in Hpf as [? _].
    rewrite free_of_app in Hcp. apply andb_true_iff in Hcp as [? _]. tauto. }
  destruct HP as [HPq [HPf HPc]].
  set (auth := authority s n P) in *.
  set (P1 := if auth then lead_slash P else P).
  assert (Hok : path_ok s auth n P1).
  { unfold P1. destruct auth eqn:Ea.
    - now apply path_ok_lead_slash.
    - assert (Hn0 : n = []).
      { unfold auth, authority in Ea. now destruct n. }
      split; [assumption|]. split; [assumption|]. split; [assumption|].
      split; [|assumption].
      split; [assumption|]. split; [now apply Hd|].
      intros Hs0. apply (plain_prefix P t0). rewrite <- Hp0. now apply Hplain. }
  assert (Hhostpath : n <> [] -> auth = true /\ P1 = P).
  { intros Hne. assert (Ea : auth = true).
    { unfold auth, authority. now destruct n. }
    split; [assumption|]. unfold P1. rewrite Ea. apply lead_slash_rooted.
    apply (rooted_prefix P t0). rewrite <- Hp0. now apply Hpa. }
  assert (Hc0 : urlunsplit s n P q f = written s auth n P1 q f).
  { rewrite urlunsplit_written. fold auth. unfold P1. now destruct auth. }
  rewrite Hc0 in Htry. rewrite <- Htry in Hhash.
  destruct (rstrip_written s auth n P1 q f Hn Hqc Hhash)
    as [[p' [f' [Hc Hcases]]] | [Hq0 [Hf0 Hc]]].
  - rewrite Hc in Htry.
    assert (Hok' : path_ok s auth n p').
    { destruct Hcases as [[-> _] | [-> _]];
        [assumption | now apply path_ok_rstrip]. }
    assert (Hcf' : free_of unsafe f' = true).
    { destruct Hcases as [[_ [-> _]] | [_ [_ [_ [-> _]]]]];
        [now apply rstrip_clean | reflexivity]. }
    destruct Hok' as [Hq' [Hf' [Hc' [Hshape' Hd']]]].
    exists p', q, f'. split; [reflexivity|]. split.
    + rewrite <- Htry. apply urlsplit_written; try assumption.
      now rewrite !free_of_app, Hcn, Hc', Hqclean, Hcf'.
    + intros Hne. destruct (Hhostpath Hne) as [_ E]. rewrite E in Hcases.
      destruct Hcases as [[-> _] | [-> _]]; [now left | now right].
  - assert (Hn0 : n = []).
    { destruct n as [|cn n]; [reflexivity|]. exfalso.
      assert (Ea : auth = true) by (unfold auth, authority; reflexivity).
      rewrite Ea in Hc.
      now apply (rstrip_written_host s (cn :: n) P1 q f) in Hc. }
    subst n q f. exists [], [], []. split; [reflexivity|]. split.
    + rewrite <- Htry, Hc.
      assert (Hw : written s false [] [] [] [] = scheme_part s).
      { unfold written, query_part, fragment_part. cbn [truthy].
        now rewrite !app_nil_r. }
      rewrite <- Hw.
      apply (urlsplit_written s false [] [] [] [] Hs
               eq_refl eq_refl eq_refl eq_refl eq_refl eq_refl eq_refl).
      split; [reflexivity|]. split; [reflexivity|].
      intros _. split; [exact I|]. intros pre rest E. now destruct pre.
    + intros Hne. now elim Hne.
Qed.

End ReadAgain.

(** ** What canonicalization keeps and what it removes *)

Section Canonical.
Context {rt : Runtime}.

(** [parse_qs] reads back the dictionary that [urlencode] wrote. *)
Lemma parse_qs_urlencode (d : dict) (q : str) :
  dict_wf d -> urlencode d = Ok q -> parse_qs q = d.
Proof.
  intros [Hnd Hne] H. apply urlencode_inv in H as [l [Hl ->]].
  rewrite parse_qs_fold, (parse_qsl_encoded _ _ Hl).
  now rewrite (regroup [] _ Hnd Hne).
Qed.

Lemma urlparse_split (u : str) (p : ParseResult) :
  urlparse u = Ok p ->
  exists sr, urlsplit u = Ok sr /\
    scheme p = s_scheme sr /\ netloc p = s_netloc sr /\
    query p = s_query sr /\
    split_params (s_scheme sr) (s_path sr) = (path p, params p).
Proof.
  rewrite urlparse_steps. destruct (urlsplit u) as [sr|]; [|discriminate].
  cbn [bind]. destruct (split_params _ _) as [pa ps] eqn:E.
  intros H. apply Ok_inj in H. subst p. exists sr. now repeat split.
Qed.

Lemma try_empty : strip_tracking_params_try [] = Ok [].
Proof. reflexivity. Qed.

Lemma canonicalize_try (u c : str) :
  strip_tracking_params_try u = Ok c -> canonicalize u = c.
Proof.
  intros H. destruct u as [|x u].
  - rewrite try_empty in H. now apply Ok_inj in H.
  - unfold canonicalize. cbn [truthy negb]. now rewrite H.
Qed.

Lemma try_parsed (u : str) (p : ParseResult) (new_query : str) :
  urlparse u = Ok p ->
  urlencode (filter_query (parse_qs (query p))) = Ok new_query ->
  strip_tracking_params_try u = Ok (canonicalize u).
Proof.
  intros Hp Hq.
  assert (H : exists c, strip_tracking_params_try u = Ok c).
  { unfold strip_tracking_params_try. rewrite Hp. cbn [bind]. rewrite Hq.
    cbn [bind]. eexists. reflexivity. }
  destruct H as [c H]. now rewrite (canonicalize_try _ _ H).
Qed.

(** What [urlparse] reads in the canonical form of a URL that it parsed
    and whose canonical form was built. *)
Lemma canonical_parts (u : str) (p : ParseResult) :
  urlparse u = Ok p ->
  strip_tracking_params_try u = Ok (canonicalize u) ->
  (netloc p <> [] \/ startswith (py "//") (path p) = false) ->
  endswith (py "#") (canonicalize u) = false ->
  exists p' new_query,
    urlparse (canonicalize u) = Ok p' /\
    scheme p' = scheme p /\ netloc p' = netloc p /\
    urlencode (filter_query (parse_qs (query p))) = Ok new_query /\
    query p' = new_query /\
    (netloc p <> [] -> params p = [] -> has (chr ";") (path p) = false ->
     (path p' = path p \/ path p' = rstrip is_slash (path p))).
Proof.
  intros Hp Htry Hhost Hhash.
  destruct (urlparse_split _ _ Hp) as [sr [Hsr [Hs [Hn [Hq Hsp]]]]].
  assert (Hj : rejoin (s_scheme sr) (s_path sr) = join_params (path p) (params p)).
  { unfold rejoin. now rewrite Hsp. }
  assert (Hhost' : s_netloc sr <> [] \/
                   dslash (rejoin (s_scheme sr) (s_path sr)) = false).
  { destruct Hhost as [H | H]; [left; congruence | right].
    rewrite Hj. now apply dslash_join. }
  destruct (try_reads_back _ _ _ Hsr Htry Hhost' Hhash)
    as [p' [q' [f' [Henc [Hread Hpath]]]]].
  rewrite urlparse_steps, Hread. cbn [bind].
  cbn [s_scheme s_netloc s_path s_query s_fragment].
  destruct (split_params (s_scheme sr) p') as [pa ps] eqn:E.
  eexists. exists q'. split; [reflexivity|].
  cbn [scheme netloc query path]. rewrite Hq.
  split; [now symmetry|]. split; [now symmetry|]. split; [assumption|].
  split; [reflexivity|].
  intros Hne Hpar Hsemi. rewrite Hn in Hne. specialize (Hpath Hne).
  rewrite Hj, Hpar in Hpath. unfold join_params in Hpath. cbn [truthy] in Hpath.
  assert (Hp' : has (chr ";") p' = false).
  { destruct Hpath as [-> | ->]; [assumption|].
    destruct (rstrip_prefix is_slash (path p)) as [t [Ht _]].
    rewrite Ht in Hsemi. now apply has_app_false in Hsemi as [? _]. }
  unfold split_params in E. fold semicolon in Hp'.
  rewrite Hp', andb_false_r in E. injection E as <- _. exact Hpath.
Qed.

(** X15: the canonical form ends in a slash only when it is the URL itself,
    handed back because it could not be parsed or rebuilt. *)
Theorem canonicalize_no_trailing_slash (u : str) :
  endswith (py "/") (canonicalize u) = true ->
  exists e, strip_tracking_params_try u = Raise e.
Proof.
  intros H. destruct (strip_tracking_params_try u) as [c|e] eqn:E;
    [|now exists e].
  exfalso. rewrite (canonicalize_try _ _ E) in H.
  unfold strip_tracking_params_try in E.
  destruct (urlparse u) as [p|]; [|discriminate]. cbn [bind] in E.
  destruct (urlencode _) as [q|]; [|discriminate]. cbn [bind] in E.
  apply Ok_inj in E. subst c. rewrite rstrip_not_slash in H. discriminate.
Qed.

(** X16: canonicalization keeps the scheme and the host: the canonical form
    of a URL that parses with a host, or with a path that does not open with
    two slashes, parses with the same scheme and the same host. *)
Theorem canonicalize_keeps_host (u : str) (p : ParseResult) :
  urlparse u = Ok p ->
  (netloc p <> [] \/ startswith (py "//") (path p) = false) ->
  endswith (py "#") (canonicalize u) = false ->
  exists p', urlparse (canonicalize u) = Ok p' /\
             scheme p' = scheme p /\ netloc p' = netloc p.
Proof.
  intros Hp Hhost Hhash.
  destruct (canonicalize_cases u) as [E | Htry].
  - rewrite E. now exists p.
  - destruct (canonical_parts _ _ Hp Htry Hhost Hhash)
      as [p' [q [H1 [H2 [H3 _]]]]].
    now exists p'.
Qed.

(** X17: the query of the canonical form is the retained parameters
    written anew: parsed again, it gives the parameters whose lower-cased
    name is no tracking name, each with all its values, in the order of
    their first occurrence. *)
Theorem canonicalize_query (u : str) (p : ParseResult) (new_query : str) :
  urlparse u = Ok p ->
  urlencode (filter_query (parse_qs (query p))) = Ok new_query ->
  (netloc p <> [] \/ startswith (py "//") (path p) = false) ->
  endswith (py "#") (canonicalize u) = false ->
  exists p', urlparse (canonicalize u) = Ok p' /\
             query p' = new_query /\
             parse_qs (query p') = filter_query (parse_qs (query p)).
Proof.
  intros Hp Hq Hhost Hhash.
  pose proof (try_parsed _ _ _ Hp Hq) as Htry.
  destruct (canonical_parts _ _ Hp Htry Hhost Hhash)
    as [p' [q [H1 [_ [_ [H4 [H5 _]]]]]]].
  rewrite Hq in H4. apply Ok_inj in H4. rewrite <- H4 in H5. clear H4.
  exists p'. split; [assumption|]. split; [assumption|].
  rewrite H5. apply parse_qs_urlencode; [|assumption].
  apply filter_wf, parse_qs_wf.
Qed.

(** X18: no tracking parameter survives: in the query of the canonical
    form there is no parameter whose lower-cased name is a member of the
    tracking set. *)
Theorem canonicalize_no_tracking_key (u : str) (p : ParseResult)
    (new_query : str) :
  urlparse u = Ok p ->
  urlencode (filter_query (parse_qs (query p))) = Ok new_query ->
  (netloc p <> [] \/ startswith (py "//") (path p) = false) ->
  endswith (py "#") (canonicalize u) = false ->
  exists p', urlparse (canonicalize u) = Ok p' /\
    forall k vs, In (k, vs) (parse_qs (query p')) ->
                 mem (lower k) tracking_params = false.
Proof.
  intros Hp Hq Hhost Hhash.
  pose proof (try_parsed _ _ _ Hp Hq) as Htry.
  destruct (canonical_parts _ _ Hp Htry Hhost Hhash)
    as [p' [q [H1 [_ [_ [H4 [H5 _]]]]]]].
  rewrite Hq in H4. apply Ok_inj in H4. rewrite <- H4 in H5. clear H4.
  exists p'. split; [assumption|]. intros k vs Hin.
  rewrite H5, (parse_qs_urlencode _ _ (filter_wf _ _ (parse_qs_wf _)) Hq) in Hin.
  now apply filter_query_spec in Hin.
Qed.

Lemma normalize_url_path_rstrip (path : str) :
  normalize_url_path (rstrip is_slash path) = normalize_url_path path.
Proof. unfold normalize_url_path. now rewrite rstrip_idem. Qed.

(** X19: canonicalizing a URL does not change what the comparator says of
    it: for a URL with a host and without path parameters, the canonical
    form compares to any other URL as the URL itself does. *)
Theorem canonicalize_compare (u v : str) (p : ParseResult) :
  urlparse u = Ok p ->
  netloc p <> [] -> params p = [] -> has (chr ";") (path p) = false ->
  endswith (py "#") (canonicalize u) = false ->
  compare_urls (canonicalize u) v = compare_urls u v.
Proof.
  intros Hp Hne Hpar Hsemi Hhash.
  destruct (canonicalize_cases u) as [E | Htry]; [now rewrite E|].
  destruct (canonical_parts _ _ Hp Htry (or_introl Hne) Hhash)
    as [p' [q [H1 [_ [H3 [_ [_ Hpath]]]]]]].
  specialize (Hpath Hne Hpar Hsemi).
  unfold compare_urls. rewrite H1, Hp. cbn [bind].
  destruct (urlparse v) as [pv|]; [|reflexivity]. cbn [bind].
  rewrite H3.
  assert (Hn : normalize_url_path (path p') = normalize_url_path (path p)).
  { destruct Hpath as [-> | ->]; [reflexivity | apply normalize_url_path_rstrip]. }
  now rewrite Hn.
Qed.

End Canonical.

(** X15, on an example. *)
Lemma canonicalize_no_trailing_slash_witness :
  exists e, strip_tracking_params_try (rt := ascii_runtime)
              (py "http://[example.com/") = Raise e.
Proof.
  apply (canonicalize_no_trailing_slash (rt := ascii_runtime)). reflexivity.
Defined.

(** X16, on an example. *)
Lemma canonicalize_keeps_host_witness :
  exists p',
    urlparse (rt := ascii_runtime)
      (canonicalize (rt := ascii_runtime)
         (py "HTTPS://Example.com/Page/?utm_source=x&id=7")) = Ok p' /\
    scheme p' = py "https" /\ netloc p' = py "Example.com".
Proof.
  apply (canonicalize_keeps_host (rt := ascii_runtime)
           (py "HTTPS://Example.com/Page/?utm_source=x&id=7")
           (mkParse (py "https") (py "Example.com") (py "/Page/") []
                    (py "utm_source=x&id=7") [])).
  - reflexivity.
  - left. discriminate.
  - reflexivity.
Defined.

(** X17, on an example. *)
Lemma canonicalize_query_witness :
  exists p',
    urlparse (rt := ascii_runtime)
      (canonicalize (rt := ascii_runtime)
         (py "https://example.com/p?b=2&UTM_Source=x&a=1&b=3")) = Ok p' /\
    query p' = py "b=2&b=3&a=1" /\
    parse_qs (query p')
    = filter_query (rt := ascii_runtime)
        (parse_qs (py "b=2&UTM_Source=x&a=1&b=3")).
Proof.
  apply (canonicalize_query (rt := ascii_runtime)
           (py "https://example.com/p?b=2&UTM_Source=x&a=1&b=3")
           (mkParse (py "https") (py "example.com") (py "/p") []
                    (py "b=2&UTM_Source=x&a=1&b=3") [])
           (py "b=2&b=3&a=1")).
  - reflexivity.
  - reflexivity.
  - left. discriminate.
  - reflexivity.
Defined.

(** X18, on an example. *)
Lemma canonicalize_no_tracking_key_witness :
  exists p',
    urlparse (rt := ascii_runtime)
      (canonicalize (rt := ascii_runtime)
         (py "https://example.com/p?b=2&UTM_Source=x&a=1&b=3")) = Ok p' /\
    forall k vs, In (k, vs) (parse_qs (query p')) ->
                 mem (lower (rt := ascii_runtime) k) tracking_params = false.
Proof.
  apply (canonicalize_no_tracking_key (rt := ascii_runtime)
           (py "https://example.com/p?b=2&UTM_Source=x&a=1&b=3")
           (mkParse (py "https") (py "example.com") (py "/p") []
                    (py "b=2&UTM_Source=x&a=1&b=3") [])
           (py "b=2&b=3&a=1")).
  - reflexivity.
  - reflexivity.
  - left. discriminate.
  - reflexivity.
Defined.

(** X19, on an example. *)
Lemma canonicalize_compare_witness :
  compare_urls (rt := ascii_runtime)
    (canonicalize (rt := ascii_runtime) (py "https://example.com/a/cl/s/?ref=x"))
    (py "https://example.com/A")
  = compare_urls (rt := ascii_runtime)
      (py "https://example.com/a/cl/s/?ref=x") (py "https://example.com/A").
Proof.
  apply (canonicalize_compare (rt := ascii_runtime)
           (py "https://example.com/a/cl/s/?ref=x") (py "https://example.com/A")
           (mkParse (py "https") (py "example.com") (py "/a/cl/s/") []
                    (py "ref=x") [])).
  - reflexivity.
  - discriminate.
  - reflexivity.
  - reflexivity.
  - reflexivity.
Defined.

(** ** Which exceptions there are *)

Lemma raise_if_raises (b : bool) (e e' : exn) :
  raise_if b e = Raise e' -> e' = e.
Proof.
  unfold raise_if. destruct b; [|discriminate].
  intros H. now injection H as ->.
Qed.

(** The exception on the two sides of an equation between raised results. *)
Ltac raised := let H := fresh in intros H; injection H as H; subst.

Lemma bind_raise_if {A} (b : bool) (k : result A) (e : exn) :
  (raise_if b ValueError ;;; k) = Raise e -> e = ValueError \/ k = Raise e.
Proof.
  destruct b; cbn [raise_if bind]; [|now right].
  intros H. injection H as <-. now left.
Qed.

Section Exceptions.
Context {rt : Runtime}.

Lemma check_bracketed_host_raises (hostname : str) (e : exn) :
  _check_bracketed_host hostname = Raise e -> e = ValueError.
Proof.
  unfold _check_bracketed_host.
  destruct (startswith (py "v") hostname); apply raise_if_raises.
Qed.

Lemma check_bracketed_netloc_raises (netloc : str) (e : exn) :
  _check_bracketed_netloc netloc = Raise e -> e = ValueError.
Proof.
  unfold _check_bracketed_netloc.
  destruct (rpartition (chr "@") netloc) as [[a f] hp].
  destruct (partition (chr "[") hp) as [[before have_open] bracketed].
  destruct have_open.
  - intros H. apply bind_raise_if in H as [H | H]; [assumption|].
    destruct (partition (chr "]") bracketed) as [[hostname f'] port].
    apply bind_raise_if in H as [H | H]; [assumption|].
    now apply check_bracketed_host_raises in H.
  - destruct (partition (chr ":") hp) as [[hostname f'] port].
    apply check_bracketed_host_raises.
Qed.

Lemma bracket_checks_raises (netloc : str) (e : exn) :
  bracket_checks netloc = Raise e -> e = ValueError.
Proof.
  unfold bracket_checks. intros H.
  apply bind_raise_if in H as [H | H]; [assumption|].
  destruct (_ && _); [now apply check_bracketed_netloc_raises in H | discriminate].
Qed.

Lemma split_netloc_raises (url : str) (e : exn) :
  split_netloc url = Raise e -> e = ValueError.
Proof.
  unfold split_netloc. destruct (eqb_str _ _); [|discriminate].
  destruct (_splitnetloc url 2) as [n r].
  destruct (bracket_checks n) as [[]|e1] eqn:E1; cbn [bind]; [discriminate|].
  raised. now apply bracket_checks_raises in E1.
Qed.

Lemma checknetloc_raises (netloc : str) (e : exn) :
  _checknetloc netloc = Raise e -> e = ValueError.
Proof.
  unfold _checknetloc. destruct (_ || _); [discriminate|].
  destruct (eqb_str _ _); [discriminate|]. apply raise_if_raises.
Qed.

Lemma urlsplit_raises (url : str) (e : exn) :
  urlsplit url = Raise e -> e = ValueError.
Proof.
  rewrite urlsplit_steps.
  destruct (split_scheme (preprocess url)) as [s u1].
  destruct (split_netloc u1) as [[n u2]|e1] eqn:E1; cbn [bind];
    [|raised; now apply split_netloc_raises in E1].
  destruct (split_fragment u2) as [u3 f]. destruct (split_query u3) as [p q].
  destruct (_checknetloc n) as [[]|e2] eqn:E2; cbn [bind]; [discriminate|].
  raised. now apply checknetloc_raises in E2.
Qed.

Lemma urlparse_raises (url : str) (e : exn) :
  urlparse url = Raise e -> e = ValueError.
Proof.
  rewrite urlparse_steps.
  destruct (urlsplit url) as [sr|e1] eqn:E1; cbn [bind].
  - destruct (split_params _ _). discriminate.
  - raised. now apply urlsplit_raises in E1.
Qed.

Lemma compare_urls_raises_value_error (url1 url2 : str) (e : exn) :
  compare_urls url1 url2 = Raise e -> e = ValueError.
Proof.
  unfold compare_urls.
  destruct (urlparse url1) as [p1|e1] eqn:E1; cbn [bind];
    [|raised; now apply urlparse_raises in E1].
  destruct (urlparse url2) as [p2|e2] eqn:E2; cbn [bind];
    [|raised; now apply urlparse_raises in E2].
  destruct (negb _); [discriminate|]. destruct (negb _); discriminate.
Qed.

(** X20: the only exception that leaves the comparator is the [ValueError]
    of [urlparse]. *)
Theorem compare_urls_only_value_error (url1 url2 : str) (e : exn) :
  compare_urls url1 url2 = Raise e -> e = ValueError.
Proof. apply compare_urls_raises_value_error. Qed.

Lemma process_results_raises df results i acc (e : exn) :
  (i + List.length results <= List.length df)%nat ->
  process_results df results i acc = Raise e -> e = ValueError.
Proof.
  revert i acc. induction results as [|[u1 u2] rest IH]; intros i acc Hlen;
    [discriminate|].
  cbn [List.length] in Hlen. cbn [process_results].
  assert (Hi : exists the_id, iloc_id df i = Ok the_id).
  { unfold iloc_id. destruct (nth_error df i) as [r|] eqn:E; [now exists (id r)|].
    apply nth_error_None in E. lia. }
  destruct Hi as [the_id Hi]. rewrite Hi. cbn [bind].
  destruct (contains _ u2).
  - apply IH. lia.
  - destruct (compare_urls u1 u2) as [[matches details]|e1] eqn:E1; cbn [bind];
      [|raised; now apply compare_urls_raises_value_error in E1].
    destruct matches; cbn [negb]; apply IH; lia.
Qed.

End Exceptions.

(** ** The orchestrator: the rows it compares *)

Lemma In_insert_row (x r : Row) (df : DataFrame) :
  In x (insert_row r df) <-> x = r \/ In x df.
Proof.
  induction df as [|y df IH]; cbn [insert_row].
  - cbn. intuition congruence.
  - destruct (id r <=? id y); cbn [In]; [intuition congruence|].
    rewrite IH. intuition congruence.
Qed.

Lemma In_sort_values (x : Row) (df : DataFrame) :
  In x (sort_values df) <-> In x df.
Proof.
  unfold sort_values. induction df as [|r df IH]; [reflexivity|].
  cbn [fold_right In]. rewrite In_insert_row, IH. intuition congruence.
Qed.

Lemma In_id_sort_values (i : Z) (df : DataFrame) :
  In i (map id (sort_values df)) <-> In i (map id df).
Proof.
  rewrite !in_map_iff. split; intros [r [E H]]; exists r;
    (split; [assumption | now apply In_sort_values]).
Qed.

Lemma length_insert_row (r : Row) (df : DataFrame) :
  List.length (insert_row r df) = S (List.length df).
Proof.
  induction df as [|y df IH]; [reflexivity|]. cbn [insert_row].
  destruct (id r <=? id y); cbn [List.length]; [reflexivity | now rewrite IH].
Qed.

Lemma insert_row_increasing (r : Row) (df : DataFrame) :
  StronglySorted Z.lt (map id df) -> ~ In (id r) (map id df) ->
  StronglySorted Z.lt (map id (insert_row r df)).
Proof.
  induction df as [|y df IH]; intros Hs Hn.
  - cbn. constructor; constructor.
  - cbn [insert_row]. cbn [map] in Hs, Hn.
    apply StronglySorted_inv in Hs as [Hs Hy].
    destruct (id r <=? id y) eqn:E.
    + assert (id r <> id y) by (intros H; apply Hn; now left).
      cbn [map]. constructor.
      * constructor; assumption.
      * constructor; [lia|]. apply Forall_forall. intros z Hz.
        rewrite Forall_forall in Hy. specialize (Hy z Hz). lia.
    + cbn [map]. constructor.
      * apply IH; [assumption|]. intros H. apply Hn. now right.
      * apply Forall_forall. intros z Hz.
        apply in_map_iff in Hz as [x [<- Hx]].
        apply In_insert_row in Hx as [-> | Hx].
        -- lia.
        -- rewrite Forall_forall in Hy. apply Hy. now apply in_map.
Qed.

(** Sorting keeps the rows of one identifier in their order: a frame that
    is in ascending order already, rows of equal identifier included, is
    left as it is. *)
Lemma sort_values_sorted (df : DataFrame) :
  StronglySorted Z.le (map id df) -> sort_values df = df.
Proof.
  induction df as [|r df IH]; [reflexivity|]. cbn [map]. intros H.
  apply StronglySorted_inv in H as [Hs Hr].
  change (sort_values (r :: df)) with (insert_row r (sort_values df)).
  rewrite IH by assumption. destruct df as [|x df]; [reflexivity|].
  cbn [insert_row]. cbn [map] in Hr. apply Forall_inv in Hr.
  apply Z.leb_le in Hr. now rewrite Hr.
Qed.

Lemma filter_insert_row (i : Z) (r : Row) (df : DataFrame) :
  filter (fun x => id x =? i) (insert_row r df)
  = if id r =? i then r :: filter (fun x => id x =? i) df
    else filter (fun x => id x =? i) df.
Proof.
  induction df as [|x df IH]; [reflexivity|]. cbn [insert_row].
  destruct (id r <=? id x) eqn:E; [reflexivity|].
  cbn [filter]. rewrite IH.
  destruct (id r =? i) eqn:Er; [|reflexivity].
  assert (Hx : (id x =? i) = false) by lia. now rewrite Hx.
Qed.

(** In general: among the rows of one identifier, sorting changes nothing. *)
Lemma sort_values_stable (i : Z) (df : DataFrame) :
  filter (fun x => id x =? i) (sort_values df)
  = filter (fun x => id x =? i) df.
Proof.
  induction df as [|r df IH]; [reflexivity|].
  change (sort_values (r :: df)) with (insert_row r (sort_values df)).
  rewrite filter_insert_row, IH. cbn [filter]. now destruct (id r =? i).
Qed.

Lemma sort_values_increasing (df : DataFrame) :
  NoDup (map id df) -> StronglySorted Z.lt (map id (sort_values df)).
Proof.
  induction df as [|r df IH]; intros Hnd; [constructor|].
  cbn [map] in Hnd. inversion Hnd as [|? ? Hin Hnd']; subst.
  change (sort_values (r :: df)) with (insert_row r (sort_values df)).
  apply insert_row_increasing; [now apply IH|].
  now rewrite In_id_sort_values.
Qed.

(** Two increasing lists with the same members are the same list. *)
Lemma increasing_unique (l1 l2 : list Z) :
  StronglySorted Z.lt l1 -> StronglySorted Z.lt l2 ->
  (forall x, In x l1 <-> In x l2) -> l1 = l2.
Proof.
  revert l2. induction l1 as [|a l1 IH]; intros l2 H1 H2 Hm.
  - destruct l2 as [|b l2]; [reflexivity|].
    exfalso. apply (Hm b). now left.
  - destruct l2 as [|b l2]; [exfalso; apply (Hm a); now left|].
    apply StronglySorted_inv in H1 as [H1 Ha].
    apply StronglySorted_inv in H2 as [H2 Hb].
    rewrite Forall_forall in Ha, Hb.
    assert (Hab : a = b).
    { destruct (proj1 (Hm a) (or_introl eq_refl)) as [E | Hin]; [now symmetry|].
      destruct (proj2 (Hm b) (or_introl eq_refl)) as [E | Hin']; [assumption|].
      specialize (Ha _ Hin'). specialize (Hb _ Hin). lia. }
    subst b. f_equal. apply IH; [assumption | assumption |].
    intros x. split; intros Hx.
    + destruct (proj1 (Hm x) (or_intror Hx)) as [E | Hin]; [|assumption].
      specialize (Ha _ Hx). lia.
    + destruct (proj2 (Hm x) (or_intror Hx)) as [E | Hin]; [|assumption].
      specialize (Hb _ Hx). lia.
Qed.

Lemma In_intersection (i : Z) (df1 df2 : DataFrame) :
  In i (intersection df1 df2) <-> In i (map id df1) /\ In i (map id df2).
Proof.
  unfold intersection. rewrite filter_In, nodup_In, existsb_exists.
  split.
  - intros [H1 [x [Hx E]]]. apply Z.eqb_eq in E. now subst.
  - intros [H1 H2]. split; [assumption|]. exists i. now rewrite Z.eqb_refl.
Qed.

Lemma In_isin (r : Row) (ids : list Z) (df : DataFrame) :
  In r (isin ids df) <-> In r df /\ In (id r) ids.
Proof.
  unfold isin. rewrite filter_In, existsb_exists. split.
  - intros [H [x [Hx E]]]. apply Z.eqb_eq in E. now subst.
  - intros [H1 H2]. split; [assumption|]. exists (id r). now rewrite Z.eqb_refl.
Qed.

Lemma In_id_isin (i : Z) (ids : list Z) (df : DataFrame) :
  In i (map id (isin ids df)) <-> In i (map id df) /\ In i ids.
Proof.
  rewrite !in_map_iff. split.
  - intros [r [<- H]]. apply In_isin in H as [H1 H2].
    split; [now exists r | assumption].
  - intros [[r [<- H1]] H2]. exists r. split; [reflexivity|].
    now apply In_isin.
Qed.

Lemma NoDup_id_isin (ids : list Z) (df : DataFrame) :
  NoDup (map id df) -> NoDup (map id (isin ids df)).
Proof. apply NoDup_map_filter. Qed.

Lemma frames_aligned (df1 df2 : DataFrame) :
  NoDup (map id df1) -> NoDup (map id df2) ->
  map id (sort_values (isin (intersection df1 df2) df1))
  = map id (sort_values (isin (intersection df1 df2) df2)).
Proof.
  intros H1 H2. apply increasing_unique.
  - now apply sort_values_increasing, NoDup_id_isin.
  - now apply sort_values_increasing, NoDup_id_isin.
  - intros x. rewrite !In_id_sort_values, !In_id_isin, In_intersection. tauto.
Qed.

Section Orchestrator.
Context {rt : Runtime}.
Variable session : Session.

Lemma returned_main_loop (df1 df2 : DataFrame) :
  intersection df1 df2 <> [] ->
  let common_ids := intersection df1 df2 in
  let df1_filtered := sort_values (isin common_ids df1) in
  let df2_filtered := sort_values (isin common_ids df2) in
  returned (main session df1 df2)
  = (mismatches <-
       process_results df1_filtered
         (returned (verify_urls session (map url df1_filtered)
                                (map url df2_filtered))) 0 [] ;;
     Ok (Verified mismatches)).
Proof.
  intros Hne. unfold main. destruct (intersection df1 df2) as [|i0 ids] eqn:E;
    [contradiction|].
  cbv zeta. now rewrite returned_io_bind.
Qed.

(** X21: the only exception that leaves a run is the [ValueError] of a URL
    that does not parse; the look-up of a row's identifier is never out of
    bounds. *)
Theorem main_only_value_error (df1 df2 : DataFrame) (e : exn) :
  returned (main session df1 df2) = Raise e -> e = ValueError.
Proof.
  destruct (intersection df1 df2) as [|i0 ids] eqn:E.
  - unfold main. rewrite E. discriminate.
  - rewrite returned_main_loop by (rewrite E; discriminate). cbv zeta.
    destruct (process_results _ _ 0 []) as [ms|e1] eqn:Hp; cbn [bind];
      [discriminate|].
    intros H. injection H as <-.
    apply process_results_raises in Hp; [assumption|].
    pose proof (length_verify_urls session
                  (map url (sort_values (isin (intersection df1 df2) df1)))
                  (map url (sort_values (isin (intersection df1 df2) df2)))) as L.
    rewrite length_map in L. exact L.
Qed.

(** X22: when no identifier occurs twice in a sheet, the two filtered and
    sorted frames hold the same identifiers in the same order: the [i]-th
    row of the one and the [i]-th row of the other belong together. *)
Theorem main_frames_aligned (df1 df2 : DataFrame) :
  NoDup (map id df1) -> NoDup (map id df2) ->
  let common_ids := intersection df1 df2 in
  map id (sort_values (isin common_ids df1))
  = map id (sort_values (isin common_ids df2)).
Proof. intros H1 H2. now apply frames_aligned. Qed.

Lemma process_results_records df results i acc ms :
  process_results df results i acc = Ok ms ->
  forall m, In m ms ->
    In m acc \/
    exists k r,
      nth_error results k = Some (m_url1 m, m_url2 m) /\
      nth_error df (i + k) = Some r /\ id r = m_id m /\
      compare_urls (m_url1 m) (m_url2 m) = Ok (false, m_details m).
Proof.
  revert i acc ms. induction results as [|[u1 u2] rest IH]; intros i acc ms.
  - cbn. intros H m Hm. apply Ok_inj in H. subst. now left.
  - cbn [process_results].
    assert (Hstep : forall acc' ms',
              process_results df rest (S i) acc' = Ok ms' ->
              forall m, In m ms' ->
                In m acc' \/
                exists k r,
                  nth_error ((u1, u2) :: rest) k = Some (m_url1 m, m_url2 m) /\
                  nth_error df (i + k) = Some r /\ id r = m_id m /\
                  compare_urls (m_url1 m) (m_url2 m) = Ok (false, m_details m)).
    { intros acc' ms' H m Hm.
      destruct (IH _ _ _ H m Hm) as [Ha | [k [r [Hk [Hr Hc]]]]]; [now left|].
      right. exists (S k), r. split; [exact Hk|].
      split; [now rewrite Nat.add_succ_r | assumption]. }
    destruct (contains _ u2).
    + destruct (iloc_id df i); [|discriminate]. cbn [bind]. apply Hstep.
    + destruct (compare_urls u1 u2) as [[matches details]|] eqn:Hc;
        [|discriminate].
      cbn [bind]. destruct matches; cbn [negb]; [apply Hstep|].
      unfold iloc_id. destruct (nth_error df i) as [r|] eqn:Hr; [|discriminate].
      cbn [bind]. intros H m Hm.
      destruct (Hstep _ _ H m Hm) as [Ha | Hex]; [|now right].
      apply in_app_or in Ha as [Ha | [<- | []]]; [now left|].
      right. exists 0%nat, r. cbn [nth_error m_url1 m_url2 m_id m_details].
      rewrite Nat.add_0_r. repeat split; assumption.
Qed.

(** X23: when no identifier occurs twice in a sheet and no URL is blank,
    every mismatch record is about one identifier of both sheets: its first
    URL is the canonical form of what that identifier's URL of the first
    sheet resolves to, its second URL is what that identifier's URL of the
    second sheet resolves to, and the comparator rejected the two with the
    record's details. *)
Theorem main_records_belong (df1 df2 : DataFrame) (ms : list Mismatch) :
  NoDup (map id df1) -> NoDup (map id df2) ->
  Forall (fun r => truthy (strip (url r)) = true) df1 ->
  Forall (fun r => truthy (strip (url r)) = true) df2 ->
  returned (main session df1 df2) = Ok (Verified ms) ->
  forall m, In m ms ->
    exists r1 r2,
      In r1 df1 /\ In r2 df2 /\ id r1 = m_id m /\ id r2 = m_id m /\
      m_url1 m = canonicalize (returned (resolve session (url r1))) /\
      m_url2 m = returned (resolve session (url r2)) /\
      compare_urls (m_url1 m) (m_url2 m) = Ok (false, m_details m).
Proof.
  intros Hn1 Hn2 Hb1 Hb2 Hmain m Hm.
  destruct (intersection df1 df2) as [|i0 ids] eqn:E.
  { unfold main in Hmain. rewrite E in Hmain. discriminate. }
  rewrite returned_main_loop in Hmain by (rewrite E; discriminate).
  cbv zeta in Hmain.
  pose proof (frames_aligned df1 df2 Hn1 Hn2) as Hal.
  set (f1 := sort_values (isin (intersection df1 df2) df1)) in *.
  set (f2 := sort_values (isin (intersection df1 df2) df2)) in *.
  assert (Hin1 : forall r, In r f1 -> In r df1).
  { intros r Hr. apply In_sort_values, In_isin in Hr. tauto. }
  assert (Hin2 : forall r, In r f2 -> In r df2).
  { intros r Hr. apply In_sort_values, In_isin in Hr. tauto. }
  rewrite verify_urls_zipped in Hmain.
  - destruct (process_results f1 _ 0 []) as [ms'|] eqn:Hp; [|discriminate].
    cbn [bind] in Hmain. apply Ok_inj in Hmain. injection Hmain as ->.
    destruct (process_results_records _ _ _ _ _ Hp m Hm)
      as [[] | [k [r [Hk [Hr [Hid Hc]]]]]].
    cbn [Nat.add] in Hr.
    destruct (nth_error f2 k) as [r2|] eqn:Hr2.
    + exists r, r2.
      assert (Hid2 : id r2 = id r).
      { pose proof (map_nth_error id _ _ Hr) as A1.
        pose proof (map_nth_error id _ _ Hr2) as A2.
        rewrite Hal in A1. congruence. }
      pose proof (nth_error_In _ _ Hr) as I1.
      pose proof (nth_error_In _ _ Hr2) as I2.
      assert (Hpair : nth_error
                (combine
                   (map (fun u => canonicalize (returned (resolve session u)))
                        (map url f1))
                   (map (fun u => returned (resolve session u)) (map url f2))) k
              = Some (canonicalize (returned (resolve session (url r))),
                      returned (resolve session (url r2)))).
      { rewrite !map_map.
        pose proof (map_nth_error
                      (fun x => canonicalize (returned (resolve session (url x))))
                      _ _ Hr) as B1.
        pose proof (map_nth_error
                      (fun x => returned (resolve session (url x))) _ _ Hr2) as B2.
        revert B1 B2. generalize (map (fun x => canonicalize
                                         (returned (resolve session (url x)))) f1).
        generalize (map (fun x => returned (resolve session (url x))) f2).
        intros lb la. revert la lb. clear.
        induction k as [|k IH]; intros [|a la] [|b lb]; cbn; try discriminate.
        - now intros [= ->] [= ->].
        - apply IH. }
      rewrite Hpair in Hk. injection Hk as Hu1 Hu2.
      repeat split; auto; congruence.
    + exfalso. apply nth_error_None in Hr2.
      assert (Hlt : (k < List.length f1)%nat)
        by (apply nth_error_Some; congruence).
      apply (f_equal (@List.length Z)) in Hal. rewrite !length_map in Hal. lia.
  - apply (f_equal (@List.length Z)) in Hal. now rewrite !length_map in *.
  - apply forallb_forall. intros u Hu. apply in_map_iff in Hu as [r [<- Hr]].
    rewrite Forall_forall in Hb1. now apply Hb1, Hin1.
  - apply forallb_forall. intros u Hu. apply in_map_iff in Hu as [r [<- Hr]].
    rewrite Forall_forall in Hb2. now apply Hb2, Hin2.
Qed.

Lemma process_results_keeps df results i acc ms :
  process_results df results i acc = Ok ms -> forall m, In m acc -> In m ms.
Proof.
  revert i acc ms. induction results as [|[u1 u2] rest IH]; intros i acc ms.
  - cbn. intros H m Hm. apply Ok_inj in H. now subst.
  - cbn [process_results]. destruct (contains _ u2).
    + destruct (iloc_id df i); [|discriminate]. cbn [bind]. apply IH.
    + destruct (compare_urls u1 u2) as [[matches details]|]; [|discriminate].
      cbn [bind]. destruct matches; cbn [negb]; [apply IH|].
      destruct (iloc_id df i); [|discriminate]. cbn [bind].
      intros H m Hm. apply (IH _ _ _ H). apply in_or_app. now left.
Qed.

Lemma process_results_complete df results i acc ms :
  process_results df results i acc = Ok ms ->
  forall k u1 u2 r details,
    nth_error results k = Some (u1, u2) ->
    nth_error df (i + k) = Some r ->
    contains (py "web.archive.org") u2 = false ->
    compare_urls u1 u2 = Ok (false, details) ->
    In (mkMismatch (id r) u1 u2 details) ms.
Proof.
  revert i acc ms. induction results as [|[a b] rest IH]; intros i acc ms H k.
  - intros u1 u2 r details Hk. now destruct k.
  - cbn [process_results] in H. destruct k as [|k].
    + intros u1 u2 r details Hk Hr Ha Hc. cbn in Hk. injection Hk as -> ->.
      rewrite Nat.add_0_r in Hr. rewrite Ha, Hc in H. cbn [bind negb] in H.
      unfold iloc_id in H. rewrite Hr in H. cbn [bind] in H.
      apply (process_results_keeps _ _ _ _ _ H). apply in_or_app.
      right. now left.
    + intros u1 u2 r details Hk Hr Ha Hc. cbn [nth_error] in Hk.
      rewrite Nat.add_succ_r in Hr.
      assert (Hstep : forall acc', process_results df rest (S i) acc' = Ok ms ->
                In (mkMismatch (id r) u1 u2 details) ms).
      { intros acc' H'. exact (IH _ _ _ H' k u1 u2 r details Hk Hr Ha Hc). }
      destruct (contains _ b).
      * destruct (iloc_id df i); [|discriminate]. cbn [bind] in H.
        now apply Hstep in H.
      * destruct (compare_urls a b) as [[matches d]|]; [|discriminate].
        cbn [bind] in H. destruct matches; cbn [negb] in H;
          [now apply Hstep in H|].
        destruct (iloc_id df i); [|discriminate]. cbn [bind] in H.
        now apply Hstep in H.
Qed.

Lemma nth_error_combine_some {A B} (la : list A) (lb : list B) (k : nat)
    (a : A) (b : B) :
  nth_error la k = Some a -> nth_error lb k = Some b ->
  nth_error (combine la lb) k = Some (a, b).
Proof.
  revert la lb. induction k as [|k IH]; intros [|x la] [|y lb]; cbn;
    try discriminate.
  - intros H1 H2. injection H1 as ->. now injection H2 as ->.
  - apply IH.
Qed.

Lemma NoDup_map_inj {A B} (f : A -> B) (l : list A) (a b : A) :
  NoDup (map f l) -> In a l -> In b l -> f a = f b -> a = b.
Proof.
  induction l as [|x l IH]; [contradiction|]. cbn [map].
  intros H Ha Hb E. inversion H as [|? ? Hx Hl]; subst.
  destruct Ha as [-> | Ha], Hb as [-> | Hb]; try reflexivity.
  - exfalso. apply Hx. rewrite E. now apply in_map.
  - exfalso. apply Hx. rewrite <- E. now apply in_map.
  - now apply IH.
Qed.

(** X24: no mismatch is missed: when no identifier occurs twice in a sheet,
    no URL is blank and the run comes to its end, every identifier of both
    sheets whose two resolved URLs the comparator rejects has its record,
    unless the second URL holds the archive's name. *)
Theorem main_records_complete (df1 df2 : DataFrame) (ms : list Mismatch)
    (r1 r2 : Row) (details : str) :
  NoDup (map id df1) -> NoDup (map id df2) ->
  Forall (fun r => truthy (strip (url r)) = true) df1 ->
  Forall (fun r => truthy (strip (url r)) = true) df2 ->
  returned (main session df1 df2) = Ok (Verified ms) ->
  In r1 df1 -> In r2 df2 -> id r1 = id r2 ->
  let url1 := canonicalize (returned (resolve session (url r1))) in
  let url2 := returned (resolve session (url r2)) in
  contains (py "web.archive.org") url2 = false ->
  compare_urls url1 url2 = Ok (false, details) ->
  In (mkMismatch (id r1) url1 url2 details) ms.
Proof.
  intros Hn1 Hn2 Hb1 Hb2 Hmain I1 I2 Hid url1 url2 Harch Hcmp.
  destruct (intersection df1 df2) as [|i0 ids] eqn:E.
  { unfold main in Hmain. rewrite E in Hmain. discriminate. }
  rewrite returned_main_loop in Hmain by (rewrite E; discriminate).
  cbv zeta in Hmain.
  pose proof (frames_aligned df1 df2 Hn1 Hn2) as Hal.
  assert (Hcommon : In (id r1) (intersection df1 df2)).
  { apply In_intersection. split; [now apply in_map|].
    rewrite Hid. now apply in_map. }
  set (f1 := sort_values (isin (intersection df1 df2) df1)) in *.
  set (f2 := sort_values (isin (intersection df1 df2) df2)) in *.
  assert (Hin1 : forall r, In r f1 -> In r df1).
  { intros r Hr. apply In_sort_values, In_isin in Hr. tauto. }
  assert (Hin2 : forall r, In r f2 -> In r df2).
  { intros r Hr. apply In_sort_values, In_isin in Hr. tauto. }
  assert (F1 : In r1 f1) by (apply In_sort_values, In_isin; tauto).
  apply In_nth_error in F1 as [k Hk1].
  destruct (nth_error f2 k) as [r2'|] eqn:Hk2.
  2:{ exfalso. apply nth_error_None in Hk2.
      assert (Hlt : (k < List.length f1)%nat)
        by (apply nth_error_Some; congruence).
      apply (f_equal (@List.length Z)) in Hal. rewrite !length_map in Hal. lia. }
  assert (Hr2 : r2' = r2).
  { apply (NoDup_map_inj id df2); try assumption.
    - apply Hin2. now apply nth_error_In in Hk2.
    - pose proof (map_nth_error id _ _ Hk1) as A1.
      pose proof (map_nth_error id _ _ Hk2) as A2.
      rewrite Hal in A1. congruence. }
  subst r2'.
  rewrite verify_urls_zipped in Hmain.
  - destruct (process_results f1 _ 0 []) as [ms'|] eqn:Hp; [|discriminate].
    cbn [bind] in Hmain. apply Ok_inj in Hmain. injection Hmain as ->.
    apply (process_results_complete _ _ _ _ _ Hp k); try assumption.
    rewrite !map_map.
    pose proof (map_nth_error
                  (fun x => canonicalize (returned (resolve session (url x))))
                  _ _ Hk1) as B1.
    pose proof (map_nth_error
                  (fun x => returned (resolve session (url x))) _ _ Hk2) as B2.
    now apply nth_error_combine_some.
  - apply (f_equal (@List.length Z)) in Hal. now rewrite !length_map in *.
  - apply forallb_forall. intros u Hu. apply in_map_iff in Hu as [r [<- Hr]].
    rewrite Forall_forall in Hb1. now apply Hb1, Hin1.
  - apply forallb_forall. intros u Hu. apply in_map_iff in Hu as [r [<- Hr]].
    rewrite Forall_forall in Hb2. now apply Hb2, Hin2.
Qed.

(** X25: a run asks the network for nothing but URLs of rows whose
    identifier occurs in both sheets. *)
Theorem main_requests (df1 df2 : DataFrame) (u : str) :
  In u (requests (main session df1 df2)) ->
  exists r, (In r df1 \/ In r df2) /\ url r = u /\
            In (id r) (map id df1) /\ In (id r) (map id df2).
Proof.
  unfold main. destruct (intersection df1 df2) as [|i0 ids] eqn:E;
    [contradiction|].
  cbv zeta. rewrite requests_io_bind. cbn [io_ret requests fst].
  rewrite app_nil_r. rewrite <- E. intros H.
  apply In_requests_verify_urls in H as [[H | H] _];
    apply in_map_iff in H as [r [Hu Hr]];
    apply In_sort_values, In_isin in Hr as [Hr Hc];
    apply In_intersection in Hc as [H1 H2]; exists r; tauto.
Qed.

End Orchestrator.

Lemma NoDup_example_sheet1 : NoDup (map id example_sheet1).
Proof.
  repeat constructor; cbn; intros H;
    repeat (destruct H as [H | H]; [discriminate H|]); exact H.
Defined.

Lemma NoDup_example_sheet2 : NoDup (map id example_sheet2).
Proof.
  repeat constructor; cbn; intros H;
    repeat (destruct H as [H | H]; [discriminate H|]); exact H.
Defined.

Lemma nonblank_example_sheet1 :
  Forall (fun r => truthy (strip (url r)) = true) example_sheet1.
Proof. repeat constructor. Defined.

Lemma nonblank_example_sheet2 :
  Forall (fun r => truthy (strip (url r)) = true) example_sheet2.
Proof. repeat constructor. Defined.

Lemma example_run :
  returned (main (rt := ascii_runtime) offline example_sheet1 example_sheet2)
  = Ok (Verified [example_mismatch]).
Proof. reflexivity. Defined.

(** X20, on an example. *)
Lemma compare_urls_only_value_error_witness : ValueError = ValueError.
Proof.
  apply (compare_urls_only_value_error (rt := ascii_runtime)
           (py "http://example.com/a") (py "http://[example.com/a") ValueError).
  reflexivity.
Defined.

(** X21, on an example. *)
Lemma main_only_value_error_witness : ValueError = ValueError.
Proof.
  apply (main_only_value_error (rt := ascii_runtime) offline
           [mkRow 1 (py "http://[example.com/a")]
           [mkRow 1 (py "http://example.com/a")] ValueError).
  reflexivity.
Defined.

(** X22, on an example. *)
Lemma main_frames_aligned_witness :
  map id (sort_values (isin (intersection example_sheet1 example_sheet2)
                            example_sheet1))
  = map id (sort_values (isin (intersection example_sheet1 example_sheet2)
                              example_sheet2)).
Proof.
  apply (main_frames_aligned example_sheet1 example_sheet2
           NoDup_example_sheet1 NoDup_example_sheet2).
Defined.

(** X23, on an example. *)
Lemma main_records_belong_witness :
  exists r1 r2,
    In r1 example_sheet1 /\ In r2 example_sheet2 /\
    id r1 = m_id example_mismatch /\ id r2 = m_id example_mismatch /\
    m_url1 example_mismatch
    = canonicalize (rt := ascii_runtime) (returned (resolve offline (url r1))) /\
    m_url2 example_mismatch = returned (resolve offline (url r2)) /\
    compare_urls (rt := ascii_runtime)
      (m_url1 example_mismatch) (m_url2 example_mismatch)
    = Ok (false, m_details example_mismatch).
Proof.
  apply (main_records_belong (rt := ascii_runtime) offline
           example_sheet1 example_sheet2 [example_mismatch]
           NoDup_example_sheet1 NoDup_example_sheet2
           nonblank_example_sheet1 nonblank_example_sheet2 example_run).
  left. reflexivity.
Defined.

(** X24, on an example. *)
Lemma main_records_complete_witness :
  In example_mismatch [example_mismatch].
Proof.
  apply (main_records_complete (rt := ascii_runtime) offline
           example_sheet1 example_sheet2 [example_mismatch]
           (mkRow 1 (py "http://short.example/a"))
           (mkRow 1 (py "http://long.example/a"))
           (py "Different domains")
           NoDup_example_sheet1 NoDup_example_sheet2
           nonblank_example_sheet1 nonblank_example_sheet2 example_run).
  - right. left. reflexivity.
  - left. reflexivity.
  - reflexivity.
  - reflexivity.
  - reflexivity.
Defined.

(** X25, on an example. *)
Lemma main_requests_witness :
  exists r, (In r example_sheet1 \/ In r example_sheet2) /\
            url r = py "http://long.example/a" /\
            In (id r) (map id example_sheet1) /\
            In (id r) (map id example_sheet2).
Proof.
  apply (main_requests (rt := ascii_runtime) offline example_sheet1 example_sheet2).
  vm_compute. right. right. left. reflexivity.
Defined.

(** ** The orchestrator: the order of the rows *)

(** Two frames in increasing order of identifier with the same rows are
    the same frame. *)
Lemma increasing_rows_unique (l1 l2 : DataFrame) :
  StronglySorted Z.lt (map id l1) -> StronglySorted Z.lt (map id l2) ->
  (forall r, In r l1 <-> In r l2) -> l1 = l2.
Proof.
  revert l2. induction l1 as [|a l1 IH]; intros l2 H1 H2 Hm.
  - destruct l2 as [|b l2]; [reflexivity|].
    exfalso. apply (Hm b). now left.
  - destruct l2 as [|b l2]; [exfalso; apply (Hm a); now left|].
    cbn [map] in H1, H2.
    apply StronglySorted_inv in H1 as [H1 Ha].
    apply StronglySorted_inv in H2 as [H2 Hb].
    rewrite Forall_forall in Ha, Hb.
    assert (Hab : a = b).
    { destruct (proj1 (Hm a) (or_introl eq_refl)) as [E | Hin]; [now symmetry|].
      destruct (proj2 (Hm b) (or_introl eq_refl)) as [E | Hin']; [assumption|].
      pose proof (Ha _ (in_map id _ _ Hin')).
      pose proof (Hb _ (in_map id _ _ Hin)). lia. }
    subst b. f_equal. apply IH; [assumption | assumption |].
    intros x. split; intros Hx.
    + destruct (proj1 (Hm x) (or_intror Hx)) as [E | Hin]; [|assumption].
      subst x. pose proof (Ha _ (in_map id _ _ Hx)). lia.
    + destruct (proj2 (Hm x) (or_intror Hx)) as [E | Hin]; [|assumption].
      subst x. pose proof (Hb _ (in_map id _ _ Hx)). lia.
Qed.

Lemma filtered_frames_equal (df df' : DataFrame) (ids ids' : list Z) :
  NoDup (map id df) -> NoDup (map id df') ->
  (forall r, In r df <-> In r df') -> (forall i, In i ids <-> In i ids') ->
  sort_values (isin ids df) = sort_values (isin ids' df').
Proof.
  intros Hn Hn' Hrows Hids. apply increasing_rows_unique.
  - now apply sort_values_increasing, NoDup_id_isin.
  - now apply sort_values_increasing, NoDup_id_isin.
  - intros r. rewrite !In_sort_values, !In_isin, Hrows, Hids. tauto.
Qed.

Section RowOrder.
Context {rt : Runtime}.
Variable session : Session.

Lemma main_same_rows (df1 df1' df2 df2' : DataFrame) :
  NoDup (map id df1) -> NoDup (map id df1') ->
  NoDup (map id df2) -> NoDup (map id df2') ->
  (forall r, In r df1 <-> In r df1') -> (forall r, In r df2 <-> In r df2') ->
  main session df1 df2 = main session df1' df2'.
Proof.
  intros N1 N1' N2 N2' R1 R2.
  assert (Hids : forall i, In i (intersection df1 df2)
                           <-> In i (intersection df1' df2')).
  { intros i. rewrite !In_intersection, !in_map_iff. split;
      intros [[r1 [E1 I1]] [r2 [E2 I2]]]; split;
      solve [ exists r1; split; [assumption | now apply R1]
            | exists r2; split; [assumption | now apply R2] ]. }
  pose proof (filtered_frames_equal df1 df1' _ _ N1 N1' R1 Hids) as F1.
  pose proof (filtered_frames_equal df2 df2' _ _ N2 N2' R2 Hids) as F2.
  unfold main.
  destruct (intersection df1 df2) as [|i0 ids] eqn:E;
    destruct (intersection df1' df2') as [|i0' ids'] eqn:E'.
  - reflexivity.
  - exfalso. apply (Hids i0'). now left.
  - exfalso. apply (Hids i0). now left.
  - cbv zeta. now rewrite F1, F2.
Qed.

(** X26: when no identifier occurs twice within a sheet, the order of the
    rows in the sheets does not matter: a run on the same rows in another
    order asks for the same URLs and gives the same result. *)
Theorem main_row_order (df1 df1' df2 df2' : DataFrame) :
  NoDup (map id df1) -> NoDup (map id df2) ->
  Permutation df1 df1' -> Permutation df2 df2' ->
  main session df1 df2 = main session df1' df2'.
Proof.
  intros N1 N2 P1 P2. apply main_same_rows; try assumption.
  - apply (Permutation_NoDup (Permutation_map id P1) N1).
  - apply (Permutation_NoDup (Permutation_map id P2) N2).
  - intros r. split; apply Permutation_in; [assumption | now symmetry].
  - intros r. split; apply Permutation_in; [assumption | now symmetry].
Qed.

End RowOrder.

(** X26, on an example. *)
Lemma main_row_order_witness :
  main (rt := ascii_runtime) offline example_sheet1 example_sheet2
  = main (rt := ascii_runtime) offline (rev example_sheet1) (rev example_sheet2).
Proof.
  apply (main_row_order (rt := ascii_runtime) offline
           example_sheet1 (rev example_sheet1) example_sheet2 (rev example_sheet2)
           NoDup_example_sheet1 NoDup_example_sheet2).
  - apply Permutation_rev.
  - apply Permutation_rev.
Defined.

(** ** URLs that always parse *)

Lemma In_delete (c d : Z) (s : str) : In c (delete d s) -> In c s.
Proof. unfold delete. intros H. now apply filter_In in H as [H _]. Qed.

Lemma In_preprocess (c : Z) (url : str) : In c (preprocess url) -> In c url.
Proof.
  unfold preprocess, _UNSAFE_URL_BYTES_TO_REMOVE. cbn [fold_left].
  intros H. do 3 apply In_delete in H.
  destruct (lstrip_suffix c0_control_or_space url) as [t Ht].
  rewrite Ht. apply in_or_app. now right.
Qed.

Section Plain.
Context {rt : Runtime}.

Lemma In_split_scheme (url s u1 : str) :
  split_scheme url = (s, u1) -> forall c, In c u1 -> In c url.
Proof.
  intros H c Hc.
  destruct (split_scheme_cases url) as [E | [pre [rest [Hu [_ [_ E]]]]]];
    rewrite E in H; injection H as <- <-; [assumption|].
  rewrite Hu. apply in_or_app. right. now right.
Qed.

Lemma bracket_checks_plain (n : str) :
  has (chr "[") n = false -> has (chr "]") n = false ->
  bracket_checks n = Ok tt.
Proof. intros H1 H2. unfold bracket_checks. now rewrite H1, H2. Qed.

Lemma split_netloc_plain (u1 : str) :
  has (chr "[") u1 = false -> has (chr "]") u1 = false ->
  exists n u2, split_netloc u1 = Ok (n, u2) /\
    (forall c, In c n -> In c u1) /\ (forall c, In c u2 -> In c u1).
Proof.
  intros H1 H2. unfold split_netloc. destruct (eqb_str _ _) eqn:E.
  - apply slice_to_2_slashes in E as [t ->].
    destruct (netloc_span t) as [n [r [-> [Hn Hr]]]].
    rewrite splitnetloc_found by assumption.
    apply has_app_false in H1 as [_ H1]. apply has_app_false in H1 as [H1 _].
    apply has_app_false in H2 as [_ H2]. apply has_app_false in H2 as [H2 _].
    rewrite bracket_checks_plain by assumption. cbn [bind].
    exists n, r. split; [reflexivity|].
    split; intros c Hc; apply in_or_app; right; apply in_or_app; tauto.
  - exists [], u1. split; [reflexivity|]. split; [intros c []| auto].
Qed.

Lemma checknetloc_ascii (n : str) : isascii n = true -> _checknetloc n = Ok tt.
Proof. intros H. unfold _checknetloc. now rewrite H, orb_true_r. Qed.

(** The characters of the parts are characters of the URL. *)
Lemma urlsplit_plain_parts (url : str) :
  isascii url = true ->
  has (chr "[") url = false -> has (chr "]") url = false ->
  exists sr, urlsplit url = Ok sr /\
             forall c, In c (s_query sr) -> In c url.
Proof.
  intros Ha H1 H2. rewrite urlsplit_steps.
  destruct (split_scheme (preprocess url)) as [s u1] eqn:Es.
  assert (Hu1 : forall c, In c u1 -> In c url).
  { intros c Hc. apply In_preprocess. now apply (In_split_scheme _ _ _ Es). }
  assert (Hb1 : has (chr "[") u1 = false).
  { apply has_false_In. intros H. apply Hu1 in H.
    now apply has_false_In in H1. }
  assert (Hb2 : has (chr "]") u1 = false).
  { apply has_false_In. intros H. apply Hu1 in H.
    now apply has_false_In in H2. }
  destruct (split_netloc_plain u1 Hb1 Hb2) as [n [u2 [-> [Hn Hu2]]]].
  cbn [bind].
  destruct (split_fragment_cases u2) as [u3 [f [-> [_ Hf]]]].
  destruct (split_query_cases u3) as [p [q [-> [_ Hq]]]].
  rewrite checknetloc_ascii.
  - cbn [bind]. eexists. split; [reflexivity|]. cbn [s_query].
    intros c Hc. apply Hu1, Hu2.
    assert (H3 : In c u3).
    { destruct Hq as [-> | [_ ->]]; [|contradiction].
      apply in_or_app. right. now right. }
    destruct Hf as [-> | [-> _]]; [|assumption].
    apply in_or_app. now left.
  - unfold isascii in *. rewrite forallb_forall in *.
    intros c Hc. now apply Ha, Hu1, Hn.
Qed.

Lemma urlparse_plain (url : str) :
  isascii url = true ->
  has (chr "[") url = false -> has (chr "]") url = false ->
  exists p, urlparse url = Ok p /\ forall c, In c (query p) -> In c url.
Proof.
  intros Ha H1 H2.
  destruct (urlsplit_plain_parts url Ha H1 H2) as [sr [Hsr Hq]].
  rewrite urlparse_steps, Hsr. cbn [bind].
  destruct (split_params _ _). eexists. split; [reflexivity | exact Hq].
Qed.

(** X27: on two ASCII URLs without square brackets the comparator always
    gives a verdict: it raises nothing. *)
Theorem compare_urls_plain (url1 url2 : str) :
  isascii url1 = true ->
  has (chr "[") url1 = false -> has (chr "]") url1 = false ->
  isascii url2 = true ->
  has (chr "[") url2 = false -> has (chr "]") url2 = false ->
  exists matches details, compare_urls url1 url2 = Ok (matches, details).
Proof.
  intros A1 B1 C1 A2 B2 C2.
  destruct (urlparse_plain url1 A1 B1 C1) as [p1 [H1 _]].
  destruct (urlparse_plain url2 A2 B2 C2) as [p2 [H2 _]].
  rewrite (compare_urls_parsed _ _ _ _ H1 H2).
  destruct (negb _); [now eexists; eexists|].
  destruct (negb _); now eexists; eexists.
Qed.

End Plain.

(** X27, on an example. *)
Lemma compare_urls_plain_witness :
  exists matches details,
    compare_urls (rt := ascii_runtime)
      (py "https://example.com/a") (py "mailto:someone@example.com")
    = Ok (matches, details).
Proof.
  apply (compare_urls_plain (rt := ascii_runtime)); reflexivity.
Defined.

(** ** Text that can be encoded *)

Lemma utf8_encode_char_scalar (c : Z) :
  scalar c = true -> exists b, utf8_encode_char c = Ok b.
Proof.
  unfold scalar, utf8_encode_char. intros H.
  destruct (c <? 0) eqn:E0; [lia|].
  destruct (c <? 128); [now eexists|].
  destruct (c <? 2048); [now eexists|].
  destruct (c <? 65536).
  - destruct ((55296 <=? c) && (c <=? 57343)) eqn:E; [lia | now eexists].
  - destruct (c <? 1114112) eqn:E; [now eexists | lia].
Qed.

Lemma utf8_encode_scalars (s : str) :
  scalars s = true -> exists bs, utf8_encode s = Ok bs.
Proof.
  unfold scalars. induction s as [|c s IH]; [now exists []|].
  cbn [forallb utf8_encode]. intros H. apply andb_true_iff in H as [Hc Hs].
  destruct (utf8_encode_char_scalar c Hc) as [b ->].
  destruct (IH Hs) as [bs ->]. cbn [bind]. now eexists.
Qed.

Lemma quote_scalars (s : str) (safe : list Z) :
  scalars s = true -> exists q, quote s safe = Ok q.
Proof.
  intros H. unfold quote. destruct (negb (truthy s)); [now eexists|].
  destruct (utf8_encode_scalars s H) as [bs ->]. cbn [bind]. now eexists.
Qed.

Lemma quote_plus_scalars (s : str) :
  scalars s = true -> exists q, quote_plus s = Ok q.
Proof.
  intros H. unfold quote_plus. destruct (negb (has (chr " ") s)).
  - now apply quote_scalars.
  - destruct (quote_scalars s ([] ++ py " ") H) as [q ->]. cbn [bind].
    now eexists.
Qed.

Lemma mapM_total {A B} (f : A -> result B) (l : list A) :
  Forall (fun a => exists b, f a = Ok b) l -> exists r, mapM f l = Ok r.
Proof.
  induction 1 as [|a l [b Hb] _ [r IH]]; [now exists []|].
  cbn [mapM]. rewrite Hb, IH. cbn [bind]. now eexists.
Qed.

Lemma urlencode_scalars (d : dict) :
  dict_scalars d -> exists q, urlencode d = Ok q.
Proof.
  intros H. unfold urlencode.
  destruct (mapM_total
              (fun '(k, v) =>
                 k <- quote_plus k ;;
                 mapM (fun elt => elt <- quote_plus elt ;; Ok (k ++ py "=" ++ elt)) v)
              d) as [l Hl].
  - unfold dict_scalars in H. rewrite Forall_forall in *.
    intros [k vs] Hkv. destruct (H _ Hkv) as [Hk Hvs]. cbn [fst snd] in *.
    destruct (quote_plus_scalars k Hk) as [qk ->]. cbn [bind].
    apply mapM_total. rewrite Forall_forall in *. intros v Hv.
    destruct (quote_plus_scalars v (Hvs v Hv)) as [qv ->]. cbn [bind].
    now eexists.
  - rewrite Hl. cbn [bind]. now eexists.
Qed.

(** *** Decoding gives such text *)

Lemma scalar_replacement : scalar REPLACEMENT = true.
Proof. reflexivity. Qed.

Lemma utf8_decode_scalars_upto (n : nat) (bs : bytes) :
  (List.length bs <= n)%nat -> Forall is_byte bs ->
  scalars (utf8_decode bs) = true.
Proof.
  unfold scalars. revert bs. induction n as [|n IH]; intros bs Hlen Hb.
  { destruct bs; [reflexivity | cbn in Hlen; lia]. }
  destruct bs as [|b r1]; [reflexivity|].
  cbn [List.length] in Hlen.
  apply Forall_cons_iff in Hb as [Hb0 Hb1]. unfold is_byte in Hb0.
  assert (T1 : forallb scalar (utf8_decode r1) = true)
    by (apply IH; [lia | assumption]).
  assert (R : forall t, forallb scalar t = true ->
              forallb scalar (REPLACEMENT :: t) = true)
    by (intros t Ht; cbn [forallb]; now rewrite scalar_replacement, Ht).
  cbn [utf8_decode].
  destruct (b <? 128) eqn:E1.
  { cbn [forallb]. rewrite T1, andb_true_r. unfold scalar. lia. }
  destruct (b <? 194) eqn:E2; [now apply R|].
  destruct (b <? 224) eqn:E3.
  { destruct r1 as [|b2 r2]; [reflexivity|].
    cbn [List.length] in Hlen.
    apply Forall_cons_iff in Hb1 as [Hb2 Hb1']. unfold is_byte in Hb2.
    destruct (is_cont b2) eqn:C2; [|now apply R].
    cbn [forallb]. rewrite IH by (assumption || lia). rewrite andb_true_r.
    unfold scalar, is_cont in *. lia. }
  destruct (b <? 240) eqn:E4.
  { destruct r1 as [|b2 r2]; [reflexivity|].
    cbn [List.length] in Hlen.
    apply Forall_cons_iff in Hb1 as [Hb2 Hb1']. unfold is_byte in Hb2.
    destruct (is_cont b2) eqn:C2; cbn [negb orb]; [|now apply R].
    destruct (b2 <? 160) eqn:E5.
    - destruct (b =? 224) eqn:E6; [now apply R|].
      destruct r2 as [|b3 r3]; [reflexivity|].
      cbn [List.length] in Hlen.
      apply Forall_cons_iff in Hb1' as [Hb3 Hb1'']. unfold is_byte in Hb3.
      destruct (is_cont b3) eqn:C3.
      + cbn [forallb]. rewrite IH by (assumption || lia). rewrite andb_true_r.
        unfold scalar, is_cont in *. lia.
      + apply R. apply IH; [cbn [List.length]; lia|].
        now constructor.
    - destruct (b =? 237) eqn:E6; [now apply R|].
      destruct r2 as [|b3 r3]; [reflexivity|].
      cbn [List.length] in Hlen.
      apply Forall_cons_iff in Hb1' as [Hb3 Hb1'']. unfold is_byte in Hb3.
      destruct (is_cont b3) eqn:C3.
      + cbn [forallb]. rewrite IH by (assumption || lia). rewrite andb_true_r.
        unfold scalar, is_cont in *. lia.
      + apply R. apply IH; [cbn [List.length]; lia|].
        now constructor. }
  destruct (b <? 245) eqn:E5; [|now apply R].
  destruct r1 as [|b2 r2]; [reflexivity|].
  cbn [List.length] in Hlen.
  apply Forall_cons_iff in Hb1 as [Hb2 Hb1']. unfold is_byte in Hb2.
  destruct (is_cont b2) eqn:C2; cbn [negb orb]; [|now apply R].
  assert (Tail : forall b3 r3,
            r2 = b3 :: r3 ->
            (if b2 <? 144 then b =? 240 else b =? 244) = false ->
            forallb scalar
              (if negb (is_cont b3) then REPLACEMENT :: utf8_decode r2
               else
                 match r3 with
                 | [] => [REPLACEMENT]
                 | b4 :: r4 =>
                     if is_cont b4
                     then ((b - 240) * 262144 + (b2 - 128) * 4096 +
                           (b3 - 128) * 64 + (b4 - 128)) :: utf8_decode r4
                     else REPLACEMENT :: utf8_decode r3
                 end) = true).
  { intros b3 r3 -> Hrange.
    cbn [List.length] in Hlen.
    apply Forall_cons_iff in Hb1' as [Hb3 Hb1'']. unfold is_byte in Hb3.
    destruct (is_cont b3) eqn:C3; cbn [negb].
    - destruct r3 as [|b4 r4]; [reflexivity|].
      cbn [List.length] in Hlen.
      apply Forall_cons_iff in Hb1'' as [Hb4 Hb1''']. unfold is_byte in Hb4.
      destruct (is_cont b4) eqn:C4.
      + cbn [forallb]. rewrite IH by (assumption || lia).
        rewrite andb_true_r.
        destruct (b2 <? 144) eqn:E6; unfold scalar, is_cont in *; lia.
      + apply R. apply IH; [cbn [List.length]; lia | now constructor].
    - apply R. apply IH; [cbn [List.length]; lia | now constructor]. }
  destruct (if b2 <? 144 then b =? 240 else b =? 244) eqn:E6; [now apply R|].
  destruct r2 as [|b3 r3]; [reflexivity|]. now apply Tail.
Qed.

Lemma utf8_decode_scalars (bs : bytes) :
  Forall is_byte bs -> scalars (utf8_decode bs) = true.
Proof. now apply (utf8_decode_scalars_upto (List.length bs)). Qed.

(** *** Unquoting gives such text *)

Lemma In_split (c : Z) (s p : str) (x : Z) :
  In p (split c s) -> In x p -> In x s.
Proof.
  revert p. induction s as [|y s IH]; intros p Hp Hx.
  - cbn in Hp. destruct Hp as [<- | []]. contradiction.
  - cbn [split] in Hp. destruct (y =? c) eqn:E.
    + destruct Hp as [<- | Hp]; [contradiction|]. right. now apply (IH p).
    + destruct (split c s) as [|q qs] eqn:Es.
      * destruct Hp as [<- | []]. destruct Hx as [<- | []]. now left.
      * destruct Hp as [<- | Hp].
        -- destruct Hx as [<- | Hx]; [now left|]. right.
           apply (IH q); [now left | assumption].
        -- right. apply (IH p); [now right | assumption].
Qed.

Lemma hexval_range (h : Z) : is_hexdig h = true -> 0 <= hexval h < 16.
Proof.
  unfold is_hexdig, hexval, is_digit. intros H.
  destruct ((48 <=? h) && (h <=? 57)) eqn:E1; [lia|].
  destruct (h <? 97) eqn:E2; lia.
Qed.

Lemma unquote_item_bytes (item : str) :
  Forall ascii_code item -> Forall is_byte (unquote_item item).
Proof.
  intros H.
  assert (Hb : Forall is_byte item).
  { eapply Forall_impl; [|exact H]. unfold ascii_code, is_byte. lia. }
  assert (Hp : Forall is_byte (percent :: item)).
  { constructor; [unfold is_byte; change percent with 37; lia | assumption]. }
  unfold unquote_item. destruct item as [|h1 [|h2 rest]]; try assumption.
  destruct (is_hexdig h1 && is_hexdig h2) eqn:E; [|assumption].
  apply andb_true_iff in E as [E1 E2].
  apply hexval_range in E1, E2.
  apply Forall_cons_iff in Hb as [_ Hb]. apply Forall_cons_iff in Hb as [_ Hb].
  constructor; [unfold is_byte; lia | assumption].
Qed.

Lemma unquote_to_bytes_bytes (s : str) :
  Forall ascii_code s -> Forall is_byte (unquote_to_bytes s).
Proof.
  intros H. rewrite unquote_to_bytes_split.
  assert (Hpieces : forall p, In p (split percent s) -> Forall ascii_code p).
  { intros p Hp. apply Forall_forall. intros x Hx.
    rewrite Forall_forall in H. apply H. now apply (In_split percent s p). }
  destruct (split percent s) as [|first items]; [constructor|].
  apply Forall_app. split.
  - eapply Forall_impl; [|apply Hpieces; now left].
    unfold ascii_code, is_byte. lia.
  - apply Forall_flat_map. apply Forall_forall. intros item Hi.
    apply unquote_item_bytes, Hpieces. now right.
Qed.

Lemma unquote_run_scalars (run : str) :
  Forall ascii_code run -> scalars (unquote_run run) = true.
Proof.
  intros H. unfold unquote_run. destruct run as [|c run]; [reflexivity|].
  apply utf8_decode_scalars, unquote_to_bytes_bytes. now apply Forall_rev.
Qed.

Lemma scalars_app (a b : str) :
  scalars (a ++ b) = scalars a && scalars b.
Proof. apply forallb_app. Qed.

Lemma unquote_runs_scalars (s run : str) :
  scalars s = true -> Forall ascii_code run ->
  scalars (unquote_runs s run) = true.
Proof.
  revert run. induction s as [|c s IH]; intros run Hs Hrun.
  - now apply unquote_run_scalars.
  - unfold scalars in Hs. cbn [forallb] in Hs.
    apply andb_true_iff in Hs as [Hc Hs]. cbn [unquote_runs].
    destruct (c <? 128) eqn:E.
    + apply IH; [assumption|]. constructor; [|assumption].
      unfold ascii_code, scalar in *. lia.
    + rewrite scalars_app, unquote_run_scalars by assumption.
      unfold scalars. cbn [forallb]. rewrite Hc. cbn [andb].
      now apply IH.
Qed.

Lemma unquote_scalars (s : str) : scalars s = true -> scalars (unquote s) = true.
Proof.
  intros H. unfold unquote. destruct (negb (has (chr "%") s)); [assumption|].
  now apply unquote_runs_scalars.
Qed.

Lemma replace_scalars (c d : Z) (s : str) :
  scalar d = true -> scalars s = true -> scalars (replace c d s) = true.
Proof.
  intros Hd. unfold scalars, replace. rewrite !forallb_forall.
  intros H x Hx. apply in_map_iff in Hx as [y [<- Hy]].
  destruct (y =? c); [assumption | now apply H].
Qed.

Lemma scalars_part (s t : str) :
  (forall x, In x t -> In x s) -> scalars s = true -> scalars t = true.
Proof.
  unfold scalars. rewrite !forallb_forall. intros H Hs x Hx. now apply Hs, H.
Qed.

Lemma In_partition (c : Z) (s a b : str) (f : bool) (x : Z) :
  partition c s = (a, f, b) -> In x a \/ In x b -> In x s.
Proof.
  intros H Hx. destruct (has c s) eqn:E.
  - apply has_split in E as [a' [b' [-> Ha']]].
    rewrite partition_found in H by assumption. injection H as <- _ <-.
    apply in_or_app. destruct Hx; [now left | right; now right].
  - rewrite partition_absent in H by assumption. injection H as <- _ <-.
    destruct Hx as [Hx | []]. assumption.
Qed.

Lemma parse_qsl_scalars (qs : str) :
  scalars qs = true ->
  Forall (fun nv => scalars (fst nv) = true /\ scalars (snd nv) = true)
         (parse_qsl qs).
Proof.
  intros H. unfold parse_qsl. apply Forall_flat_map, Forall_forall.
  intros piece Hp.
  assert (Hpiece : scalars piece = true).
  { destruct (truthy qs); [|contradiction].
    apply (scalars_part qs); [|assumption].
    intros x Hx. now apply (In_split (chr "&") qs piece). }
  destruct (negb (truthy piece)); [constructor|].
  destruct (partition (chr "=") piece) as [[n f] v] eqn:E.
  constructor; [|constructor]. cbn [fst snd].
  split; apply unquote_scalars, replace_scalars; try reflexivity;
    apply (scalars_part piece); try assumption;
    intros x Hx; apply (In_partition _ _ _ _ _ _ E); tauto.
Qed.

Lemma dict_append_scalars (d : dict) (name value : str) :
  dict_scalars d -> scalars name = true -> scalars value = true ->
  dict_scalars (dict_append d name value).
Proof.
  intros Hd Hn Hv. induction d as [|[k vs] d IH].
  - cbn. constructor; [|constructor]. cbn. split; [assumption|].
    now constructor.
  - apply Forall_cons_iff in Hd as [[Hk Hvs] Hd]. cbn [fst snd] in *.
    cbn [dict_append]. destruct (eqb_str k name).
    + constructor; [|assumption]. cbn [fst snd]. split; [assumption|].
      apply Forall_app. split; [assumption | now constructor].
    + constructor; [now split | now apply IH].
Qed.

Lemma parse_qs_scalars (qs : str) :
  scalars qs = true -> dict_scalars (parse_qs qs).
Proof.
  intros H. apply parse_qsl_scalars in H. rewrite parse_qs_fold.
  assert (Hacc : dict_scalars []) by constructor.
  revert Hacc. generalize (@nil (str * list str)).
  induction H as [|[n v] l [Hn Hv] _ IH]; intros acc Hacc; [assumption|].
  cbn [fold_left add_pair]. apply IH. now apply dict_append_scalars.
Qed.

Lemma filter_query_scalars {rt : Runtime} (d : dict) :
  dict_scalars d -> dict_scalars (filter_query d).
Proof.
  unfold dict_scalars, filter_query. rewrite !Forall_forall.
  intros H kv Hkv. apply filter_In in Hkv as [Hkv _]. now apply H.
Qed.

(** *** The canonicalizer on such text *)

Section Encodable.
Context {rt : Runtime}.

(** The characters of the query are characters of the URL. *)
Lemma urlsplit_query_chars (url : str) (sr : SplitResult) :
  urlsplit url = Ok sr -> forall c, In c (s_query sr) -> In c url.
Proof.
  rewrite urlsplit_steps.
  destruct (split_scheme (preprocess url)) as [s u1] eqn:Es.
  destruct (split_netloc u1) as [[n u2]|] eqn:En; [|discriminate]. cbn [bind].
  destruct (split_fragment_cases u2) as [u3 [f [-> [_ Hf]]]].
  destruct (split_query_cases u3) as [p [q [-> [_ Hq]]]].
  destruct (_checknetloc n); [|discriminate]. cbn [bind].
  intros H. apply Ok_inj in H. subst sr. cbn [s_query]. intros c Hc.
  apply In_preprocess, (In_split_scheme _ _ _ Es).
  assert (H3 : In c u3).
  { destruct Hq as [-> | [_ ->]]; [|contradiction].
    apply in_or_app. right. now right. }
  assert (H2 : In c u2).
  { destruct Hf as [-> | [-> _]]; [|assumption]. apply in_or_app. now left. }
  destruct (split_netloc_cases _ _ _ En) as [[_ [-> _]] | [-> _]];
    [assumption|].
  apply in_or_app. right. apply in_or_app. now right.
Qed.

Lemma urlencode_parsed (url : str) (p : ParseResult) :
  scalars url = true -> urlparse url = Ok p ->
  exists new_query, urlencode (filter_query (parse_qs (query p))) = Ok new_query.
Proof.
  intros Hs Hp. destruct (urlparse_split _ _ Hp) as [sr [Hsr [_ [_ [Hq _]]]]].
  apply urlencode_scalars, filter_query_scalars, parse_qs_scalars.
  apply (scalars_part url); [|assumption]. rewrite Hq.
  now apply urlsplit_query_chars.
Qed.

(** X28: on a URL that holds no surrogate the canonicalizer falls back to
    its input only because [urlparse] refused it: the [try] block raises
    nothing but the [ValueError] of [urlparse], and rebuilding the query
    cannot fail. *)
Theorem strip_tracking_params_try_value_error (url : str) (e : exn) :
  scalars url = true ->
  strip_tracking_params_try url = Raise e ->
  e = ValueError /\ urlparse url = Raise ValueError.
Proof.
  intros Hs. unfold strip_tracking_params_try.
  destruct (urlparse url) as [p|e1] eqn:Hp; cbn [bind].
  - destruct (urlencode_parsed _ _ Hs Hp) as [q ->]. discriminate.
  - intros H. injection H as <-.
    apply urlparse_raises in Hp as E. now subst.
Qed.

Lemma ascii_scalars (url : str) :
  forallb ascii_char url = true -> scalars url = true /\ isascii url = true.
Proof.
  unfold scalars, isascii. rewrite !forallb_forall.
  unfold ascii_char, scalar.
  intros H. split; intros c Hc; specialize (H c Hc); lia.
Qed.

(** X29: on an ASCII URL without square brackets the [try] block of the
    canonicalizer completes: the URL parses, the query is rebuilt, and the
    handler is not reached. *)
Theorem strip_tracking_params_try_plain (url : str) :
  forallb ascii_char url = true ->
  has (chr "[") url = false -> has (chr "]") url = false ->
  strip_tracking_params_try url = Ok (canonicalize url).
Proof.
  intros Ha H1 H2. apply ascii_scalars in Ha as [Hs Hi].
  destruct (urlparse_plain url Hi H1 H2) as [p [Hp _]].
  destruct (urlencode_parsed _ _ Hs Hp) as [q Hq].
  exact (try_parsed _ _ _ Hp Hq).
Qed.

End Encodable.

(** X28, on an example. *)
Lemma strip_tracking_params_try_value_error_witness :
  ValueError = ValueError /\
  urlparse (rt := ascii_runtime) (py "http://[example.com/a") = Raise ValueError.
Proof.
  apply (strip_tracking_params_try_value_error (rt := ascii_runtime)
           (py "http://[example.com/a") ValueError); reflexivity.
Defined.

(** X29, on an example. *)
Lemma strip_tracking_params_try_plain_witness :
  strip_tracking_params_try (rt := ascii_runtime)
    (py "https://example.com/a b/?q=%zz&utm_source=x#frag")
  = Ok (canonicalize (rt := ascii_runtime)
          (py "https://example.com/a b/?q=%zz&utm_source=x#frag")).
Proof.
  apply (strip_tracking_params_try_plain (rt := ascii_runtime)); reflexivity.
Defined.
